(** * env-auditor: a shallow embedding of [scan.js]

    The scanner reads source files as raw text, extracts references to
    [process.env], reconciles them with an optional list of declared
    variables, applies four heuristic risk rules and renders reports.

    JavaScript strings are sequences of UTF-16 code units; none of the
    regular expressions of the program carries the [u] flag, so every
    string operation of the program works on code units.  A string is
    therefore a [list N] of code units here. *)

From Stdlib Require Import Ascii String Decimal.
From Stdlib Require Import NArith Arith Lia Bool List Sorted Permutation.
Import ListNotations.

(* ------------------------------------------------------------------ *)
(** ** Strings of code units *)

Module Js.

Definition jsstring := list N.

(** Literals of the program are written as Rocq strings.  A backquote
    in such a literal stands for the double-quote character (code unit
    34); the program's own literals never contain a backquote. *)
Definition unit_of_ascii (a : ascii) : N :=
  let n := N_of_ascii a in
  if N.eqb n 96 then 34%N else n.

Fixpoint lit (s : string) : jsstring :=
  match s with
  | EmptyString => []
  | String a r => unit_of_ascii a :: lit r
  end.

Fixpoint str_eqb (a b : jsstring) : bool :=
  match a, b with
  | [], [] => true
  | x :: a', y :: b' => N.eqb x y && str_eqb a' b'
  | _, _ => false
  end.

(** [s.startsWith(p)] *)
Fixpoint startsWith (p s : jsstring) : bool :=
  match p, s with
  | [], _ => true
  | _ :: _, [] => false
  | x :: p', y :: s' => N.eqb x y && startsWith p' s'
  end.

(** [s.includes(p)] *)
Fixpoint includes (p s : jsstring) : bool :=
  startsWith p s ||
  match s with
  | [] => false
  | _ :: s' => includes p s'
  end.

(** [s.indexOf(c)] for a one-unit needle; [None] is the program's -1. *)
Fixpoint indexOf (c : N) (s : jsstring) : option nat :=
  match s with
  | [] => None
  | x :: s' =>
      if N.eqb x c then Some 0
      else match indexOf c s' with
           | Some i => Some (S i)
           | None => None
           end
  end.

(** [s.slice(0, n)] for [0 <= n]. *)
Definition slice0 (n : nat) (s : jsstring) : jsstring := firstn n s.

(** [s.replaceAll(c, r)] for a one-unit pattern [c]. *)
Fixpoint replaceAll (c : N) (r : jsstring) (s : jsstring) : jsstring :=
  match s with
  | [] => []
  | x :: s' => (if N.eqb x c then r else [x]) ++ replaceAll c r s'
  end.

(** [s.split("\n")]: always at least one piece. *)
Fixpoint split_nl (s : jsstring) : list jsstring :=
  match s with
  | [] => [[]]
  | c :: r =>
      if N.eqb c 10 then [] :: split_nl r
      else match split_nl r with
           | h :: t => (c :: h) :: t
           | [] => [[c]]
           end
  end.

(** [pieces.join("\n")] *)
Fixpoint join_nl (l : list jsstring) : jsstring :=
  match l with
  | [] => []
  | [x] => x
  | x :: r => x ++ 10%N :: join_nl r
  end.

(** [pieces.join("")] *)
Definition join_empty (l : list jsstring) : jsstring := concat l.

(** White space and line terminators removed by [trim]:
    TAB, LF, VT, FF, CR, SP, NBSP, U+1680, U+2000..U+200A, U+2028,
    U+2029, U+202F, U+205F, U+3000 and U+FEFF. *)
Definition is_space (c : N) : bool :=
  ((9 <=? c) && (c <=? 13) || (c =? 32) || (c =? 160) || (c =? 5760)
   || ((8192 <=? c) && (c <=? 8202)) || (c =? 8232) || (c =? 8233)
   || (c =? 8239) || (c =? 8287) || (c =? 12288) || (c =? 65279))%N.

Fixpoint trimStart (s : jsstring) : jsstring :=
  match s with
  | [] => []
  | c :: r => if is_space c then trimStart r else s
  end.

Definition trimEnd (s : jsstring) : jsstring := rev (trimStart (rev s)).

Definition trim (s : jsstring) : jsstring := trimEnd (trimStart s).

(** Default [Array.prototype.sort] on strings: ascending order of code
    units, a prefix before its extensions. *)
Fixpoint str_leb (a b : jsstring) : bool :=
  match a, b with
  | [], _ => true
  | _ :: _, [] => false
  | x :: a', y :: b' =>
      if N.ltb x y then true
      else if N.ltb y x then false
      else str_leb a' b'
  end.

Fixpoint insert_sorted (x : jsstring) (l : list jsstring) : list jsstring :=
  match l with
  | [] => [x]
  | y :: r => if str_leb x y then x :: l else y :: insert_sorted x r
  end.

Fixpoint sort (l : list jsstring) : list jsstring :=
  match l with
  | [] => []
  | x :: r => insert_sorted x (sort r)
  end.

(** [String(n)] for a non-negative integer. *)
Fixpoint digits (u : Decimal.uint) : jsstring :=
  match u with
  | Nil => []
  | D0 r => 48%N :: digits r
  | D1 r => 49%N :: digits r
  | D2 r => 50%N :: digits r
  | D3 r => 51%N :: digits r
  | D4 r => 52%N :: digits r
  | D5 r => 53%N :: digits r
  | D6 r => 54%N :: digits r
  | D7 r => 55%N :: digits r
  | D8 r => 56%N :: digits r
  | D9 r => 57%N :: digits r
  end.

Definition String_of_nat (n : nat) : jsstring := digits (Nat.to_uint n).

(** Sets of strings ([new Set()]) keep insertion order: a list without
    repetition, [add] appending only a new element. *)
Definition set_has (k : jsstring) (s : list jsstring) : bool :=
  existsb (str_eqb k) s.

Definition set_add (k : jsstring) (s : list jsstring) : list jsstring :=
  if set_has k s then s else s ++ [k].

Definition set_of_list (l : list jsstring) : list jsstring :=
  fold_left (fun s k => set_add k s) l [].

End Js.

Import Js.

(* ------------------------------------------------------------------ *)
(** ** The leaf functions of [scan.js] *)

(** [getLineNumber(text, index)] *)
Definition getLineNumber (text : jsstring) (index : nat) : nat :=
  length (split_nl (slice0 index text)).

(** One iteration of the loop of [parseEnvKeys]. *)
Definition parseEnvKeys_step (keys : list jsstring) (raw : jsstring)
  : list jsstring :=
  let line := trim raw in
  if match line with [] => true | _ => false end
     || startsWith (lit "#") line then keys
  else
    match indexOf 61 line with
    | None => keys
    | Some eq =>
        let key := trim (slice0 eq line) in
        match key with
        | [] => keys
        | _ :: _ => set_add key keys
        end
    end.

Definition parseEnvKeys (envText : jsstring) : list jsstring :=
  fold_left parseEnvKeys_step (split_nl envText) [].

(** The regular expression
    [/KEY|TOKEN|SECRET|PRIVATE|PASSWORD|PASS|AUTH/i] has no [u] flag:
    a unit matches a pattern letter when their upper-case forms agree
    and no unit above 127 is folded to one below 128, so a Latin
    capital is matched by itself and by its small letter only. *)
Definition fold_case (c : N) : N :=
  if ((97 <=? c) && (c <=? 122))%N then (c - 32)%N else c.

Definition includes_i (p s : jsstring) : bool :=
  includes p (map fold_case s).

Definition sensitive_words : list jsstring :=
  [lit "KEY"; lit "TOKEN"; lit "SECRET"; lit "PRIVATE"; lit "PASSWORD";
   lit "PASS"; lit "AUTH"].

Definition looksSensitiveName (key : jsstring) : bool :=
  existsb (fun w => includes_i w key) sensitive_words.

Definition isLikelyClientExposedPath (relFile : jsstring) : bool :=
  let f := replaceAll 92 (lit "/") relFile in
  let isAppOrPages :=
    startsWith (lit "app/") f || startsWith (lit "pages/") f ||
    startsWith (lit "src/app/") f || startsWith (lit "src/pages/") f in
  let isApi :=
    startsWith (lit "app/api/") f || startsWith (lit "src/app/api/") f ||
    includes (lit "/route.ts") f || includes (lit "/route.js") f in
  isAppOrPages && negb isApi.

Definition escapeHtml (s : jsstring) : jsstring :=
  replaceAll 39 (lit "&#039;")
    (replaceAll 34 (lit "&quot;")
      (replaceAll 62 (lit "&gt;")
        (replaceAll 60 (lit "&lt;")
          (replaceAll 38 (lit "&amp;") s)))).

(* ------------------------------------------------------------------ *)
(** ** The usage index: [const used = new Map()] *)

Record Occurrence := mkOcc {
  file : jsstring;
  line : nat;
  isClient : bool;
  isServerFile : bool
}.

(** A [Map] iterates in insertion order of its keys: an association
    list, a new key going to the end. *)
Definition UsageIndex := list (jsstring * list Occurrence).

Fixpoint map_get (key : jsstring) (used : UsageIndex)
  : option (list Occurrence) :=
  match used with
  | [] => None
  | (k, l) :: r => if str_eqb k key then Some l else map_get key r
  end.

Definition map_has (key : jsstring) (used : UsageIndex) : bool :=
  match map_get key used with Some _ => true | None => false end.

Fixpoint map_set (key : jsstring) (v : list Occurrence) (used : UsageIndex)
  : UsageIndex :=
  match used with
  | [] => [(key, v)]
  | (k, l) :: r =>
      if str_eqb k key then (k, v) :: r else (k, l) :: map_set key v r
  end.

(** [used.get(key).push(o)]: the array stored under [key] grows in
    place. *)
Fixpoint map_push (key : jsstring) (o : Occurrence) (used : UsageIndex)
  : UsageIndex :=
  match used with
  | [] => []
  | (k, l) :: r =>
      if str_eqb k key then (k, l ++ [o]) :: r
      else (k, l) :: map_push key o r
  end.

(** The body of both [for (const match of ...)] loops. *)
Definition record_match (key : jsstring) (o : Occurrence) (used : UsageIndex)
  : UsageIndex :=
  let used1 := if map_has key used then used else map_set key [] used in
  map_push key o used1.

Definition map_keys (used : UsageIndex) : list jsstring := map fst used.

(** [used.get(k) || []] *)
Definition locations (k : jsstring) (used : UsageIndex) : list Occurrence :=
  match map_get k used with
  | Some l => l
  | None => []
  end.

(* ------------------------------------------------------------------ *)
(** ** The two access patterns *)

(** The class [[A-Z0-9_]]. *)
Definition is_env_unit (c : N) : bool :=
  ((65 <=? c) && (c <=? 90) || (48 <=? c) && (c <=? 57) || (c =? 95))%N.

Definition is_quote (c : N) : bool := ((c =? 39) || (c =? 34))%N.

Fixpoint take_env (s : jsstring) : jsstring :=
  match s with
  | [] => []
  | c :: r => if is_env_unit c then c :: take_env r else []
  end.

Fixpoint strip_prefix (p s : jsstring) : option jsstring :=
  match p, s with
  | [], _ => Some s
  | _ :: _, [] => None
  | x :: p', y :: s' => if N.eqb x y then strip_prefix p' s' else None
  end.

(** A match of a pattern at the head of the text: the captured name
    and the length of the whole match. *)
Definition matcher := jsstring -> option (jsstring * nat).

(** [/process\.env\.([A-Z0-9_]+)/]: the greedy group takes the whole
    run of class units and nothing follows it. *)
Definition reDot : matcher := fun s =>
  match strip_prefix (lit "process.env.") s with
  | Some r =>
      match take_env r with
      | [] => None
      | k => Some (k, 12 + length k)
      end
  | None => None
  end.

(** [/process\.env\[['"]([A-Z0-9_]+)['"]\]/]: the group takes the
    whole run; a shorter run would be followed by a class unit, never
    by a quote, so backtracking finds nothing more.  The two quotes
    need not be the same. *)
Definition reBracket : matcher := fun s =>
  match strip_prefix (lit "process.env[") s with
  | Some (q :: r) =>
      if is_quote q then
        match take_env r with
        | [] => None
        | k =>
            match skipn (length k) r with
            | q2 :: b :: _ =>
                if is_quote q2 && N.eqb b 93
                then Some (k, 12 + 1 + length k + 2)
                else None
            | _ => None
            end
        end
      else None
  | _ => None
  end.

(** [text.matchAll(re)] for a global pattern whose matches are never
    empty: the leftmost match from the current position, then on from
    its end.  [skip] counts the units of the last match still to pass,
    [idx] is the index of the head of [text]. *)
Fixpoint matchAll_from (re : matcher) (skip idx : nat) (text : jsstring)
  : list (jsstring * nat) :=
  match text with
  | [] => []
  | _ :: rest =>
      match skip with
      | S k => matchAll_from re k (S idx) rest
      | O =>
          match re text with
          | Some (key, len) =>
              (key, idx) :: matchAll_from re (pred len) (S idx) rest
          | None => matchAll_from re 0 (S idx) rest
          end
      end
  end.

Definition matchAll (re : matcher) (text : jsstring) : list (jsstring * nat) :=
  matchAll_from re 0 0 text.

(* ------------------------------------------------------------------ *)
(** ** Extraction: the loop over [files] *)

(** A listed file: its relative path and what [readFileSync] gives,
    [None] when reading throws. *)
Definition SourceFile := (jsstring * option jsstring)%type.

Definition isClientText (text : jsstring) : bool :=
  includes (lit "`use client`") text || includes (lit "'use client'") text.

Definition isServerPath (relFile : jsstring) : bool :=
  startsWith (lit "app/api/") relFile ||
  startsWith (lit "src/app/api/") relFile ||
  includes (lit "/route.ts") relFile ||
  includes (lit "/route.js") relFile.

Definition record_matches (relFile text : jsstring) (re : matcher)
  (used : UsageIndex) : UsageIndex :=
  fold_left
    (fun u (m : jsstring * nat) =>
       record_match (fst m)
         (mkOcc relFile (getLineNumber text (snd m))
                (isClientText text) (isServerPath relFile)) u)
    (matchAll re text) used.

Definition scan_file (used : UsageIndex) (f : SourceFile) : UsageIndex :=
  match f with
  | (_, None) => used
  | (relFile, Some text) =>
      record_matches relFile text reBracket
        (record_matches relFile text reDot used)
  end.

Definition extract (files : list SourceFile) : UsageIndex :=
  fold_left scan_file files [].

(* ------------------------------------------------------------------ *)
(** ** Reconciliation *)

Definition reconcile (usedKeys providedKeys : list jsstring)
  : list jsstring * list jsstring :=
  match providedKeys with
  | [] => ([], [])
  | _ :: _ =>
      (filter (fun k => negb (set_has k providedKeys)) usedKeys,
       filter (fun k => negb (set_has k usedKeys)) providedKeys)
  end.

(* ------------------------------------------------------------------ *)
(** ** Risk checks *)

Record RiskFinding := mkRisk {
  type : jsstring;
  key : jsstring;
  rfile : jsstring;
  rline : nat;
  why : jsstring
}.

Definition type_exposed : jsstring :=
  lit "Secret-like env used in potentially client-exposed code (heuristic)".
Definition why_exposed : jsstring :=
  lit "Name looks like a secret (KEY/TOKEN/SECRET/PASSWORD). Because it"
  ++ [8217%N]
  ++ lit "s referenced in app/ or pages/, it may end up in browser code depending on how the component is used.".

Definition type_public_sensitive : jsstring :=
  lit "Public env name looks sensitive".
Definition why_public_sensitive : jsstring :=
  lit "NEXT_PUBLIC_* can be exposed to the browser; this looks like it might be a secret.".

Definition type_client : jsstring :=
  lit "Possible secret used in client component".
Definition why_client : jsstring :=
  lit "Referenced inside a file marked 'use client'. Secrets should not be used in client components.".

Definition type_server_only : jsstring :=
  lit "NEXT_PUBLIC_ used only in server code".
Definition why_server_only : jsstring :=
  lit "NEXT_PUBLIC_* is meant for browser-exposed vars. If it's only used in server routes, it may be misnamed or unintended.".

Definition isPublicName (k : jsstring) : bool :=
  startsWith (lit "NEXT_PUBLIC_") k.

(** Reading [ex.file] of [locations[0]] throws a [TypeError] when the
    array is empty: [None]. *)
Definition first_location (locations : list Occurrence) : option Occurrence :=
  nth_error locations 0.

Definition cite (ty k : jsstring) (ex : Occurrence) (w : jsstring)
  : RiskFinding :=
  mkRisk ty k (file ex) (line ex) w.

(** The four [if] statements of the body of the loop over
    [used.entries()], each giving what it pushes onto [risky]. *)
Definition rule_exposed (missingSet : list jsstring) (k : jsstring)
  (locations : list Occurrence) : option (list RiskFinding) :=
  if negb (set_has k missingSet) && looksSensitiveName k then
    match find (fun x => isLikelyClientExposedPath (file x)) locations with
    | Some ex => Some [cite type_exposed k ex why_exposed]
    | None => Some []
    end
  else Some [].

Definition rule_public_sensitive (missingSet : list jsstring) (k : jsstring)
  (locations : list Occurrence) : option (list RiskFinding) :=
  if negb (set_has k missingSet) && isPublicName k && looksSensitiveName k then
    match first_location locations with
    | Some ex => Some [cite type_public_sensitive k ex why_public_sensitive]
    | None => None
    end
  else Some [].

Definition rule_client (missingSet : list jsstring) (k : jsstring)
  (locations : list Occurrence) : option (list RiskFinding) :=
  let usedInClient := existsb isClient locations in
  if negb (set_has k missingSet) && usedInClient && negb (isPublicName k) then
    match find isClient locations with
    | Some ex => Some [cite type_client k ex why_client]
    | None =>
        match first_location locations with
        | Some ex => Some [cite type_client k ex why_client]
        | None => None
        end
    end
  else Some [].

Definition rule_server_only (missingSet : list jsstring) (k : jsstring)
  (locations : list Occurrence) : option (list RiskFinding) :=
  let usedOnlyInServer := forallb isServerFile locations in
  if negb (set_has k missingSet) && isPublicName k && usedOnlyInServer then
    match first_location locations with
    | Some ex => Some [cite type_server_only k ex why_server_only]
    | None => None
    end
  else Some [].

Definition bind {A B} (x : option A) (f : A -> option B) : option B :=
  match x with
  | Some a => f a
  | None => None
  end.

Notation "x <- c ;; k" := (bind c (fun x => k))
  (at level 61, c at next level, right associativity).

Definition risk_rules (missingSet : list jsstring) (k : jsstring)
  (locations : list Occurrence) : option (list RiskFinding) :=
  a <- rule_exposed missingSet k locations ;;
  b <- rule_public_sensitive missingSet k locations ;;
  c <- rule_client missingSet k locations ;;
  d <- rule_server_only missingSet k locations ;;
  Some (a ++ b ++ c ++ d).

Fixpoint risk_loop (missingSet : list jsstring) (entries : UsageIndex)
  : option (list RiskFinding) :=
  match entries with
  | [] => Some []
  | (k, locations) :: rest =>
      here <- risk_rules missingSet k locations ;;
      later <- risk_loop missingSet rest ;;
      Some (here ++ later)
  end.

(* ------------------------------------------------------------------ *)
(** ** The report and the generated files *)

Record Totals := mkTotals {
  filesScanned : nat;
  envVarsFound : nat;
  missingCount : nat;
  unusedCount : nat;
  riskyCount : nat
}.

(** [locationsByEnvVar] is kept as the entries of [used], in their
    insertion order.  In the object that [Object.fromEntries] builds,
    names that are canonical array indices come first; the properties
    below only look names up in this field, count its entries or
    compare it between runs, and do not depend on that order. *)
Record Report := mkReport {
  scannedInput : jsstring;
  totals : Totals;
  envVarsUsed : list jsstring;
  missing : list jsstring;
  unused : list jsstring;
  risky : list RiskFinding;
  locationsByEnvVar : UsageIndex
}.

(** [.env.example.generated] *)
Definition exampleText (usedKeys : list jsstring) : jsstring :=
  join_nl (map (fun k => k ++ lit "=") (sort usedKeys)) ++ lit "
".

(** [a || b] on strings: the empty string is falsy. *)
Definition or_else (a b : jsstring) : jsstring :=
  match a with
  | [] => b
  | _ :: _ => a
  end.

Definition none_item : jsstring :=
  lit "<li>None " ++ [55356%N; 57225%N] ++ lit "</li>".

Definition missingItem (used : UsageIndex) (k : jsstring) : jsstring :=
  let ex := first_location (locations k used) in
  let where_ :=
    match ex with
    | Some e => file e ++ lit ":" ++ String_of_nat (line e)
    | None => []
    end in
  lit "<li><b>" ++ escapeHtml k ++ lit "</b> <span style=`color:#666`>"
  ++ escapeHtml where_ ++ lit "</span></li>".

Definition riskyItem (r : RiskFinding) : jsstring :=
  lit "<li><b>" ++ escapeHtml (key r) ++ lit "</b> " ++ [8212%N] ++ lit " "
  ++ escapeHtml (type r) ++ lit " <span style=`color:#666`>("
  ++ escapeHtml (rfile r) ++ lit ":" ++ escapeHtml (String_of_nat (rline r))
  ++ lit ")</span><div style=`color:#666;margin-top:4px`>"
  ++ escapeHtml (or_else (why r) []) ++ lit "</div></li>".

Definition unusedItem (k : jsstring) : jsstring :=
  lit "<li><b>" ++ escapeHtml k ++ lit "</b></li>".

Definition tile_open : jsstring :=
  lit "<div style=`padding:10px 12px;border:1px solid #ddd;border-radius:10px;`>".

Definition tile (label : jsstring) (n : nat) : jsstring :=
  tile_open ++ label ++ lit ": <b>" ++ String_of_nat n ++ lit "</b></div>".

Definition html_head : jsstring :=
  lit "<!doctype html>
<html><head><meta charset=`utf-8` /><meta name=`viewport` content=`width=device-width, initial-scale=1` />
<title>Env Audit Report</title></head>
<body style=`font-family: system-ui, -apple-system; margin: 24px; max-width: 900px;`>
<h1 style=`margin:0 0 6px 0;`>Env Audit Report</h1>
<div style=`color:#666;margin-bottom:16px;`>Input: ".

Definition html_tiles (t : Totals) : jsstring :=
  lit "<div style=`display:flex; gap:12px; flex-wrap:wrap; margin-bottom:18px;`>
  " ++ tile (lit "Files") (filesScanned t) ++ lit "
  " ++ tile (lit "Env vars") (envVarsFound t) ++ lit "
  " ++ tile (lit "Missing") (missingCount t) ++ lit "
  " ++ tile (lit "Risky") (riskyCount t) ++ lit "
  " ++ tile (lit "Unused") (unusedCount t) ++ lit "
</div>".

Definition html_section (title items : jsstring) : jsstring :=
  lit "<h2>" ++ title ++ lit "</h2>
<ul>" ++ or_else items none_item ++ lit "</ul>".

Definition html_foot : jsstring :=
  lit "<hr style=`margin:24px 0;border:none;border-top:1px solid #eee;` />
<div style=`color:#666;font-size:14px;`>Generated by env-auditor</div>
</body></html>".

(** [report.html] *)
Definition html (used : UsageIndex) (report : Report) : jsstring :=
  let missingItems := join_empty (map (missingItem used) (missing report)) in
  let riskyItems := join_empty (map riskyItem (risky report)) in
  let unusedItems := join_empty (map unusedItem (unused report)) in
  html_head ++ escapeHtml (scannedInput report) ++ lit "</div>

" ++ html_tiles (totals report) ++ lit "

" ++ html_section (lit "Critical: Missing env vars") missingItems ++ lit "

" ++ html_section (lit "Warnings: Risky usage") riskyItems ++ lit "

" ++ html_section (lit "Info: Unused env vars") unusedItems ++ lit "

" ++ html_foot.

(* ------------------------------------------------------------------ *)
(** ** [main] *)

(** The optional second argument: absent, or the text read from it, or
    a file that cannot be read (the run then fails before any report). *)
Inductive EnvArg :=
| EnvAbsent
| EnvText (envText : jsstring)
| EnvUnreadable.

Record Run := mkRun {
  report : Report;
  example_generated : jsstring;
  report_html : jsstring
}.

Definition provided (env : EnvArg) : option (list jsstring) :=
  match env with
  | EnvAbsent => Some []
  | EnvText envText => Some (parseEnvKeys envText)
  | EnvUnreadable => None
  end.

(** The body of [main] after the files are listed: [displayTarget],
    the listed files with what reading each gives, and the env list. *)
Definition main (displayTarget : jsstring) (files : list SourceFile)
  (env : EnvArg) : option Run :=
  let used := extract files in
  providedKeys <- provided env ;;
  let usedKeys := set_of_list (map_keys used) in
  let '(missing0, unused0) := reconcile usedKeys providedKeys in
  let missingSet := set_of_list missing0 in
  risky <- risk_loop missingSet used ;;
  let rep :=
    mkReport displayTarget
      (mkTotals (length files) (length usedKeys) (length missing0)
                (length unused0) (length risky))
      (sort usedKeys) (sort missing0) (sort unused0) risky used in
  Some (mkRun rep (exampleText usedKeys) (html used rep)).

(* ------------------------------------------------------------------ *)
(** ** The root of an extracted archive *)

(** An entry of [readdirSync(dir, { withFileTypes: true })]. *)
Record Dirent := mkDirent {
  name : jsstring;
  isDirectory : bool
}.

(** [pickProjectRoot(extractDir)], given the listing of [extractDir];
    [path_join] is [path.join] of the platform. *)
Definition pickProjectRoot (path_join : jsstring -> jsstring -> jsstring)
  (extractDir : jsstring) (listing : list Dirent) : jsstring :=
  let entries :=
    filter (fun e => negb (str_eqb (name e) (lit "__MACOSX"))) listing in
  match entries with
  | [e] => if isDirectory e then path_join extractDir (name e) else extractDir
  | _ => extractDir
  end.

(* ------------------------------------------------------------------ *)
(** ** Notions used to state the properties *)

(** The occurrences one pattern contributes to the name [k] in one
    file, in the order of its matches. *)
Definition occurrences_of (k relFile text : jsstring) (re : matcher)
  : list Occurrence :=
  map (fun m : jsstring * nat =>
         mkOcc relFile (getLineNumber text (snd m))
               (isClientText text) (isServerPath relFile))
      (filter (fun m => str_eqb (fst m) k) (matchAll re text)).

(** A name captured by [([A-Z0-9_]+)]. *)
Definition env_name (k : jsstring) : Prop :=
  k <> [] /\ forallb is_env_unit k = true.

(** What the extraction loop maintains: keys are distinct captured
    names and every stored array holds at least one occurrence. *)
Definition well_formed (used : UsageIndex) : Prop :=
  NoDup (map_keys used) /\
  Forall (fun e => env_name (fst e) /\ snd e <> []) used.

(** The env-list format in the words of the specification: for each
    line, trim; skip if empty or starting with [#]; locate the first
    [=]; skip if absent; the substring before [=], trimmed, is a
    declared key. *)
Definition spec_line_key (raw : jsstring) : option jsstring :=
  let line := trim raw in
  match line with
  | [] => None
  | _ :: _ =>
      if startsWith (lit "#") line then None
      else match indexOf 61 line with
           | None => None
           | Some eq => Some (trim (slice0 eq line))
           end
  end.

Definition spec_declared_keys (envText : jsstring) : list jsstring :=
  flat_map (fun raw => match spec_line_key raw with
                       | Some k => [k]
                       | None => []
                       end)
           (split_nl envText).

(** What the five replacements of [escapeHtml] do to one unit. *)
Definition escape_unit (c : N) : jsstring :=
  if N.eqb c 38 then lit "&amp;"
  else if N.eqb c 60 then lit "&lt;"
  else if N.eqb c 62 then lit "&gt;"
  else if N.eqb c 34 then lit "&quot;"
  else if N.eqb c 39 then lit "&#039;"
  else [c].

Definition entities : list jsstring :=
  [lit "&amp;"; lit "&lt;"; lit "&gt;"; lit "&quot;"; lit "&#039;"].

(** The units that delimit markup: [<], [>], the double and the single
    quote. *)
Definition is_markup_unit (c : N) : bool :=
  N.eqb c 60 || N.eqb c 62 || N.eqb c 34 || N.eqb c 39.

Definition markup_units (s : jsstring) : jsstring := filter is_markup_unit s.

(** Every [&] of [s] starts one of the five entities. *)
Definition ampersands_escaped (s : jsstring) : Prop :=
  forall pre post, s = pre ++ 38%N :: post ->
    exists e rest, In e entities /\ 38%N :: post = e ++ rest.

(** A report of the same shape with every text erased. *)
Definition blank_report (r : Report) : Report :=
  mkReport [] (mkTotals 0 0 0 0 0) []
    (map (fun _ => []) (missing r))
    (map (fun _ => []) (unused r))
    (map (fun _ => mkRisk [] [] [] 0 []) (risky r))
    [].

(** Number of places of [s] where [p] occurs. *)
Fixpoint count_sub (p s : jsstring) : nat :=
  (if startsWith p s then 1 else 0) +
  match s with
  | [] => 0
  | _ :: r => count_sub p r
  end.

(** [x] holds [n] occurrences of [p], whatever text follows it. *)
Definition counted (p x : jsstring) (n : nat) : Prop :=
  forall r, count_sub p (x ++ r) = n + count_sub p r.

(** Deciding occurrences inside a literal without looking past its
    end: [None] when the literal ends inside a possible occurrence. *)
Fixpoint starts_closed (p l : jsstring) : option bool :=
  match p, l with
  | [], _ => Some true
  | _ :: _, [] => None
  | x :: p', y :: l' => if N.eqb x y then starts_closed p' l' else Some false
  end.

Fixpoint count_closed (p l : jsstring) : option nat :=
  match l with
  | [] => Some 0
  | _ :: l' =>
      match starts_closed p l, count_closed p l' with
      | Some b, Some n => Some ((if b then 1 else 0) + n)
      | _, _ => None
      end
  end.

(** The occurrences one listed file contributes to the name [k]: none
    when it cannot be read. *)
Definition file_occurrences (k : jsstring) (f : SourceFile) : list Occurrence :=
  match f with
  | (_, None) => []
  | (relFile, Some text) =>
      occurrences_of k relFile text reDot
      ++ occurrences_of k relFile text reBracket
  end.

(** The text [s] goes on after a captured name: its next unit, if any,
    is outside the class. *)
Definition name_ends (s : jsstring) : Prop :=
  match s with
  | [] => True
  | c :: _ => is_env_unit c = false
  end.

(** A list in the order of the default [sort]: each string is at most
    every later one. *)
Definition ascending : list jsstring -> Prop :=
  StronglySorted (fun a b => str_leb a b = true).

(** A text with Windows line ends: every newline preceded by a
    carriage return. *)
Definition crlf (text : jsstring) : jsstring :=
  replaceAll 10 [13%N; 10%N] text.

(** The text that follows the first place of [s] where [p] occurs. *)
Fixpoint find_sub (p s : jsstring) : option jsstring :=
  if startsWith p s then Some (skipn (length p) s)
  else match s with
       | [] => None
       | _ :: r => find_sub p r
       end.

(** The opening of the metric tile with a given label, up to its
    number; the opening of the findings section with a given title,
    up to its list. *)
Definition tile_label (label : jsstring) : jsstring :=
  tile_open ++ label ++ lit ": <b>".

Definition section_open (title : jsstring) : jsstring :=
  lit "<h2>" ++ title ++ lit "</h2>
<ul>".

(** The page holds one tile with this label, and the tile shows [n]. *)
Definition shows_tile (page label : jsstring) (n : nat) : Prop :=
  count_sub (tile_label label) page = 1 /\
  exists rest,
    find_sub (tile_label label) page =
    Some (String_of_nat n ++ lit "</b></div>" ++ rest).

(** The page holds one section with this title, and the list of that
    section, from its [<ul>] to the next [</ul>], is [body]. *)
Definition shows_section (page title body : jsstring) : Prop :=
  count_sub (section_open title) page = 1 /\
  count_sub (lit "</ul>") body = 0 /\
  exists rest,
    find_sub (section_open title) page = Some (body ++ lit "</ul>" ++ rest).

(** The layout of [report.html]: five tiles, each with its label and
    the total it shows, and three sections, each with its title and
    the items of the report list it shows (or the "None" item). *)
Definition tiles_and_sections (used : UsageIndex) (r : Report)
  (page : jsstring) : Prop :=
  count_sub tile_open page = 5 /\
  shows_tile page (lit "Files") (filesScanned (totals r)) /\
  shows_tile page (lit "Env vars") (envVarsFound (totals r)) /\
  shows_tile page (lit "Missing") (missingCount (totals r)) /\
  shows_tile page (lit "Risky") (riskyCount (totals r)) /\
  shows_tile page (lit "Unused") (unusedCount (totals r)) /\
  count_sub (lit "<h2>") page = 3 /\
  count_sub (lit "<ul>") page = 3 /\
  shows_section page (lit "Critical: Missing env vars")
    (or_else (join_empty (map (missingItem used) (missing r))) none_item) /\
  shows_section page (lit "Warnings: Risky usage")
    (or_else (join_empty (map riskyItem (risky r))) none_item) /\
  shows_section page (lit "Info: Unused env vars")
    (or_else (join_empty (map unusedItem (unused r))) none_item).

(* ------------------------------------------------------------------ *)
(** ** A sample project *)

Module Sample.

Definition page_text : jsstring :=
  lit "`use client`;
export default function Page() {
  return process.env.STRIPE_SECRET_KEY;
}".

Definition route_text : jsstring :=
  lit "export async function GET() {
  return fetch(process.env[`NEXT_PUBLIC_API_BASE`]);
}".

Definition files : list SourceFile :=
  [(lit "app/dashboard/page.tsx", Some page_text);
   (lit "src/app/api/users/route.ts", Some route_text)].

Definition unreadable : SourceFile := (lit "lib/broken.ts", None).

Definition env : EnvArg :=
  EnvText (lit "# declared variables
NEXT_PUBLIC_API_BASE=https://api.example.test
DB_URL=postgres://db
").

End Sample.

(* ================================================================== *)
(** * Properties *)

(** ** Strings, sets and sorting *)

Section StringFacts.

Lemma str_eqb_eq (a b : jsstring) : str_eqb a b = true <-> a = b.
Proof.
  revert b; induction a as [|x a IH]; intros [|y b]; simpl;
    try (split; [discriminate | congruence]); try tauto.
  rewrite andb_true_iff, N.eqb_eq, IH.
  split; [intros [-> ->]; reflexivity | intros E; inversion E; auto].
Qed.

Lemma str_eqb_refl (a : jsstring) : str_eqb a a = true.
Proof. apply str_eqb_eq; reflexivity. Qed.

Lemma str_eqb_neq (a b : jsstring) : str_eqb a b = false <-> a <> b.
Proof.
  rewrite <- str_eqb_eq. destruct (str_eqb a b); split; congruence.
Qed.

Lemma str_eqb_sym (a b : jsstring) : str_eqb a b = str_eqb b a.
Proof.
  destruct (str_eqb a b) eqn:E.
  - apply str_eqb_eq in E; subst; symmetry; apply str_eqb_refl.
  - apply str_eqb_neq in E. symmetry; apply str_eqb_neq; congruence.
Qed.

Lemma set_has_In (k : jsstring) (s : list jsstring) :
  set_has k s = true <-> In k s.
Proof.
  unfold set_has. rewrite existsb_exists. split.
  - intros (x & Hx & E). apply str_eqb_eq in E; subst; exact Hx.
  - intros H. exists k. split; [exact H | apply str_eqb_refl].
Qed.

Lemma set_has_not_In (k : jsstring) (s : list jsstring) :
  set_has k s = false <-> ~ In k s.
Proof.
  rewrite <- set_has_In. destruct (set_has k s); split; congruence.
Qed.

Lemma set_add_In (x k : jsstring) (s : list jsstring) :
  In x (set_add k s) <-> x = k \/ In x s.
Proof.
  unfold set_add. destruct (set_has k s) eqn:E.
  - apply set_has_In in E. split; [auto | intros [-> | H]; auto].
  - rewrite in_app_iff; simpl. intuition congruence.
Qed.

Lemma set_add_NoDup (k : jsstring) (s : list jsstring) :
  NoDup s -> NoDup (set_add k s).
Proof.
  intros H. unfold set_add. destruct (set_has k s) eqn:E; [exact H|].
  apply set_has_not_In in E.
  apply NoDup_rev in H. rewrite <- (rev_involutive (s ++ [k])).
  apply NoDup_rev. rewrite rev_app_distr; simpl.
  constructor; [rewrite <- in_rev; exact E | exact H].
Qed.

Lemma fold_set_add_In (l s : list jsstring) (x : jsstring) :
  In x (fold_left (fun s k => set_add k s) l s) <-> In x l \/ In x s.
Proof.
  revert s; induction l as [|k l IH]; intros s; simpl; [tauto|].
  rewrite IH, set_add_In. intuition congruence.
Qed.

Lemma fold_set_add_NoDup (l s : list jsstring) :
  NoDup s -> NoDup (fold_left (fun s k => set_add k s) l s).
Proof.
  revert s; induction l as [|k l IH]; intros s H; simpl; [exact H|].
  apply IH, set_add_NoDup, H.
Qed.

Lemma set_of_list_In (l : list jsstring) (x : jsstring) :
  In x (set_of_list l) <-> In x l.
Proof. unfold set_of_list. rewrite fold_set_add_In; simpl; tauto. Qed.

Lemma set_of_list_NoDup (l : list jsstring) : NoDup (set_of_list l).
Proof. apply fold_set_add_NoDup; constructor. Qed.

Lemma fold_set_add_fresh (l s : list jsstring) :
  NoDup (s ++ l) -> fold_left (fun s k => set_add k s) l s = s ++ l.
Proof.
  revert s; induction l as [|k l IH]; intros s H; simpl.
  - now rewrite app_nil_r.
  - assert (E : set_add k s = s ++ [k]).
    { unfold set_add. destruct (set_has k s) eqn:Hk; [|reflexivity].
      apply set_has_In in Hk. apply NoDup_remove_2 in H.
      exfalso; apply H, in_or_app; auto. }
    rewrite E, IH; rewrite <- app_assoc; [reflexivity | exact H].
Qed.

(** A set built from the keys of a map is the list of those keys. *)
Lemma set_of_list_id (l : list jsstring) : NoDup l -> set_of_list l = l.
Proof. intros H. unfold set_of_list. now rewrite fold_set_add_fresh. Qed.

Lemma insert_sorted_In (x y : jsstring) (l : list jsstring) :
  In y (insert_sorted x l) <-> y = x \/ In y l.
Proof.
  induction l as [|z l IH]; simpl; [intuition congruence|].
  destruct (str_leb x z); simpl; rewrite ?IH; intuition congruence.
Qed.

Lemma sort_In (l : list jsstring) (x : jsstring) : In x (sort l) <-> In x l.
Proof.
  induction l as [|y l IH]; simpl; [tauto|].
  rewrite insert_sorted_In, IH. intuition congruence.
Qed.

Lemma insert_sorted_NoDup (x : jsstring) (l : list jsstring) :
  ~ In x l -> NoDup l -> NoDup (insert_sorted x l).
Proof.
  induction l as [|z l IH]; simpl; intros Hx Hl.
  - constructor; [tauto | constructor].
  - destruct (str_leb x z).
    + constructor; [simpl; tauto | exact Hl].
    + inversion Hl; subst. constructor.
      * rewrite insert_sorted_In. intuition congruence.
      * apply IH; tauto.
Qed.

Lemma sort_NoDup (l : list jsstring) : NoDup l -> NoDup (sort l).
Proof.
  induction 1 as [|x l Hx Hl IH]; simpl; [constructor|].
  apply insert_sorted_NoDup; [rewrite sort_In; exact Hx | exact IH].
Qed.

Lemma insert_sorted_length (x : jsstring) (l : list jsstring) :
  length (insert_sorted x l) = S (length l).
Proof.
  induction l as [|z l IH]; simpl; [reflexivity|].
  destruct (str_leb x z); simpl; congruence.
Qed.

Lemma sort_length (l : list jsstring) : length (sort l) = length l.
Proof.
  induction l as [|x l IH]; simpl; [reflexivity|].
  now rewrite insert_sorted_length, IH.
Qed.

Lemma sort_nil_inv (l : list jsstring) : sort l = [] -> l = [].
Proof.
  intros H. apply (f_equal (@length _)) in H. rewrite sort_length in H.
  now destruct l.
Qed.

End StringFacts.

(** ** The usage index *)

Section IndexFacts.

Lemma record_match_nil (k : jsstring) (o : Occurrence) :
  record_match k o [] = [(k, [o])].
Proof.
  unfold record_match; simpl. now rewrite str_eqb_refl.
Qed.

Lemma record_match_cons (k k0 : jsstring) (o : Occurrence)
  (l : list Occurrence) (r : UsageIndex) :
  record_match k o ((k0, l) :: r) =
  if str_eqb k0 k then (k0, l ++ [o]) :: r
  else (k0, l) :: record_match k o r.
Proof.
  unfold record_match, map_has; simpl.
  destruct (str_eqb k0 k) eqn:E; simpl; [now rewrite E|].
  destruct (map_get k r); simpl; now rewrite E.
Qed.

Lemma record_match_locations (k k' : jsstring) (o : Occurrence)
  (used : UsageIndex) :
  locations k' (record_match k o used) =
  if str_eqb k k' then locations k' used ++ [o] else locations k' used.
Proof.
  unfold locations.
  induction used as [|[k0 l] r IH].
  - rewrite record_match_nil; simpl. now destruct (str_eqb k k').
  - rewrite record_match_cons.
    destruct (str_eqb k0 k) eqn:E0; simpl.
    + apply str_eqb_eq in E0; subst k0.
      destruct (str_eqb k k'); reflexivity.
    + destruct (str_eqb k0 k') eqn:E1; [|exact IH].
      apply str_eqb_eq in E1; subst k0. now rewrite str_eqb_sym, E0.
Qed.

Lemma record_match_keys (k : jsstring) (o : Occurrence) (used : UsageIndex) :
  map_keys (record_match k o used) =
  if set_has k (map_keys used) then map_keys used else map_keys used ++ [k].
Proof.
  unfold map_keys, set_has.
  induction used as [|[k0 l] r IH].
  - now rewrite record_match_nil.
  - rewrite record_match_cons. simpl.
    rewrite (str_eqb_sym k k0).
    destruct (str_eqb k0 k) eqn:E0; simpl; [reflexivity|].
    rewrite IH.
    now destruct (existsb (str_eqb k) (map fst r)).
Qed.

Lemma record_match_well_formed (k : jsstring) (o : Occurrence)
  (used : UsageIndex) :
  env_name k -> well_formed used -> well_formed (record_match k o used).
Proof.
  intros Hk [Hnd Hall]. split.
  - rewrite record_match_keys. destruct (set_has k (map_keys used)) eqn:E.
    + exact Hnd.
    + apply set_has_not_In in E.
      apply NoDup_rev in Hnd. rewrite <- (rev_involutive (_ ++ [k])).
      apply NoDup_rev. rewrite rev_app_distr; simpl.
      constructor; [rewrite <- in_rev; exact E | exact Hnd].
  - clear Hnd. induction Hall as [|[k0 l] r [H0 H1] Hr IH].
    + rewrite record_match_nil. repeat constructor; simpl; [apply Hk.. | discriminate].
    + rewrite record_match_cons. destruct (str_eqb k0 k).
      * constructor; [|exact Hr]. simpl in *. split; [exact H0|].
        now destruct l.
      * constructor; [|exact IH]. now split.
Qed.

Lemma fold_record_well_formed (mk : jsstring * nat -> Occurrence)
  (ms : list (jsstring * nat)) (used : UsageIndex) :
  Forall (fun m => env_name (fst m)) ms ->
  well_formed used ->
  well_formed (fold_left (fun u m => record_match (fst m) (mk m) u) ms used).
Proof.
  intros H; revert used.
  induction H as [|m ms Hm _ IH]; intros used Hu; simpl; [exact Hu|].
  apply IH, record_match_well_formed; assumption.
Qed.

Lemma fold_record_locations (mk : jsstring * nat -> Occurrence)
  (k : jsstring) (ms : list (jsstring * nat)) (used : UsageIndex) :
  locations k (fold_left (fun u m => record_match (fst m) (mk m) u) ms used) =
  locations k used ++ map mk (filter (fun m => str_eqb (fst m) k) ms).
Proof.
  revert used; induction ms as [|m ms IH]; intros used; simpl.
  - now rewrite app_nil_r.
  - rewrite IH, record_match_locations.
    destruct (str_eqb (fst m) k); simpl; [|reflexivity].
    now rewrite <- app_assoc.
Qed.

Lemma well_formed_lookup (used : UsageIndex) (k : jsstring)
  (l : list Occurrence) :
  NoDup (map_keys used) -> In (k, l) used -> locations k used = l.
Proof.
  unfold locations, map_keys.
  induction used as [|[k0 l0] r IH]; simpl; intros Hnd Hin; [tauto|].
  destruct Hin as [E | H].
  - inversion E; subst. now rewrite str_eqb_refl.
  - inversion Hnd; subst.
    destruct (str_eqb k0 k) eqn:E0.
    + apply str_eqb_eq in E0; subst k0.
      exfalso. apply H2. apply (in_map fst) in H. exact H.
    + apply IH; assumption.
Qed.

Lemma lookup_In (used : UsageIndex) (k : jsstring) :
  In k (map_keys used) -> In (k, locations k used) used.
Proof.
  unfold locations, map_keys.
  induction used as [|[k0 l0] r IH]; simpl; [tauto|].
  destruct (str_eqb k0 k) eqn:E0.
  - apply str_eqb_eq in E0; subst. auto.
  - intros [E | H]; [apply str_eqb_neq in E0; contradiction|].
    right; apply IH, H.
Qed.

End IndexFacts.

(** ** The access patterns and the extraction loop *)

Section ExtractFacts.

Lemma take_env_units (s : jsstring) : forallb is_env_unit (take_env s) = true.
Proof.
  induction s as [|c r IH]; simpl; [reflexivity|].
  destruct (is_env_unit c) eqn:E; simpl; [now rewrite E|reflexivity].
Qed.

Lemma take_env_name (s : jsstring) : take_env s <> [] -> env_name (take_env s).
Proof. intros H. split; [exact H | apply take_env_units]. Qed.

Lemma reDot_name (s k : jsstring) (n : nat) :
  reDot s = Some (k, n) -> env_name k.
Proof.
  unfold reDot. destruct (strip_prefix _ s) as [r|]; [|discriminate].
  destruct (take_env r) eqn:E; [discriminate|].
  intros H; inversion H; subst. rewrite <- E.
  apply take_env_name. now rewrite E.
Qed.

Lemma reBracket_name (s k : jsstring) (n : nat) :
  reBracket s = Some (k, n) -> env_name k.
Proof.
  unfold reBracket. destruct (strip_prefix _ s) as [[|q r]|]; try discriminate.
  destruct (is_quote q); [|discriminate].
  destruct (take_env r) eqn:E; [discriminate|].
  destruct (skipn _ r) as [|q2 [|b t]]; try discriminate.
  destruct (is_quote q2 && N.eqb b 93); [|discriminate].
  intros H; inversion H; subst. rewrite <- E.
  apply take_env_name. now rewrite E.
Qed.

Variable re : matcher.
Hypothesis re_name : forall s k n, re s = Some (k, n) -> env_name k.

Lemma matchAll_from_names (text : jsstring) : forall skip idx,
  Forall (fun m => env_name (fst m)) (matchAll_from re skip idx text).
Proof.
  induction text as [|c rest IH]; intros skip idx; simpl; [constructor|].
  destruct skip as [|k]; [|apply IH].
  destruct (re (c :: rest)) as [[key len]|] eqn:E; [|apply IH].
  constructor; [simpl; eapply re_name, E | apply IH].
Qed.

Lemma matchAll_names (text : jsstring) :
  Forall (fun m => env_name (fst m)) (matchAll re text).
Proof. apply matchAll_from_names. Qed.

Lemma record_matches_well_formed (relFile text : jsstring)
  (used : UsageIndex) :
  well_formed used -> well_formed (record_matches relFile text re used).
Proof.
  unfold record_matches.
  apply (fold_record_well_formed
           (fun m => mkOcc relFile (getLineNumber text (snd m))
                           (isClientText text) (isServerPath relFile))).
  apply matchAll_names.
Qed.

End ExtractFacts.

Section ExtractInvariant.

Lemma record_matches_locations (re : matcher) (k relFile text : jsstring)
  (used : UsageIndex) :
  locations k (record_matches relFile text re used) =
  locations k used ++ occurrences_of k relFile text re.
Proof.
  unfold record_matches, occurrences_of.
  apply (fold_record_locations
           (fun m => mkOcc relFile (getLineNumber text (snd m))
                           (isClientText text) (isServerPath relFile))).
Qed.

Lemma scan_file_well_formed (used : UsageIndex) (f : SourceFile) :
  well_formed used -> well_formed (scan_file used f).
Proof.
  destruct f as [relFile [text|]]; simpl; [|auto].
  intros H.
  apply record_matches_well_formed; [exact reBracket_name|].
  apply record_matches_well_formed; [exact reDot_name | exact H].
Qed.

Lemma fold_scan_well_formed (files : list SourceFile) (used : UsageIndex) :
  well_formed used -> well_formed (fold_left scan_file files used).
Proof.
  revert used; induction files as [|f files IH]; intros used H; simpl.
  - exact H.
  - apply IH, scan_file_well_formed, H.
Qed.

Lemma extract_well_formed (files : list SourceFile) :
  well_formed (extract files).
Proof.
  apply fold_scan_well_formed. split; constructor.
Qed.

Lemma extract_usedKeys (files : list SourceFile) :
  set_of_list (map_keys (extract files)) = map_keys (extract files).
Proof. apply set_of_list_id, extract_well_formed. Qed.

End ExtractInvariant.

(** ** The risk checks *)

Ltac rule_cases :=
  repeat match goal with
         | |- context [if ?b then _ else _] => destruct b eqn:?
         | |- context [match find ?p ?l with _ => _ end] =>
             destruct (find p l) eqn:?
         | |- context [match first_location ?l with _ => _ end] =>
             destruct (first_location l) eqn:?
         end.

Section RiskFacts.

Variable missingSet : list jsstring.

Lemma first_location_some (locations : list Occurrence) :
  locations <> [] -> exists ex, first_location locations = Some ex.
Proof. destruct locations as [|o l]; [congruence | intros _; now exists o]. Qed.

Lemma risk_rules_total (k : jsstring) (locations : list Occurrence) :
  locations <> [] -> exists fs, risk_rules missingSet k locations = Some fs.
Proof.
  intros H. destruct (first_location_some _ H) as [ex Hex].
  unfold risk_rules, rule_exposed, rule_public_sensitive, rule_client,
    rule_server_only.
  rewrite Hex. rule_cases; simpl; eexists; reflexivity.
Qed.

Lemma risk_loop_total (used : UsageIndex) :
  Forall (fun e => env_name (fst e) /\ snd e <> []) used ->
  exists fs, risk_loop missingSet used = Some fs.
Proof.
  induction 1 as [|[k l] r [_ Hl] _ [fs IH]]; simpl; [now eexists|].
  simpl in Hl. destruct (risk_rules_total k l Hl) as [here ->]; simpl.
  rewrite IH; simpl. now eexists.
Qed.

(** Every finding of one pass of the loop body is about the key of
    that pass, and that key is not in the missing set. *)
Lemma risk_rules_key (k : jsstring) (locations : list Occurrence)
  (fs : list RiskFinding) (f : RiskFinding) :
  risk_rules missingSet k locations = Some fs -> In f fs ->
  key f = k /\ set_has k missingSet = false.
Proof.
  unfold risk_rules, rule_exposed, rule_public_sensitive, rule_client,
    rule_server_only.
  destruct (set_has k missingSet); simpl.
  - intros E; inversion E; subst. intros [].
  - rule_cases; simpl; intros E; inversion E; subst; simpl;
      intuition (subst; reflexivity).
Qed.

Lemma risk_loop_In (used : UsageIndex) (fs : list RiskFinding)
  (f : RiskFinding) :
  risk_loop missingSet used = Some fs -> In f fs ->
  exists locations here,
    In (key f, locations) used /\
    risk_rules missingSet (key f) locations = Some here /\ In f here.
Proof.
  revert fs; induction used as [|[k l] r IH]; intros fs; simpl.
  - intros E; inversion E; subst. intros [].
  - destruct (risk_rules missingSet k l) as [here|] eqn:Eh; [|discriminate].
    destruct (risk_loop missingSet r) as [later|]; [|discriminate].
    simpl. intros E; inversion E; subst. rewrite in_app_iff.
    intros [H | H].
    + destruct (risk_rules_key _ _ _ _ Eh H) as [<- _].
      exists l, here. auto.
    + destruct (IH later eq_refl H) as (l' & h' & H1 & H2 & H3).
      exists l', h'. auto.
Qed.

Lemma risk_loop_In_rev (used : UsageIndex) (fs here : list RiskFinding)
  (k : jsstring) (locations : list Occurrence) (f : RiskFinding) :
  risk_loop missingSet used = Some fs ->
  In (k, locations) used ->
  risk_rules missingSet k locations = Some here -> In f here -> In f fs.
Proof.
  revert fs; induction used as [|[k0 l0] r IH]; intros fs; simpl; [tauto|].
  destruct (risk_rules missingSet k0 l0) as [h0|] eqn:Eh; [|discriminate].
  destruct (risk_loop missingSet r) as [later|]; [|discriminate].
  simpl. intros E; inversion E; subst. rewrite in_app_iff.
  intros [E0 | Hin] Hr Hf.
  - inversion E0; subst. left. congruence.
  - right. eapply IH; eauto.
Qed.

End RiskFacts.

(** ** [main] *)

Section MainFacts.

Variables (displayTarget : jsstring) (files : list SourceFile).

(** What a run that ends normally has computed. *)
Lemma main_inv (env : EnvArg) (run : Run) :
  main displayTarget files env = Some run ->
  exists providedKeys fs,
    let used := extract files in
    let usedKeys := map_keys used in
    let mu := reconcile usedKeys providedKeys in
    provided env = Some providedKeys /\
    risk_loop (set_of_list (fst mu)) used = Some fs /\
    report run =
      mkReport displayTarget
        (mkTotals (length files) (length usedKeys) (length (fst mu))
                  (length (snd mu)) (length fs))
        (sort usedKeys) (sort (fst mu)) (sort (snd mu)) fs used /\
    example_generated run = exampleText usedKeys /\
    report_html run = html used (report run).
Proof.
  unfold main. rewrite extract_usedKeys.
  destruct (provided env) as [pk|]; [|discriminate]. simpl.
  destruct (reconcile _ pk) as [m u] eqn:Er.
  destruct (risk_loop _ (extract files)) as [fs|] eqn:El; [|discriminate].
  simpl. intros E; inversion E; subst; clear E. simpl.
  exists pk, fs. rewrite Er; simpl. auto.
Qed.

(** A run whose env list can be read ends normally. *)
Lemma main_total (env : EnvArg) :
  env <> EnvUnreadable -> exists run, main displayTarget files env = Some run.
Proof.
  intros Henv. unfold main.
  destruct (provided env) as [pk|] eqn:Ep;
    [|destruct env; simpl in Ep; congruence]. simpl.
  destruct (reconcile _ pk) as [m u].
  destruct (risk_loop_total (set_of_list m) _
              (proj2 (extract_well_formed files))) as [fs ->].
  simpl. now eexists.
Qed.

End MainFacts.

(** ** Reconciliation and suppression *)

Section Reconciliation.

Lemma parseEnvKeys_step_NoDup (keys : list jsstring) (raw : jsstring) :
  NoDup keys -> NoDup (parseEnvKeys_step keys raw).
Proof.
  intros H. unfold parseEnvKeys_step.
  destruct (_ || _); [exact H|].
  destruct (indexOf 61 (trim raw)) as [eq|]; [|exact H].
  destruct (trim (slice0 eq (trim raw))) eqn:E; [exact H|].
  apply set_add_NoDup, H.
Qed.

Lemma parseEnvKeys_NoDup (envText : jsstring) : NoDup (parseEnvKeys envText).
Proof.
  unfold parseEnvKeys. generalize (split_nl envText) as ls.
  assert (G : forall ls keys, NoDup keys ->
                NoDup (fold_left parseEnvKeys_step ls keys)).
  { induction ls as [|l ls IH]; intros keys H; simpl; [exact H|].
    apply IH, parseEnvKeys_step_NoDup, H. }
  intros ls; apply G; constructor.
Qed.

Lemma provided_NoDup (env : EnvArg) (providedKeys : list jsstring) :
  provided env = Some providedKeys -> NoDup providedKeys.
Proof.
  destruct env; simpl; intros E; inversion E; subst.
  - constructor.
  - apply parseEnvKeys_NoDup.
Qed.

Lemma reconcile_missing (U D : list jsstring) (k : jsstring) :
  D <> [] -> (In k (fst (reconcile U D)) <-> In k U /\ ~ In k D).
Proof.
  intros HD. destruct D as [|d D]; [congruence|]. cbn [reconcile fst].
  rewrite filter_In, negb_true_iff, set_has_not_In. tauto.
Qed.

Lemma reconcile_unused (U D : list jsstring) (k : jsstring) :
  D <> [] -> (In k (snd (reconcile U D)) <-> In k D /\ ~ In k U).
Proof.
  intros HD. destruct D as [|d D]; [congruence|]. cbn [reconcile snd].
  rewrite filter_In, negb_true_iff, set_has_not_In. tauto.
Qed.

Lemma reconcile_NoDup (U D : list jsstring) :
  NoDup U -> NoDup D ->
  NoDup (fst (reconcile U D)) /\ NoDup (snd (reconcile U D)).
Proof.
  intros HU HD. destruct D as [|d D]; cbn [reconcile fst snd].
  - split; constructor.
  - split; apply NoDup_filter; assumption.
Qed.

End Reconciliation.

(** C2.  With [D] the declared keys and [U] the keys of the usage
    index of a run: when [D] is not empty, the reported [missing] list
    is the set [U \ D] and the reported [unused] list is the set
    [D \ U] (same members, none repeated); when [D] is empty both
    lists are empty. *)
Theorem reconcile_set_difference :
  forall (displayTarget : jsstring) (files : list SourceFile) (env : EnvArg)
         (D : list jsstring) (run : Run),
    provided env = Some D ->
    main displayTarget files env = Some run ->
    let U := map_keys (extract files) in
    (D <> [] ->
       (forall k, In k (missing (report run)) <-> In k U /\ ~ In k D) /\
       (forall k, In k (unused (report run)) <-> In k D /\ ~ In k U) /\
       NoDup (missing (report run)) /\ NoDup (unused (report run))) /\
    (D = [] -> missing (report run) = [] /\ unused (report run) = []).
Proof.
  intros displayTarget files env D run HD Hrun U.
  destruct (main_inv _ _ _ _ Hrun) as (D' & fs & Hp & _ & Hrep & _).
  rewrite HD in Hp; inversion Hp; subst D'; clear Hp.
  rewrite Hrep; simpl. fold U. split.
  - intros Hne.
    destruct (reconcile_NoDup U D) as [N1 N2].
    { apply extract_well_formed. }
    { eapply provided_NoDup, HD. }
    split; [|split; [|split]].
    + intros k. rewrite sort_In. apply reconcile_missing, Hne.
    + intros k. rewrite sort_In. apply reconcile_unused, Hne.
    + apply sort_NoDup, N1.
    + apply sort_NoDup, N2.
  - intros ->. split; reflexivity.
Qed.

(** C1.  In a run, a name of the [missing] list is the key of no risk
    finding; and with any missing set holding the names of that list,
    the four rules push no finding for such a name, whatever its
    occurrences. *)
Theorem missing_never_risky :
  forall (displayTarget : jsstring) (files : list SourceFile) (env : EnvArg)
         (run : Run) (k : jsstring),
    main displayTarget files env = Some run ->
    In k (missing (report run)) ->
    (forall f, In f (risky (report run)) -> key f <> k) /\
    (forall missingSet locations,
        (forall x, In x missingSet <-> In x (missing (report run))) ->
        risk_rules missingSet k locations = Some []).
Proof.
  intros displayTarget files env run k Hrun Hk.
  destruct (main_inv _ _ _ _ Hrun) as (D & fs & _ & Hloop & Hrep & _).
  rewrite Hrep in *; simpl in *. rewrite sort_In in Hk. split.
  - intros f Hf Hkey.
    destruct (risk_loop_In _ _ _ _ Hloop Hf) as (l & here & _ & Hr & Hin).
    destruct (risk_rules_key _ _ _ _ _ Hr Hin) as [_ Hno].
    apply set_has_not_In in Hno. apply Hno.
    rewrite set_of_list_In, Hkey. exact Hk.
  - intros missingSet locations Hset.
    assert (Hs : set_has k missingSet = true).
    { apply set_has_In, Hset. now rewrite sort_In. }
    unfold risk_rules, rule_exposed, rule_public_sensitive, rule_client,
      rule_server_only.
    rewrite Hs. reflexivity.
Qed.

(** C10.  A listed file whose read fails adds nothing to the usage
    index, so the run reports what it would report without that file,
    except that [filesScanned] still counts it: [filesScanned] is the
    number of listed files. *)
Theorem unreadable_file_counted :
  forall (displayTarget : jsstring) (before after : list SourceFile)
         (relFile : jsstring) (env : EnvArg) (run : Run),
    main displayTarget (before ++ (relFile, None) :: after) env = Some run ->
    filesScanned (totals (report run)) =
      length (before ++ (relFile, None) :: after) /\
    exists run',
      main displayTarget (before ++ after) env = Some run' /\
      locationsByEnvVar (report run) = locationsByEnvVar (report run') /\
      envVarsUsed (report run) = envVarsUsed (report run') /\
      missing (report run) = missing (report run') /\
      unused (report run) = unused (report run') /\
      risky (report run) = risky (report run') /\
      filesScanned (totals (report run)) =
        S (filesScanned (totals (report run'))).
Proof.
  intros displayTarget before after relFile env run.
  assert (E : extract (before ++ (relFile, None) :: after) =
              extract (before ++ after)).
  { unfold extract. now rewrite !fold_left_app. }
  unfold main. rewrite E.
  destruct (provided env) as [pk|]; [|discriminate]. simpl.
  destruct (reconcile _ pk) as [m u].
  destruct (risk_loop _ _) as [fs|]; [|discriminate]. simpl.
  intros H; inversion H; subst; clear H. simpl. split; [reflexivity|].
  eexists. split; [reflexivity|]. simpl.
  repeat split. rewrite !length_app; simpl. lia.
Qed.

(** ** Order of the recorded occurrences *)

Section DiscoveryOrder.

Lemma split_nl_length (s : jsstring) :
  length (split_nl s) = S (length (filter (fun c => N.eqb c 10) s)).
Proof.
  induction s as [|c r IH]; cbn [split_nl filter]; [reflexivity|].
  destruct (N.eqb c 10); simpl; [now rewrite IH|].
  destruct (split_nl r); simpl in *; congruence.
Qed.

Lemma getLineNumber_mono (text : jsstring) (i j : nat) :
  i <= j -> getLineNumber text i <= getLineNumber text j.
Proof.
  unfold getLineNumber, slice0. rewrite !split_nl_length.
  intros H. apply le_n_S. revert i j H.
  induction text as [|c r IH]; intros [|i] [|j] H;
    cbn [firstn filter length]; try lia.
  assert (H' : i <= j) by lia. specialize (IH i j H').
  destruct (N.eqb c 10); simpl; lia.
Qed.

Lemma getLineNumber_pos (text : jsstring) (i : nat) :
  1 <= getLineNumber text i.
Proof. unfold getLineNumber. rewrite split_nl_length. lia. Qed.

Variable re : matcher.

Lemma matchAll_from_lower (text : jsstring) : forall skip idx,
  Forall (fun m => idx <= snd m) (matchAll_from re skip idx text).
Proof.
  induction text as [|c rest IH]; intros skip idx; simpl; [constructor|].
  assert (W : forall k, Forall (fun m => idx <= snd m)
                          (matchAll_from re k (S idx) rest)).
  { intros k. eapply Forall_impl; [|apply IH]. simpl; intros; lia. }
  destruct skip as [|k]; [|apply W].
  destruct (re (c :: rest)) as [[key len]|]; [|apply W].
  constructor; [simpl; lia | apply W].
Qed.

Lemma matchAll_from_increasing (text : jsstring) : forall skip idx,
  StronglySorted (fun a b => snd a < snd b) (matchAll_from re skip idx text).
Proof.
  induction text as [|c rest IH]; intros skip idx; simpl; [constructor|].
  destruct skip as [|k]; [|apply IH].
  destruct (re (c :: rest)) as [[key len]|]; [|apply IH].
  constructor; [apply IH|].
  eapply Forall_impl; [|apply matchAll_from_lower]. simpl; intros; lia.
Qed.

(** The matches of one pattern come in text order: from the top of the
    file to its bottom. *)
Lemma matchAll_top_to_bottom (text : jsstring) :
  StronglySorted
    (fun a b => snd a < snd b /\
                getLineNumber text (snd a) <= getLineNumber text (snd b))
    (matchAll re text).
Proof.
  assert (G : forall l, StronglySorted (fun a b : jsstring * nat =>
                                          snd a < snd b) l ->
              StronglySorted
                (fun a b => snd a < snd b /\
                   getLineNumber text (snd a) <= getLineNumber text (snd b))
                l).
  { induction 1 as [|a l Hs IH Ha]; constructor; [exact IH|].
    eapply Forall_impl; [|exact Ha]. simpl; intros b Hb.
    split; [exact Hb | apply getLineNumber_mono; lia]. }
  apply G, matchAll_from_increasing.
Qed.

End DiscoveryOrder.

(** C7.  Scanning one file appends to the occurrences of a name first
    its dot-access matches, then its bracket-access matches, each
    pattern's matches from the top of the text to its bottom, and one
    entry per match: nothing is merged, also when both patterns match
    the name on one line. *)
Theorem occurrences_in_discovery_order :
  (forall (used : UsageIndex) (relFile text k : jsstring),
      let after := scan_file used (relFile, Some text) in
      locations k after =
        locations k used ++ occurrences_of k relFile text reDot
                         ++ occurrences_of k relFile text reBracket /\
      length (locations k after) =
        length (locations k used)
        + length (filter (fun m => str_eqb (fst m) k) (matchAll reDot text))
        + length (filter (fun m => str_eqb (fst m) k)
                         (matchAll reBracket text))) /\
  (forall (re : matcher) (text : jsstring),
      StronglySorted
        (fun a b => snd a < snd b /\
                    getLineNumber text (snd a) <= getLineNumber text (snd b))
        (matchAll re text)) /\
  (let both := lit "const k = process.env[`API_KEY`] || process.env.API_KEY;" in
   let swapped := lit "const a = process.env['API_KEY'];
const b = process.env.API_KEY;" in
   locations (lit "API_KEY")
     (extract [(lit "lib/a.ts", Some both); (lit "lib/b.ts", Some both)]) =
     [mkOcc (lit "lib/a.ts") 1 false false; mkOcc (lit "lib/a.ts") 1 false false;
      mkOcc (lit "lib/b.ts") 1 false false; mkOcc (lit "lib/b.ts") 1 false false]
   /\
   locations (lit "API_KEY") (extract [(lit "lib/c.ts", Some swapped)]) =
     [mkOcc (lit "lib/c.ts") 2 false false; mkOcc (lit "lib/c.ts") 1 false false]).
Proof.
  split; [|split].
  - intros used relFile text k; cbn zeta.
    assert (E : locations k (scan_file used (relFile, Some text)) =
                locations k used ++ occurrences_of k relFile text reDot
                  ++ occurrences_of k relFile text reBracket).
    { simpl. rewrite !record_matches_locations. now rewrite <- app_assoc. }
    split; [exact E|].
    rewrite E. unfold occurrences_of.
    rewrite !length_app, !length_map. lia.
  - intros re text. apply matchAll_top_to_bottom.
  - split; vm_compute; reflexivity.
Qed.

(** ** The rule for public names used only in server routes *)

Section ServerOnly.

Lemma types_distinct :
  type_exposed <> type_server_only /\
  type_public_sensitive <> type_server_only /\
  type_client <> type_server_only /\
  type_exposed <> type_client /\
  type_public_sensitive <> type_client /\
  type_exposed <> type_public_sensitive.
Proof. repeat split; intros H; vm_compute in H; discriminate. Qed.

Lemma risk_rules_server_only (ms : list jsstring) (k : jsstring)
  (locs : list Occurrence) (here : list RiskFinding) (f : RiskFinding) :
  risk_rules ms k locs = Some here ->
  (In f here /\ type f = type_server_only) <->
  (negb (set_has k ms) && isPublicName k && forallb isServerFile locs = true /\
   exists ex, first_location locs = Some ex /\
              f = cite type_server_only k ex why_server_only).
Proof.
  destruct types_distinct as (D1 & D2 & D3 & _).
  unfold risk_rules, rule_exposed, rule_public_sensitive, rule_client,
    rule_server_only.
  destruct (negb (set_has k ms)); cbn [andb].
  2:{ simpl. intros E; inversion E; subst. simpl.
      split; [tauto | intros [? _]; discriminate]. }
  destruct (first_location locs) as [ex|] eqn:Efirst.
  2:{ rule_cases; simpl; try discriminate; intros E; inversion E; subst; simpl.
      all: split; [intros [Hin Hty] | intros [_ (ex & ? & _)]; discriminate].
      all: repeat (destruct Hin as [<- | Hin]); try contradiction;
        simpl in Hty; congruence. }
  rule_cases; simpl; intros E; inversion E; subst; simpl.
  all: split;
    [ intros [Hin Hty];
      repeat (destruct Hin as [<- | Hin]); try contradiction;
      simpl in Hty; try congruence;
      (split; [reflexivity | exists ex; split; reflexivity])
    | intros [Hc (ex0 & Hex & ->)]; try discriminate;
      inversion Hex; subst; (split; [tauto | reflexivity]) ].
Qed.

End ServerOnly.

(** C5.  For a name [K] of the usage index that is not missing, the
    finding "NEXT_PUBLIC_ used only in server code" is among the risk
    findings exactly when [K] starts with [NEXT_PUBLIC_] and every
    occurrence of [K] is in a server route file; a finding of that
    kind for [K] cites the file and line of the first occurrence of
    [K].  A file [src/app/api/users/route.ts] whose only reference is
    [process.env["NEXT_PUBLIC_API_BASE"]] gives that finding and no
    other. *)
Theorem public_name_only_in_server_routes :
  (forall (displayTarget : jsstring) (files : list SourceFile) (env : EnvArg)
          (run : Run) (K : jsstring),
      main displayTarget files env = Some run ->
      In K (map_keys (locationsByEnvVar (report run))) ->
      ~ In K (missing (report run)) ->
      let locs := locations K (locationsByEnvVar (report run)) in
      ((exists f, In f (risky (report run)) /\
                  type f = type_server_only /\ key f = K) <->
       (isPublicName K = true /\ forallb isServerFile locs = true)) /\
      (forall f, In f (risky (report run)) ->
                 type f = type_server_only -> key f = K ->
                 exists ex, first_location locs = Some ex /\
                            rfile f = file ex /\ rline f = line ex)) /\
  (forall (displayTarget text : jsstring) (idx : nat),
      matchAll reDot text = [] ->
      matchAll reBracket text = [(lit "NEXT_PUBLIC_API_BASE", idx)] ->
      exists run,
        main displayTarget [(lit "src/app/api/users/route.ts", Some text)]
             EnvAbsent = Some run /\
        risky (report run) =
          [mkRisk type_server_only (lit "NEXT_PUBLIC_API_BASE")
                  (lit "src/app/api/users/route.ts")
                  (getLineNumber text idx) why_server_only]).
Proof.
  split.
  - intros displayTarget files env run K Hrun HK Hmiss locs.
    destruct (main_inv _ _ _ _ Hrun) as (D & fs & _ & Hloop & Hrep & _).
    subst locs. rewrite Hrep in *; cbn [risky locationsByEnvVar missing] in *.
    rewrite sort_In in Hmiss.
    set (used := extract files) in *.
    set (ms := set_of_list _) in *.
    assert (Hwf : well_formed used) by apply extract_well_formed.
    assert (Hms : negb (set_has K ms) = true).
    { apply negb_true_iff, set_has_not_In. subst ms.
      now rewrite set_of_list_In. }
    assert (Hent : In (K, locations K used) used) by apply lookup_In, HK.
    assert (Hne : locations K used <> []).
    { destruct Hwf as [_ Hall]. rewrite Forall_forall in Hall.
      apply (Hall _ Hent). }
    destruct (risk_rules_total ms K _ Hne) as [here Hhere].
    assert (Hfrom : forall f, In f fs -> key f = K ->
                      In f here).
    { intros f Hf Hkey.
      destruct (risk_loop_In _ _ _ _ Hloop Hf) as (l & h & Hin & Hr & Hfh).
      rewrite Hkey in Hin, Hr.
      rewrite <- (well_formed_lookup used K l (proj1 Hwf) Hin) in Hr.
      congruence. }
    split; [split|].
    + intros (f & Hf & Hty & Hkey).
      pose proof (proj1 (risk_rules_server_only _ _ _ _ f Hhere)
                    (conj (Hfrom f Hf Hkey) Hty)) as [Hc _].
      rewrite Hms in Hc. cbn [andb] in Hc.
      now apply andb_true_iff in Hc.
    + intros [Hp Hs].
      destruct (first_location_some _ Hne) as [ex Hex].
      exists (cite type_server_only K ex why_server_only).
      split; [|split; reflexivity].
      eapply risk_loop_In_rev; [exact Hloop | exact Hent | exact Hhere |].
      apply (risk_rules_server_only _ _ _ _ _ Hhere). split.
      * now rewrite Hms, Hp, Hs.
      * exists ex. split; [exact Hex | reflexivity].
    + intros f Hf Hty Hkey.
      destruct (proj1 (risk_rules_server_only _ _ _ _ f Hhere)
                  (conj (Hfrom f Hf Hkey) Hty)) as [_ (ex & Hex & ->)].
      exists ex. split; [exact Hex | split; reflexivity].
  - intros displayTarget text idx Hdot Hbr.
    set (files := [(lit "src/app/api/users/route.ts", Some text)]).
    destruct (main_total displayTarget files EnvAbsent) as [run Hrun];
      [discriminate|].
    exists run. split; [exact Hrun|].
    destruct (main_inv _ _ _ _ Hrun) as (D & fs & Hp & Hloop & Hrep & _).
    simpl in Hp. inversion Hp; subst D; clear Hp.
    rewrite Hrep; cbn [risky].
    assert (Hx : extract files =
                 [(lit "NEXT_PUBLIC_API_BASE",
                   [mkOcc (lit "src/app/api/users/route.ts")
                      (getLineNumber text idx) (isClientText text)
                      (isServerPath (lit "src/app/api/users/route.ts"))])]).
    { unfold files, extract. cbn [fold_left scan_file].
      unfold record_matches. rewrite Hdot, Hbr. reflexivity. }
    rewrite Hx in Hloop.
    destruct (isClientText text); vm_compute in Hloop;
      inversion Hloop; reflexivity.
Qed.

(** C4.  One scanned file [app/dashboard/page.tsx] whose text holds
    the client directive and a single reference
    [process.env.STRIPE_SECRET_KEY], no env list given: the usage
    index holds exactly one occurrence, marked as a client file;
    [missing] and [unused] are empty; the risk findings are the
    secret-like name in client-exposed code and the possible secret in
    a client component, both citing that occurrence. *)
Theorem client_page_scenario :
  forall (displayTarget text : jsstring) (idx : nat),
    isClientText text = true ->
    matchAll reDot text = [(lit "STRIPE_SECRET_KEY", idx)] ->
    matchAll reBracket text = [] ->
    exists run,
      main displayTarget [(lit "app/dashboard/page.tsx", Some text)]
           EnvAbsent = Some run /\
      locationsByEnvVar (report run) =
        [(lit "STRIPE_SECRET_KEY",
          [mkOcc (lit "app/dashboard/page.tsx") (getLineNumber text idx)
                 true false])] /\
      missing (report run) = [] /\
      unused (report run) = [] /\
      risky (report run) =
        [mkRisk type_exposed (lit "STRIPE_SECRET_KEY")
                (lit "app/dashboard/page.tsx") (getLineNumber text idx)
                why_exposed;
         mkRisk type_client (lit "STRIPE_SECRET_KEY")
                (lit "app/dashboard/page.tsx") (getLineNumber text idx)
                why_client].
Proof.
  intros displayTarget text idx Hclient Hdot Hbr.
  set (files := [(lit "app/dashboard/page.tsx", Some text)]).
  destruct (main_total displayTarget files EnvAbsent) as [run Hrun];
    [discriminate|].
  exists run. split; [exact Hrun|].
  destruct (main_inv _ _ _ _ Hrun) as (D & fs & Hp & Hloop & Hrep & _).
  simpl in Hp. inversion Hp; subst D; clear Hp.
  rewrite Hrep; cbn [risky locationsByEnvVar missing unused].
  assert (Hx : extract files =
               [(lit "STRIPE_SECRET_KEY",
                 [mkOcc (lit "app/dashboard/page.tsx")
                    (getLineNumber text idx) true false])]).
  { unfold files, extract. cbn [fold_left scan_file].
    unfold record_matches. rewrite Hdot, Hbr, Hclient. reflexivity. }
  rewrite Hx in Hloop |- *.
  split; [reflexivity|]. split; [reflexivity|]. split; [reflexivity|].
  vm_compute in Hloop. inversion Hloop; reflexivity.
Qed.

(** ** The env-list parser against its description *)

Section EnvList.

Lemma parseEnvKeys_step_In (keys : list jsstring) (raw k : jsstring) :
  In k (parseEnvKeys_step keys raw) <->
  In k keys \/ (spec_line_key raw = Some k /\ k <> []).
Proof.
  unfold parseEnvKeys_step, spec_line_key.
  destruct (trim raw) as [|c line] eqn:El; cbn [orb].
  - intuition discriminate.
  - destruct (startsWith (lit "#") (c :: line)); [intuition discriminate|].
    destruct (indexOf 61 (c :: line)) as [eq|]; [|intuition discriminate].
    destruct (trim (slice0 eq (c :: line))) as [|d key] eqn:Ek.
    + split; [auto | intros [H | [H1 H2]]; [exact H|]].
      inversion H1; subst. congruence.
    + rewrite set_add_In. split.
      * intros [-> | H]; [right | left; exact H].
        split; [reflexivity | discriminate].
      * intros [H | [H1 _]]; [right; exact H | left].
        now inversion H1.
Qed.

Lemma fold_parseEnvKeys_In (ls keys : list jsstring) (k : jsstring) :
  In k (fold_left parseEnvKeys_step ls keys) <->
  In k keys \/
  (In k (flat_map (fun raw => match spec_line_key raw with
                              | Some k => [k]
                              | None => []
                              end) ls) /\ k <> []).
Proof.
  revert keys; induction ls as [|raw ls IH]; intros keys; simpl.
  - tauto.
  - rewrite IH, parseEnvKeys_step_In, in_app_iff.
    destruct (spec_line_key raw) as [k0|]; simpl.
    + split.
      * intros [[H | [H1 H2]] | [H1 H2]]; auto.
        inversion H1; subst. auto.
      * intros [H | [[[-> | []] | H1] H2]]; auto.
    + split.
      * intros [[H | [H1 H2]] | [H1 H2]]; auto. discriminate.
      * intros [H | [[[] | H1] H2]]; auto.
Qed.

End EnvList.

(** C6, as the code has it.  The parser returns the set of keys that
    the line-by-line description declares, except that a line whose
    key part is empty after trimming (as in [=value]) declares
    nothing: a key is returned if and only if it is non-empty and is
    the trimmed text before the first [=] of some trimmed line that is
    neither empty nor a comment.  The result has no repetition.  The
    parser is a total function: no line makes it fail. *)
Theorem parseEnvKeys_declares :
  forall (envText k : jsstring),
    (In k (parseEnvKeys envText) <->
     In k (spec_declared_keys envText) /\ k <> []) /\
    NoDup (parseEnvKeys envText).
Proof.
  intros envText k. split; [|apply parseEnvKeys_NoDup].
  unfold parseEnvKeys, spec_declared_keys.
  rewrite fold_parseEnvKeys_In. simpl. tauto.
Qed.

(** C6 as stated fails on the text [=x]: the description declares the
    empty key, the parser declares nothing. *)
Lemma parseEnvKeys_skips_empty_key :
  ~ (forall k, In k (parseEnvKeys (lit "=x")) <->
               In k (spec_declared_keys (lit "=x"))).
Proof.
  intros H. specialize (H []).
  assert (E1 : parseEnvKeys (lit "=x") = []) by (vm_compute; reflexivity).
  assert (E2 : spec_declared_keys (lit "=x") = [[]])
    by (vm_compute; reflexivity).
  rewrite E1, E2 in H. apply H. left; reflexivity.
Qed.

(** ** Reading back the generated template *)

Section RoundTrip.

Lemma env_unit_range (c : N) :
  is_env_unit c = true ->
  (65 <= c <= 90 \/ 48 <= c <= 57 \/ c = 95)%N.
Proof.
  unfold is_env_unit.
  rewrite !orb_true_iff, !andb_true_iff, !N.leb_le, N.eqb_eq. lia.
Qed.

Lemma env_unit_not_space (c : N) : is_env_unit c = true -> is_space c = false.
Proof.
  intros H; apply env_unit_range in H. unfold is_space.
  assert (E1 : (c <=? 13)%N = false) by (apply N.leb_gt; lia).
  assert (E2 : (8192 <=? c)%N = false) by (apply N.leb_gt; lia).
  rewrite E1, E2, andb_false_r. cbn [orb andb].
  repeat match goal with
         | |- context [(c =? ?n)%N] =>
             let E := fresh in
             assert (E : (c =? n)%N = false) by (apply N.eqb_neq; lia);
             rewrite E; clear E
         end.
  reflexivity.
Qed.

Lemma trim_id (s : jsstring) :
  match s with c :: _ => is_space c = false | [] => True end ->
  match rev s with c :: _ => is_space c = false | [] => True end ->
  trim s = s.
Proof.
  intros H1 H2. unfold trim, trimEnd.
  assert (E1 : trimStart s = s).
  { destruct s as [|c r]; [reflexivity|]. simpl. now rewrite H1. }
  assert (E2 : trimStart (rev s) = rev s).
  { destruct (rev s) as [|c r]; [reflexivity|]. simpl. now rewrite H2. }
  now rewrite E1, E2, rev_involutive.
Qed.

Lemma units_rev (k : jsstring) :
  forallb is_env_unit k = true -> forallb is_env_unit (rev k) = true.
Proof.
  rewrite !forallb_forall. intros H c Hc. apply H, in_rev, Hc.
Qed.

Lemma head_not_space (k t : jsstring) :
  env_name k ->
  match k ++ t with c :: _ => is_space c = false | [] => True end.
Proof.
  intros [Hne Hu]. destruct k as [|c r]; [congruence|]. simpl in *.
  apply andb_true_iff in Hu. apply env_unit_not_space, Hu.
Qed.

Lemma trim_name (k : jsstring) : env_name k -> trim k = k.
Proof.
  intros Hk. apply trim_id.
  - rewrite <- (app_nil_r k). now apply head_not_space.
  - rewrite <- (app_nil_r (rev k)). apply head_not_space.
    destruct Hk as [Hne Hu]. split; [|apply units_rev, Hu].
    intros E. apply Hne. rewrite <- (rev_involutive k), E. reflexivity.
Qed.

Lemma trim_assignment (k : jsstring) :
  env_name k -> trim (k ++ lit "=") = k ++ lit "=".
Proof.
  intros Hk. apply trim_id.
  - now apply head_not_space.
  - rewrite rev_app_distr. reflexivity.
Qed.

Lemma indexOf_after_name (k t : jsstring) :
  forallb is_env_unit k = true ->
  indexOf 61 (k ++ 61%N :: t) = Some (length k).
Proof.
  induction k as [|c r IH]; simpl; [reflexivity|].
  intros H; apply andb_true_iff in H; destruct H as [Hc Hr].
  apply env_unit_range in Hc.
  assert (E : (c =? 61)%N = false) by (apply N.eqb_neq; lia).
  now rewrite E, IH.
Qed.

Lemma slice0_prefix (k t : jsstring) : slice0 (length k) (k ++ t) = k.
Proof.
  unfold slice0. induction k as [|c r IH]; simpl; [reflexivity|].
  now rewrite IH.
Qed.

Lemma parseEnvKeys_step_name (keys : list jsstring) (k : jsstring) :
  env_name k -> parseEnvKeys_step keys (k ++ lit "=") = set_add k keys.
Proof.
  intros Hk. unfold parseEnvKeys_step.
  rewrite (trim_assignment k Hk).
  change (lit "=") with [61%N]. change (lit "#") with [35%N].
  destruct Hk as [Hne Hu].
  rewrite (indexOf_after_name k [] Hu), slice0_prefix.
  rewrite (trim_name k (conj Hne Hu)).
  destruct k as [|c r]; [congruence|].
  cbn [app startsWith orb].
  simpl in Hu. apply andb_true_iff in Hu. destruct Hu as [Hc _].
  apply env_unit_range in Hc.
  assert (E : (35 =? c)%N = false) by (apply N.eqb_neq; lia).
  now rewrite E.
Qed.

Lemma parseEnvKeys_step_blank (keys : list jsstring) :
  parseEnvKeys_step keys [] = keys.
Proof. reflexivity. Qed.

Lemma env_name_no_newline (k : jsstring) :
  forallb is_env_unit k = true -> ~ In 10%N (k ++ lit "=").
Proof.
  rewrite forallb_forall. intros H Hin. apply in_app_or in Hin.
  destruct Hin as [Hin | [E | []]]; [|discriminate].
  apply H, env_unit_range in Hin. lia.
Qed.

Lemma split_nl_line (a b : jsstring) :
  ~ In 10%N a -> split_nl (a ++ 10%N :: b) = a :: split_nl b.
Proof.
  induction a as [|c r IH]; intros H.
  - reflexivity.
  - cbn [app split_nl].
    assert (E : (c =? 10)%N = false).
    { apply N.eqb_neq. intros ->. apply H. now left. }
    rewrite E, IH; [reflexivity|]. intros Hin. apply H. now right.
Qed.

Lemma split_join_nl (ls : list jsstring) :
  ls <> [] -> Forall (fun l => ~ In 10%N l) ls ->
  split_nl (join_nl ls ++ [10%N]) = ls ++ [[]].
Proof.
  intros Hne Hall. revert Hne.
  induction Hall as [|x r Hx Hr IH]; intros Hne; [now destruct Hne|].
  destruct r as [|y r'].
  - cbn [join_nl app]. now rewrite split_nl_line.
  - change (join_nl (x :: y :: r')) with (x ++ 10%N :: join_nl (y :: r')).
    rewrite <- app_assoc, <- app_comm_cons, split_nl_line by exact Hx.
    rewrite IH by discriminate. reflexivity.
Qed.

Lemma fold_step_assignments (ks keys : list jsstring) :
  Forall env_name ks ->
  fold_left parseEnvKeys_step (map (fun k => k ++ lit "=") ks) keys =
  fold_left (fun s k => set_add k s) ks keys.
Proof.
  intros H; revert keys.
  induction H as [|k ks Hk _ IH]; intros keys; simpl; [reflexivity|].
  now rewrite parseEnvKeys_step_name, IH.
Qed.

Lemma exampleText_eq (usedKeys : list jsstring) :
  exampleText usedKeys =
  join_nl (map (fun k => k ++ lit "=") (sort usedKeys)) ++ [10%N].
Proof. reflexivity. Qed.

(** The parser reads back from the template exactly the keys that the
    template was generated from. *)
Lemma parseEnvKeys_exampleText (usedKeys : list jsstring) :
  Forall env_name usedKeys ->
  parseEnvKeys (exampleText usedKeys) = set_of_list (sort usedKeys).
Proof.
  intros H. rewrite exampleText_eq.
  assert (Hs : Forall env_name (sort usedKeys)).
  { rewrite Forall_forall in *. intros k Hk. apply H, sort_In, Hk. }
  unfold parseEnvKeys.
  destruct (sort usedKeys) as [|k ks] eqn:E; [reflexivity|].
  rewrite split_join_nl.
  - rewrite fold_left_app, fold_step_assignments by exact Hs. reflexivity.
  - discriminate.
  - rewrite Forall_forall in *. intros l Hl.
    apply in_map_iff in Hl. destruct Hl as (k0 & <- & Hk0).
    apply env_name_no_newline, (proj2 (Hs k0 Hk0)).
Qed.

Lemma extract_keys_names (files : list SourceFile) :
  Forall env_name (map_keys (extract files)).
Proof.
  destruct (extract_well_formed files) as [_ H].
  unfold map_keys. rewrite Forall_forall in *.
  intros k Hk. apply in_map_iff in Hk. destruct Hk as (e & <- & He).
  apply (H e He).
Qed.

Lemma filter_none {A} (f : A -> bool) (l : list A) :
  (forall x, In x l -> f x = false) -> filter f l = [].
Proof.
  induction l as [|x l IH]; intros H; simpl; [reflexivity|].
  rewrite (H x) by now left. apply IH. intros y Hy. apply H. now right.
Qed.

End RoundTrip.

(** C3.  The declarations template written by a run lists one [KEY=]
    line per used key; a second run over the same files that takes
    this template as its env list ends normally, declares exactly the
    used keys and reports an empty [missing] list. *)
Theorem template_round_trip :
  forall (displayTarget : jsstring) (files : list SourceFile) (env : EnvArg)
         (run1 : Run),
    main displayTarget files env = Some run1 ->
    example_generated run1 =
      join_nl (map (fun k => k ++ lit "=") (envVarsUsed (report run1)))
      ++ [10%N] /\
    (forall k, In k (parseEnvKeys (example_generated run1)) <->
               In k (map_keys (extract files))) /\
    exists run2,
      main displayTarget files (EnvText (example_generated run1)) = Some run2 /\
      missing (report run2) = [].
Proof.
  intros displayTarget files env run1 Hrun1.
  destruct (main_inv _ _ _ _ Hrun1) as (D1 & fs1 & _ & _ & Hrep1 & Hex1 & _).
  set (U := map_keys (extract files)) in *.
  assert (Hparse : parseEnvKeys (example_generated run1)
                   = set_of_list (sort U)).
  { rewrite Hex1. apply parseEnvKeys_exampleText, extract_keys_names. }
  split; [|split].
  - rewrite Hex1, Hrep1. reflexivity.
  - intros k. now rewrite Hparse, set_of_list_In, sort_In.
  - destruct (main_total displayTarget files
                (EnvText (example_generated run1))) as [run2 Hrun2];
      [discriminate|].
    exists run2. split; [exact Hrun2|].
    destruct (main_inv _ _ _ _ Hrun2) as (D2 & fs2 & Hp & _ & Hrep2 & _).
    simpl in Hp. inversion Hp; subst D2; clear Hp.
    rewrite Hrep2; cbn [missing]. fold U. rewrite Hparse.
    assert (E : fst (reconcile U (set_of_list (sort U))) = []).
    { unfold reconcile. destruct (set_of_list (sort U)) eqn:Es;
        [reflexivity|]. rewrite <- Es. cbn [fst].
      apply filter_none. intros k Hk.
      apply negb_false_iff, set_has_In.
      now rewrite set_of_list_In, sort_In. }
    now rewrite E.
Qed.

(** ** Escaping *)

Section Escaping.

Lemma replaceAll_app (c : N) (r a b : jsstring) :
  replaceAll c r (a ++ b) = replaceAll c r a ++ replaceAll c r b.
Proof.
  induction a as [|x a IH]; simpl; [reflexivity|].
  now rewrite IH, app_assoc.
Qed.

Lemma escapeHtml_app (a b : jsstring) :
  escapeHtml (a ++ b) = escapeHtml a ++ escapeHtml b.
Proof. unfold escapeHtml. now rewrite !replaceAll_app. Qed.

Lemma escapeHtml_unit (c : N) : escapeHtml [c] = escape_unit c.
Proof.
  unfold escape_unit.
  destruct (N.eqb_spec c 38) as [->|H1]; [reflexivity|].
  destruct (N.eqb_spec c 60) as [->|H2]; [reflexivity|].
  destruct (N.eqb_spec c 62) as [->|H3]; [reflexivity|].
  destruct (N.eqb_spec c 34) as [->|H4]; [reflexivity|].
  destruct (N.eqb_spec c 39) as [->|H5]; [reflexivity|].
  unfold escapeHtml.
  apply N.eqb_neq in H1, H2, H3, H4, H5.
  cbn [replaceAll app]. rewrite H1. cbn [replaceAll app]. rewrite H2.
  cbn [replaceAll app]. rewrite H3. cbn [replaceAll app]. rewrite H4.
  cbn [replaceAll app]. rewrite H5. reflexivity.
Qed.

Lemma escapeHtml_flat_map (s : jsstring) :
  escapeHtml s = flat_map escape_unit s.
Proof.
  induction s as [|c s IH]; [reflexivity|].
  change (c :: s) with ([c] ++ s).
  rewrite escapeHtml_app, escapeHtml_unit, IH. reflexivity.
Qed.

Lemma escape_unit_cases (c : N) :
  (In c [38; 60; 62; 34; 39]%N /\ In (escape_unit c) entities) \/
  (~ In c [38; 60; 62; 34; 39]%N /\ escape_unit c = [c]).
Proof.
  unfold escape_unit, entities.
  destruct (N.eqb_spec c 38) as [->|H1]; [left; simpl; auto|].
  destruct (N.eqb_spec c 60) as [->|H2]; [left; simpl; auto|].
  destruct (N.eqb_spec c 62) as [->|H3]; [left; simpl; auto|].
  destruct (N.eqb_spec c 34) as [->|H4]; [left; simpl; auto 6|].
  destruct (N.eqb_spec c 39) as [->|H5]; [left; simpl; auto 7|].
  right. split; [|reflexivity]. simpl. intuition congruence.
Qed.

Lemma entity_shape (e : jsstring) :
  In e entities ->
  exists t, e = 38%N :: t /\ ~ In 38%N t /\ markup_units e = [].
Proof.
  unfold entities. simpl.
  intros [<- | [<- | [<- | [<- | [<- | []]]]]];
    eexists; (split; [reflexivity|]); (split; [|reflexivity]);
    cbv; intuition discriminate.
Qed.

Lemma escapeHtml_no_markup (s : jsstring) : markup_units (escapeHtml s) = [].
Proof.
  rewrite escapeHtml_flat_map. unfold markup_units.
  induction s as [|c s IH]; [reflexivity|]. simpl.
  rewrite filter_app, IH, app_nil_r.
  destruct (escape_unit_cases c) as [[_ He] | [Hc ->]].
  - destruct (entity_shape _ He) as (t & _ & _ & Hm). exact Hm.
  - simpl. unfold is_markup_unit.
    destruct (N.eqb_spec c 60) as [->|H2]; [exfalso; apply Hc; simpl; auto|].
    destruct (N.eqb_spec c 62) as [->|H3]; [exfalso; apply Hc; simpl; auto|].
    destruct (N.eqb_spec c 34) as [->|H4]; [exfalso; apply Hc; simpl; auto 6|].
    destruct (N.eqb_spec c 39) as [->|H5]; [exfalso; apply Hc; simpl; auto 7|].
    reflexivity.
Qed.

Lemma markup_units_none (s : jsstring) (c : N) :
  markup_units s = [] -> In c s -> is_markup_unit c = false.
Proof.
  unfold markup_units. intros H Hc.
  destruct (is_markup_unit c) eqn:E; [|reflexivity].
  assert (Hin : In c (filter is_markup_unit s)) by (apply filter_In; auto).
  rewrite H in Hin. destruct Hin.
Qed.

Lemma app_split_at (c : N) (a b pre post : jsstring) :
  ~ In c a -> a ++ b = pre ++ c :: post ->
  exists pre', pre = a ++ pre' /\ b = pre' ++ c :: post.
Proof.
  revert pre; induction a as [|x a IH]; intros pre Ha E.
  - exists pre. auto.
  - destruct pre as [|y pre]; simpl in E; inversion E; subst.
    + exfalso. apply Ha. now left.
    + destruct (IH pre) as (pre' & -> & ->); [|assumption|].
      * intros H; apply Ha; now right.
      * exists pre'. auto.
Qed.

(** Every [&] of the output is the first unit of the entity written
    for one unit of the input. *)
Lemma escapeHtml_ampersand (s pre post : jsstring) :
  escapeHtml s = pre ++ 38%N :: post ->
  exists s1 c s2,
    s = s1 ++ c :: s2 /\ In c [38; 60; 62; 34; 39]%N /\
    pre = escapeHtml s1 /\ 38%N :: post = escape_unit c ++ escapeHtml s2.
Proof.
  revert pre; induction s as [|c s IH]; intros pre E.
  - destruct pre; discriminate.
  - change (c :: s) with ([c] ++ s) in E.
    rewrite escapeHtml_app, escapeHtml_unit in E.
    destruct (escape_unit_cases c) as [[Hc He] | [Hc Hu]].
    + destruct (entity_shape _ He) as (t & Et & Ht & _).
      destruct pre as [|y pre].
      * exists [], c, s. repeat split; [exact Hc | exact (eq_sym E)].
      * rewrite Et in E. simpl in E. inversion E; subst y.
        destruct (app_split_at 38 t _ pre post Ht H1) as (pre' & -> & E').
        destruct (IH pre' E') as (s1 & c' & s2 & -> & Hc' & -> & Hp).
        exists (c :: s1), c', s2. repeat split; [exact Hc' | | exact Hp].
        change (c :: s1) with ([c] ++ s1).
        now rewrite escapeHtml_app, escapeHtml_unit, Et.
    + rewrite Hu in E.
      assert (Hn : ~ In 38%N [c]).
      { simpl. intros [-> | []]. apply Hc. now left. }
      destruct (app_split_at 38 [c] _ pre post Hn E) as (pre' & -> & E').
      destruct (IH pre' E') as (s1 & c' & s2 & -> & Hc' & -> & Hp).
      exists (c :: s1), c', s2. repeat split; [exact Hc' | | exact Hp].
      change (c :: s1) with ([c] ++ s1).
      now rewrite escapeHtml_app, escapeHtml_unit, Hu.
Qed.

End Escaping.

(** ** Counting occurrences in the markup report *)

Section Counting.

Lemma starts_closed_sound (p l : jsstring) (b : bool) :
  starts_closed p l = Some b -> forall r, startsWith p (l ++ r) = b.
Proof.
  revert l; induction p as [|x p IH]; intros l H r.
  - simpl in H. inversion H. reflexivity.
  - destruct l as [|y l]; [discriminate|]. simpl in *.
    destruct (N.eqb x y); [now apply IH | now inversion H].
Qed.

Lemma counted_closed (p l : jsstring) (n : nat) :
  count_closed p l = Some n -> counted p l n.
Proof.
  revert n; induction l as [|y l IH]; intros n H r.
  - simpl in H. inversion H. reflexivity.
  - cbn [count_closed] in H.
    destruct (starts_closed p (y :: l)) as [b|] eqn:Eb; [|discriminate].
    destruct (count_closed p l) as [m|]; [|discriminate].
    inversion H; subst n; clear H.
    change ((y :: l) ++ r) with (y :: (l ++ r)). cbn [count_sub].
    change (y :: (l ++ r)) with ((y :: l) ++ r).
    rewrite (starts_closed_sound _ _ _ Eb r), (IH m eq_refl r). lia.
Qed.

Lemma counted_app (p x y : jsstring) (n m k : nat) :
  counted p x n -> counted p y m -> k = n + m -> counted p (x ++ y) k.
Proof.
  intros Hx Hy -> r. rewrite <- app_assoc, Hx, Hy. lia.
Qed.

Lemma counted_nil (p : jsstring) : counted p [] 0.
Proof. intros r. reflexivity. Qed.

(** A text without the first unit of the pattern holds no occurrence. *)
Lemma counted_without_head (c : N) (p x : jsstring) :
  ~ In c x -> counted (c :: p) x 0.
Proof.
  induction x as [|y x IH]; intros H r; [reflexivity|].
  change ((y :: x) ++ r) with (y :: (x ++ r)). cbn [count_sub startsWith].
  assert (E : N.eqb c y = false).
  { apply N.eqb_neq. intros ->. apply H. now left. }
  rewrite E. cbn [andb]. apply IH. intros Hin. apply H. now right.
Qed.

Lemma counted_escapeHtml (p s : jsstring) : counted (60%N :: p) (escapeHtml s) 0.
Proof.
  apply counted_without_head. intros Hin.
  apply (markup_units_none _ _ (escapeHtml_no_markup s)) in Hin.
  discriminate.
Qed.

Lemma digits_range (u : Decimal.uint) (c : N) :
  In c (digits u) -> (48 <= c <= 57)%N.
Proof.
  induction u; simpl; try tauto; intros [<- | H]; auto; lia.
Qed.

Lemma counted_String_of_nat (p : jsstring) (n : nat) :
  counted (60%N :: p) (String_of_nat n) 0.
Proof.
  apply counted_without_head. intros Hin.
  apply digits_range in Hin. lia.
Qed.

Lemma counted_or_else (p x y : jsstring) (n : nat) :
  counted p x n -> counted p y n -> counted p (or_else x y) n.
Proof. intros Hx Hy. destruct x; [exact Hy | exact Hx]. Qed.

Lemma counted_join_empty {A} (p : jsstring) (f : A -> jsstring) (l : list A) :
  (forall a, counted p (f a) 0) -> counted p (join_empty (map f l)) 0.
Proof.
  intros H. unfold join_empty.
  induction l as [|a l IH]; simpl; [apply counted_nil|].
  eapply counted_app; [apply H | exact IH | reflexivity].
Qed.

End Counting.

Ltac count_literal :=
  lazymatch goal with
  | |- counted ?p ?l _ =>
      let v := eval vm_compute in (count_closed p l) in
      lazymatch v with
      | Some ?n => apply (counted_closed p l n); vm_compute; reflexivity
      end
  end.

Ltac count_pieces :=
  lazymatch goal with
  | |- counted _ (_ ++ _) _ =>
      eapply counted_app; [count_pieces | count_pieces | reflexivity]
  | |- counted _ (escapeHtml _) _ => apply counted_escapeHtml
  | |- counted _ (String_of_nat _) _ => apply counted_String_of_nat
  | |- counted _ (or_else _ _) _ =>
      apply counted_or_else; count_pieces
  | |- counted _ (join_empty (map _ _)) _ =>
      apply counted_join_empty; intros ?;
      unfold missingItem, riskyItem, unusedItem; count_pieces
  | |- _ => count_literal
  end.

Section ReportCounts.

Variables (used : UsageIndex) (r : Report).

Lemma count_sub_nil (c : N) (p : jsstring) : count_sub (c :: p) [] = 0.
Proof. reflexivity. Qed.

Lemma counted_total (c : N) (p x : jsstring) (n : nat) :
  counted (c :: p) x n -> count_sub (c :: p) x = n.
Proof.
  intros H. specialize (H []). rewrite app_nil_r, count_sub_nil in H. lia.
Qed.

Lemma html_tiles_counted : counted tile_open (html used r) 5.
Proof.
  unfold html, html_tiles, tile, html_section.
  change tile_open with (60%N :: tl tile_open) at 1.
  count_pieces.
Qed.

Lemma html_headings_counted : counted (lit "<h2>") (html used r) 3.
Proof.
  unfold html, html_tiles, tile, html_section.
  change (lit "<h2>") with (60%N :: lit "h2>") at 1.
  count_pieces.
Qed.

Lemma html_lists_counted : counted (lit "<ul>") (html used r) 3.
Proof.
  unfold html, html_tiles, tile, html_section.
  change (lit "<ul>") with (60%N :: lit "ul>") at 1.
  count_pieces.
Qed.

End ReportCounts.

Lemma html_counts (used : UsageIndex) (r : Report) :
  count_sub tile_open (html used r) = 5 /\
  count_sub (lit "<h2>") (html used r) = 3 /\
  count_sub (lit "<ul>") (html used r) = 3.
Proof.
  split; [|split].
  - apply (counted_total 60 (tl tile_open)), html_tiles_counted.
  - apply (counted_total 60 (lit "h2>")), html_headings_counted.
  - apply (counted_total 60 (lit "ul>")), html_lists_counted.
Qed.

(** ** Where the tiles and the sections are *)

Section ReportLayout.

Lemma count_sub_app_ge (p a r : jsstring) :
  count_sub p r <= count_sub p (a ++ r).
Proof.
  induction a as [|c a IH]; [apply Nat.le_refl|].
  change ((c :: a) ++ r) with (c :: (a ++ r)). cbn [count_sub]. lia.
Qed.

Lemma counted_zero_tail (p : jsstring) (c : N) (x : jsstring) :
  counted p (c :: x) 0 ->
  counted p x 0 /\ forall r, startsWith p (c :: x ++ r) = false.
Proof.
  intros H.
  assert (G : forall r, count_sub p (x ++ r) = count_sub p r /\
                        startsWith p (c :: x ++ r) = false).
  { intros r. specialize (H r).
    change ((c :: x) ++ r) with (c :: (x ++ r)) in H. cbn [count_sub] in H.
    pose proof (count_sub_app_ge p x r).
    destruct (startsWith p (c :: x ++ r)); [lia|]. split; [lia | reflexivity]. }
  split; intros r; apply G.
Qed.

Lemma find_sub_eq (p s : jsstring) :
  find_sub p s =
  if startsWith p s then Some (skipn (length p) s)
  else match s with
       | [] => None
       | _ :: r => find_sub p r
       end.
Proof. destruct s; reflexivity. Qed.

(** A text that holds no occurrence, whatever follows it, is passed
    over when looking for the first one. *)
Lemma find_sub_skip (p x s : jsstring) :
  counted p x 0 -> find_sub p (x ++ s) = find_sub p s.
Proof.
  induction x as [|c x IH]; intros H; [reflexivity|].
  destruct (counted_zero_tail p c x H) as [Hx Hs].
  change ((c :: x) ++ s) with (c :: (x ++ s)).
  rewrite find_sub_eq, (Hs s). apply IH, Hx.
Qed.

Lemma startsWith_self (p rest : jsstring) : startsWith p (p ++ rest) = true.
Proof.
  induction p as [|c p IH]; [reflexivity|]. simpl.
  now rewrite N.eqb_refl, IH.
Qed.

Lemma find_sub_here (p rest : jsstring) : find_sub p (p ++ rest) = Some rest.
Proof.
  rewrite find_sub_eq, startsWith_self. f_equal.
  induction p; simpl; auto.
Qed.

Lemma tile_grouped (label : jsstring) (n : nat) :
  tile label n = tile_label label ++ String_of_nat n ++ lit "</b></div>".
Proof. unfold tile, tile_label. now rewrite <- !app_assoc. Qed.

Lemma html_section_grouped (title items : jsstring) :
  html_section title items =
  section_open title ++ or_else items none_item ++ lit "</ul>".
Proof. unfold html_section, section_open. now rewrite <- !app_assoc. Qed.

End ReportLayout.

(** The report as one chain of pieces, the tile and section openings
    kept whole. *)
Ltac lay_out_html :=
  unfold html, html_tiles; cbv zeta;
  rewrite !tile_grouped, !html_section_grouped, <- !app_assoc.

Ltac count_from_head P :=
  change P with (60%N :: tl P) at 1; count_pieces.

Ltac find_first P :=
  repeat first
    [ rewrite (find_sub_here P)
    | match goal with
      | |- context [find_sub P (?x ++ _)] =>
          rewrite (find_sub_skip P x) by count_from_head P
      end ].

Ltac tile_shown :=
  lazymatch goal with
  | |- shows_tile _ ?label _ =>
      split;
      [ apply (counted_total 60 (tl (tile_label label)));
        change (60%N :: tl (tile_label label)) with (tile_label label);
        lay_out_html; count_from_head (tile_label label)
      | eexists; lay_out_html; find_first (tile_label label); reflexivity ]
  end.

Ltac section_shown :=
  lazymatch goal with
  | |- shows_section _ ?title _ =>
      split; [|split];
      [ apply (counted_total 60 (tl (section_open title)));
        change (60%N :: tl (section_open title)) with (section_open title);
        lay_out_html; count_from_head (section_open title)
      | apply (counted_total 60 (lit "/ul>"));
        change (60%N :: lit "/ul>") with (lit "</ul>");
        count_from_head (lit "</ul>")
      | eexists; lay_out_html; find_first (section_open title); reflexivity ]
  end.

Lemma html_tiles_and_sections (used : UsageIndex) (r : Report) :
  tiles_and_sections used r (html used r).
Proof.
  unfold tiles_and_sections.
  destruct (html_counts used r) as (H5 & H2 & H3).
  split; [exact H5|].
  split; [tile_shown|]. split; [tile_shown|]. split; [tile_shown|].
  split; [tile_shown|]. split; [tile_shown|].
  split; [exact H2|]. split; [exact H3|].
  split; [section_shown|]. split; section_shown.
Qed.

(** C8, as the code has it.  The markup report holds exactly five
    metric tiles, labelled Files, Env vars, Missing, Risky and Unused,
    each label once and followed by the total of that name; and
    exactly three findings sections, each title once: "Critical:
    Missing env vars" listing the items of the missing names,
    "Warnings: Risky usage" listing the items of the risk findings and
    "Info: Unused env vars" listing the items of the unused names (the
    "None" item standing for an empty list).  This holds whatever
    texts the report carries, and so for the report written by any
    run. *)
Theorem report_tiles_and_sections :
  (forall (used : UsageIndex) (r : Report),
      tiles_and_sections used r (html used r)) /\
  (forall (displayTarget : jsstring) (files : list SourceFile) (env : EnvArg)
          (run : Run),
      main displayTarget files env = Some run ->
      tiles_and_sections (locationsByEnvVar (report run)) (report run)
                         (report_html run)).
Proof.
  split; [exact html_tiles_and_sections|].
  intros displayTarget files env run Hrun.
  destruct (main_inv _ _ _ _ Hrun) as (D & fs & _ & _ & Hrep & _ & ->).
  replace (locationsByEnvVar (report run)) with (extract files)
    by (now rewrite Hrep).
  apply html_tiles_and_sections.
Qed.

(** C8 as stated fails on the run over an empty project: its markup
    report holds five tiles, not four. *)
Lemma report_has_not_four_tiles :
  ~ (forall run, main (lit "proj") [] EnvAbsent = Some run ->
                 count_sub tile_open (report_html run) = 4).
Proof.
  intros H.
  destruct (main_total (lit "proj") [] EnvAbsent) as [run Hrun];
    [discriminate|].
  specialize (H run Hrun).
  destruct (main_inv _ _ _ _ Hrun) as (D & fs & _ & _ & _ & _ & E).
  rewrite E in H.
  destruct (html_counts (extract []) (report run)) as [H5 _].
  congruence.
Qed.

(** ** Interpolated texts cannot alter the markup *)

Section Interpolation.

Lemma markup_units_app (a b : jsstring) :
  markup_units (a ++ b) = markup_units a ++ markup_units b.
Proof. apply filter_app. Qed.

Lemma String_of_nat_no_markup (n : nat) : markup_units (String_of_nat n) = [].
Proof.
  unfold markup_units. apply filter_none. intros c Hc.
  apply digits_range in Hc. unfold is_markup_unit.
  repeat match goal with
         | |- context [(c =? ?k)%N] =>
             let E := fresh in
             assert (E : (c =? k)%N = false) by (apply N.eqb_neq; lia);
             rewrite E; clear E
         end.
  reflexivity.
Qed.

Ltac strip_markup :=
  rewrite ?markup_units_app, ?escapeHtml_no_markup, ?String_of_nat_no_markup.

Lemma missingItem_markup (used used' : UsageIndex) (k k' : jsstring) :
  markup_units (missingItem used k) = markup_units (missingItem used' k').
Proof. unfold missingItem. strip_markup. reflexivity. Qed.

Lemma riskyItem_markup (f f' : RiskFinding) :
  markup_units (riskyItem f) = markup_units (riskyItem f').
Proof. unfold riskyItem. strip_markup. reflexivity. Qed.

Lemma unusedItem_markup (k k' : jsstring) :
  markup_units (unusedItem k) = markup_units (unusedItem k').
Proof. unfold unusedItem. strip_markup. reflexivity. Qed.

(** Items are never empty, so the fallback item shows exactly when the
    list of findings is empty. *)
Lemma items_markup {A B} (f : A -> jsstring) (g : B -> jsstring)
  (la : list A) (lb : list B) (d : jsstring) :
  length la = length lb ->
  (forall a b, markup_units (f a) = markup_units (g b)) ->
  (forall a, f a <> []) -> (forall b, g b <> []) ->
  markup_units (or_else (join_empty (map f la)) d) =
  markup_units (or_else (join_empty (map g lb)) d).
Proof.
  intros Hlen Hfg Hf Hg. unfold join_empty.
  assert (E : markup_units (concat (map f la)) =
              markup_units (concat (map g lb))).
  { revert lb Hlen. induction la as [|a la IH]; intros [|b lb] Hlen;
      try discriminate; [reflexivity|].
    simpl. rewrite !markup_units_app, (Hfg a b), (IH lb); [reflexivity|].
    simpl in Hlen. congruence. }
  destruct la as [|a la], lb as [|b lb]; try discriminate; [reflexivity|].
  simpl in *.
  destruct (f a ++ concat (map f la)) eqn:Ea.
  { apply app_eq_nil in Ea. destruct (Hf a (proj1 Ea)). }
  destruct (g b ++ concat (map g lb)) eqn:Eb.
  { apply app_eq_nil in Eb. destruct (Hg b (proj1 Eb)). }
  exact E.
Qed.

Lemma html_markup_blank (used : UsageIndex) (r : Report) :
  markup_units (html used r) = markup_units (html [] (blank_report r)).
Proof.
  unfold html, html_tiles, tile, html_section, blank_report.
  cbn [missing unused risky scannedInput totals filesScanned envVarsFound
       missingCount unusedCount riskyCount].
  strip_markup.
  rewrite (items_markup (missingItem used) (missingItem [])
             (missing r) (map (fun _ => []) (missing r)));
    [|now rewrite length_map | intros; apply missingItem_markup
     | discriminate | discriminate].
  rewrite (items_markup riskyItem riskyItem
             (risky r) (map (fun _ => mkRisk [] [] [] 0 []) (risky r)));
    [|now rewrite length_map | intros; apply riskyItem_markup
     | discriminate | discriminate].
  rewrite (items_markup unusedItem unusedItem
             (unused r) (map (fun _ => []) (unused r)));
    [|now rewrite length_map | intros; apply unusedItem_markup
     | discriminate | discriminate].
  reflexivity.
Qed.

Lemma ampersands_app (a b : jsstring) :
  ampersands_escaped a -> ampersands_escaped b -> ampersands_escaped (a ++ b).
Proof.
  intros Ha Hb pre post E.
  destruct (app_eq_app _ _ _ _ E) as [l [[E1 E2] | [E1 E2]]].
  - destruct l as [|c l].
    + simpl in E2. apply (Hb [] post). now rewrite <- E2.
    + simpl in E2. inversion E2; subst c post.
      destruct (Ha pre l E1) as (e & rest & He & Er).
      exists e, (rest ++ b). split; [exact He|].
      now rewrite app_comm_cons, Er, app_assoc.
  - apply (Hb l post E2).
Qed.

Lemma ampersands_none (s : jsstring) :
  existsb (N.eqb 38) s = false -> ampersands_escaped s.
Proof.
  intros H pre post E. exfalso.
  assert (Hin : existsb (N.eqb 38) s = true).
  { apply existsb_exists. exists 38%N. split; [|reflexivity].
    rewrite E. apply in_or_app. right. now left. }
  congruence.
Qed.

Lemma ampersands_escapeHtml (s : jsstring) : ampersands_escaped (escapeHtml s).
Proof.
  intros pre post E.
  destruct (escapeHtml_ampersand _ _ _ E) as (s1 & c & s2 & _ & Hc & _ & Ep).
  destruct (escape_unit_cases c) as [[_ He] | [Hn _]]; [|contradiction].
  exists (escape_unit c), (escapeHtml s2). auto.
Qed.

Lemma ampersands_String_of_nat (n : nat) : ampersands_escaped (String_of_nat n).
Proof.
  apply ampersands_none.
  destruct (existsb (N.eqb 38) (String_of_nat n)) eqn:E; [|reflexivity].
  apply existsb_exists in E. destruct E as (c & Hc & Ec).
  apply digits_range in Hc. apply N.eqb_eq in Ec. lia.
Qed.

Lemma ampersands_or_else (x y : jsstring) :
  ampersands_escaped x -> ampersands_escaped y ->
  ampersands_escaped (or_else x y).
Proof. intros Hx Hy. destruct x; [exact Hy | exact Hx]. Qed.

Lemma ampersands_join_empty {A} (f : A -> jsstring) (l : list A) :
  (forall a, ampersands_escaped (f a)) ->
  ampersands_escaped (join_empty (map f l)).
Proof.
  intros H. unfold join_empty.
  induction l as [|a l IH]; simpl.
  - apply ampersands_none. reflexivity.
  - apply ampersands_app; [apply H | exact IH].
Qed.

Ltac amp_pieces :=
  lazymatch goal with
  | |- ampersands_escaped (_ ++ _) => apply ampersands_app; amp_pieces
  | |- ampersands_escaped (escapeHtml _) => apply ampersands_escapeHtml
  | |- ampersands_escaped (String_of_nat _) => apply ampersands_String_of_nat
  | |- ampersands_escaped (or_else _ _) => apply ampersands_or_else; amp_pieces
  | |- ampersands_escaped (join_empty (map _ _)) =>
      apply ampersands_join_empty; intros ?;
      unfold missingItem, riskyItem, unusedItem; amp_pieces
  | |- _ => apply ampersands_none; vm_compute; reflexivity
  end.

Lemma html_ampersands (used : UsageIndex) (r : Report) :
  ampersands_escaped (html used r).
Proof.
  unfold html, html_tiles, tile, html_section. amp_pieces.
Qed.

End Interpolation.

(** C9.  [escapeHtml] replaces each [&], [<], [>], double quote and
    single quote by its entity and keeps every other unit: its output
    holds none of [<], [>], the two quotes, and every [&] of it is the
    first unit of the entity written for one unit of the input.  In
    the markup report every interpolated text goes through it: the
    markup units of the report are those of the same report with every
    text erased, and every [&] of the report starts an entity. *)
Theorem escaping_of_markup :
  (forall s, escapeHtml s = flat_map escape_unit s) /\
  (forall s c, In c (escapeHtml s) ->
               c <> 60%N /\ c <> 62%N /\ c <> 34%N /\ c <> 39%N) /\
  (forall s pre post,
      escapeHtml s = pre ++ 38%N :: post ->
      exists s1 c s2,
        s = s1 ++ c :: s2 /\ In c [38; 60; 62; 34; 39]%N /\
        pre = escapeHtml s1 /\ 38%N :: post = escape_unit c ++ escapeHtml s2) /\
  (forall used r,
      markup_units (html used r) = markup_units (html [] (blank_report r)) /\
      ampersands_escaped (html used r)).
Proof.
  split; [exact escapeHtml_flat_map|]. split; [|split].
  - intros s c Hc.
    apply (markup_units_none _ _ (escapeHtml_no_markup s)) in Hc.
    unfold is_markup_unit in Hc.
    repeat (apply orb_false_iff in Hc; destruct Hc as [Hc ?]).
    repeat match goal with
           | H : (_ =? _)%N = false |- _ => apply N.eqb_neq in H
           end.
    auto.
  - exact escapeHtml_ampersand.
  - intros used r. split; [apply html_markup_blank | apply html_ampersands].
Qed.

(** ** The properties on the sample project *)

Lemma missing_never_risky_witness :
  exists run,
    main (lit "proj") Sample.files Sample.env = Some run /\
    In (lit "STRIPE_SECRET_KEY") (missing (report run)) /\
    (forall f, In f (risky (report run)) -> key f <> lit "STRIPE_SECRET_KEY").
Proof.
  eexists. split; [vm_compute; reflexivity|].
  split; [vm_compute; auto|].
  refine (proj1 (missing_never_risky (lit "proj") Sample.files Sample.env
                   _ (lit "STRIPE_SECRET_KEY") _ _)).
  - vm_compute; reflexivity.
  - vm_compute; auto.
Defined.

Lemma reconcile_set_difference_witness :
  exists D run,
    provided Sample.env = Some D /\
    main (lit "proj") Sample.files Sample.env = Some run /\
    D <> [] /\
    (forall k, In k (missing (report run)) <->
               In k (map_keys (extract Sample.files)) /\ ~ In k D) /\
    (forall k, In k (unused (report run)) <->
               In k D /\ ~ In k (map_keys (extract Sample.files))).
Proof.
  eexists. eexists.
  split; [vm_compute; reflexivity|].
  split; [vm_compute; reflexivity|].
  assert (HD : [lit "NEXT_PUBLIC_API_BASE"; lit "DB_URL"] <> [])
    by discriminate.
  split; [exact HD|].
  pose proof (reconcile_set_difference (lit "proj") Sample.files Sample.env
                _ _ ltac:(vm_compute; reflexivity)
                ltac:(vm_compute; reflexivity)) as H.
  apply proj1 in H. specialize (H HD).
  split; [exact (proj1 H) | exact (proj1 (proj2 H))].
Defined.

Lemma template_round_trip_witness :
  exists run1,
    main (lit "proj") Sample.files Sample.env = Some run1 /\
    exists run2,
      main (lit "proj") Sample.files (EnvText (example_generated run1))
        = Some run2 /\
      missing (report run2) = [].
Proof.
  eexists. split; [vm_compute; reflexivity|].
  refine (proj2 (proj2 (template_round_trip (lit "proj") Sample.files
                          Sample.env _ _))).
  vm_compute; reflexivity.
Defined.

Lemma client_page_scenario_witness :
  isClientText Sample.page_text = true /\
  matchAll reDot Sample.page_text = [(lit "STRIPE_SECRET_KEY", 56)] /\
  matchAll reBracket Sample.page_text = [] /\
  exists run,
    main (lit "proj") [(lit "app/dashboard/page.tsx", Some Sample.page_text)]
         EnvAbsent = Some run /\
    locationsByEnvVar (report run) =
      [(lit "STRIPE_SECRET_KEY",
        [mkOcc (lit "app/dashboard/page.tsx")
               (getLineNumber Sample.page_text 56) true false])] /\
    missing (report run) = [] /\
    unused (report run) = [] /\
    risky (report run) =
      [mkRisk type_exposed (lit "STRIPE_SECRET_KEY")
              (lit "app/dashboard/page.tsx")
              (getLineNumber Sample.page_text 56) why_exposed;
       mkRisk type_client (lit "STRIPE_SECRET_KEY")
              (lit "app/dashboard/page.tsx")
              (getLineNumber Sample.page_text 56) why_client].
Proof.
  split; [vm_compute; reflexivity|].
  split; [vm_compute; reflexivity|].
  split; [vm_compute; reflexivity|].
  apply (client_page_scenario (lit "proj") Sample.page_text 56);
    vm_compute; reflexivity.
Defined.

Lemma public_name_only_in_server_routes_witness :
  (exists run,
      main (lit "proj") Sample.files Sample.env = Some run /\
      In (lit "NEXT_PUBLIC_API_BASE")
         (map_keys (locationsByEnvVar (report run))) /\
      ~ In (lit "NEXT_PUBLIC_API_BASE") (missing (report run)) /\
      exists f, In f (risky (report run)) /\
                type f = type_server_only /\
                key f = lit "NEXT_PUBLIC_API_BASE") /\
  (matchAll reDot Sample.route_text = [] /\
   matchAll reBracket Sample.route_text = [(lit "NEXT_PUBLIC_API_BASE", 45)] /\
   exists run,
     main (lit "proj")
          [(lit "src/app/api/users/route.ts", Some Sample.route_text)]
          EnvAbsent = Some run /\
     risky (report run) =
       [mkRisk type_server_only (lit "NEXT_PUBLIC_API_BASE")
               (lit "src/app/api/users/route.ts")
               (getLineNumber Sample.route_text 45) why_server_only]).
Proof.
  split.
  - eexists. split; [vm_compute; reflexivity|].
    assert (Hk : In (lit "NEXT_PUBLIC_API_BASE")
                    (map_keys (extract Sample.files)))
      by (vm_compute; auto).
    split; [exact Hk|].
    assert (Hm : ~ In (lit "NEXT_PUBLIC_API_BASE")
                      [lit "STRIPE_SECRET_KEY"])
      by (vm_compute; intros [H | []]; discriminate).
    split; [exact Hm|].
    apply (proj1 (proj1 public_name_only_in_server_routes
                    (lit "proj") Sample.files Sample.env _
                    (lit "NEXT_PUBLIC_API_BASE")
                    ltac:(vm_compute; reflexivity) Hk Hm)).
    vm_compute. split; reflexivity.
  - split; [vm_compute; reflexivity|].
    split; [vm_compute; reflexivity|].
    apply (proj2 public_name_only_in_server_routes
             (lit "proj") Sample.route_text 45);
      vm_compute; reflexivity.
Defined.

Lemma report_tiles_and_sections_witness :
  exists run,
    main (lit "proj") Sample.files Sample.env = Some run /\
    tiles_and_sections (locationsByEnvVar (report run)) (report run)
                       (report_html run).
Proof.
  eexists. split; [vm_compute; reflexivity|].
  apply (proj2 report_tiles_and_sections (lit "proj") Sample.files Sample.env).
  vm_compute; reflexivity.
Defined.

Lemma escaping_of_markup_witness :
  (In 98%N (escapeHtml (lit "<b>")) /\ 98%N <> 60%N) /\
  (escapeHtml (lit "a<") = lit "a" ++ 38%N :: lit "lt;" /\
   exists s1 c s2,
     lit "a<" = s1 ++ c :: s2 /\ In c [38; 60; 62; 34; 39]%N /\
     lit "a" = escapeHtml s1 /\
     38%N :: lit "lt;" = escape_unit c ++ escapeHtml s2).
Proof.
  split.
  - assert (H : In 98%N (escapeHtml (lit "<b>"))) by (vm_compute; auto 6).
    split; [exact H|].
    exact (proj1 (proj1 (proj2 escaping_of_markup) (lit "<b>") 98%N H)).
  - assert (E : escapeHtml (lit "a<") = lit "a" ++ 38%N :: lit "lt;")
      by (vm_compute; reflexivity).
    split; [exact E|].
    exact (proj1 (proj2 (proj2 escaping_of_markup))
             (lit "a<") (lit "a") (lit "lt;") E).
Defined.

Lemma unreadable_file_counted_witness :
  exists run,
    main (lit "proj") (Sample.files ++ Sample.unreadable :: []) Sample.env
      = Some run /\
    filesScanned (totals (report run)) = 3 /\
    exists run',
      main (lit "proj") (Sample.files ++ []) Sample.env = Some run' /\
      locationsByEnvVar (report run) = locationsByEnvVar (report run') /\
      filesScanned (totals (report run)) =
        S (filesScanned (totals (report run'))).
Proof.
  eexists. split; [vm_compute; reflexivity|].
  destruct (unreadable_file_counted (lit "proj") Sample.files []
              (lit "lib/broken.ts") Sample.env _
              ltac:(vm_compute; reflexivity))
    as (H1 & run' & H2 & H3 & _ & _ & _ & _ & H4).
  split; [exact H1|].
  exists run'. split; [exact H2|]. split; [exact H3 | exact H4].
Defined.

(* ================================================================== *)
(** * Further properties of the scanner *)

(** ** What the two patterns find *)

Section MatchAllExact.

Variable re : matcher.

(** No match starts strictly inside another one. *)
Hypothesis re_apart : forall s k len d,
  re s = Some (k, len) -> 0 < d < len -> re (skipn d s) = None.

Lemma matchAll_from_exact (text : jsstring) : forall skip idx k i,
  In (k, i) (matchAll_from re skip idx text) <->
  exists j len, i = idx + j /\ skip <= j < length text /\
                re (skipn j text) = Some (k, len).
Proof.
  induction text as [|c rest IH]; intros skip idx k i.
  - simpl. split; [tauto | intros (j & len & _ & H & _); lia].
  - cbn [matchAll_from]. destruct skip as [|s].
    + destruct (re (c :: rest)) as [[key len0]|] eqn:E.
      * cbn [In]. rewrite IH. split.
        -- intros [H | (j & len & -> & Hj & Hre)].
           ++ inversion H; subst. exists 0, len0.
              rewrite Nat.add_0_r. simpl. repeat split; try lia. exact E.
           ++ exists (S j), len. simpl. repeat split; try lia. exact Hre.
        -- intros (j & len & -> & Hj & Hre). destruct j as [|j].
           ++ left. simpl in Hre. rewrite E in Hre. inversion Hre.
              now rewrite Nat.add_0_r.
           ++ right. exists j, len. simpl in Hre, Hj.
              repeat split; try lia; [|exact Hre].
              destruct (Nat.lt_ge_cases (S j) len0) as [Hlt | Hge]; [|lia].
              pose proof (re_apart (c :: rest) key len0 (S j) E
                            ltac:(lia)) as Hn.
              simpl in Hn. congruence.
      * rewrite IH. split.
        -- intros (j & len & -> & Hj & Hre).
           exists (S j), len. simpl. repeat split; try lia. exact Hre.
        -- intros (j & len & -> & Hj & Hre). destruct j as [|j].
           ++ simpl in Hre. congruence.
           ++ exists j, len. simpl in Hre, Hj.
              repeat split; try lia. exact Hre.
    + rewrite IH. split.
      * intros (j & len & -> & Hj & Hre).
        exists (S j), len. simpl. repeat split; try lia. exact Hre.
      * intros (j & len & -> & Hj & Hre). destruct j as [|j]; [lia|].
        exists j, len. simpl in Hre, Hj. repeat split; try lia. exact Hre.
Qed.

Lemma matchAll_exact (text k : jsstring) (i : nat) :
  In (k, i) (matchAll re text) <->
  i < length text /\ exists len, re (skipn i text) = Some (k, len).
Proof.
  unfold matchAll. rewrite matchAll_from_exact. split.
  - intros (j & len & -> & Hj & Hre). simpl. split; [lia | now exists len].
  - intros (Hi & len & Hre). exists i, len. simpl. repeat split; try lia.
    exact Hre.
Qed.

End MatchAllExact.

Section PatternTexts.

Lemma strip_prefix_app (p s r : jsstring) :
  strip_prefix p s = Some r <-> s = p ++ r.
Proof.
  revert s; induction p as [|x p IH]; intros s; simpl.
  - split; [intros H; now inversion H | now intros ->].
  - destruct s as [|y s]; [split; discriminate|].
    destruct (N.eqb_spec x y) as [->|Hn].
    + rewrite IH. split; [now intros -> | intros H; now inversion H].
    + split; [discriminate | intros H; inversion H; congruence].
Qed.

Lemma take_env_split (s : jsstring) :
  exists rest, s = take_env s ++ rest /\ name_ends rest.
Proof.
  induction s as [|c s (rest & E & Hr)]; simpl.
  - exists []. split; [reflexivity | exact I].
  - destruct (is_env_unit c) eqn:Ec.
    + exists rest. split; [simpl; now rewrite <- E | exact Hr].
    + exists (c :: s). split; [reflexivity | exact Ec].
Qed.

Lemma take_env_app (k rest : jsstring) :
  forallb is_env_unit k = true -> name_ends rest -> take_env (k ++ rest) = k.
Proof.
  intros Hk Hr. induction k as [|c k IH]; simpl in *.
  - destruct rest as [|c r]; [reflexivity|]. simpl in *. now rewrite Hr.
  - apply andb_true_iff in Hk. destruct Hk as [Hc Hk].
    now rewrite Hc, IH.
Qed.

Lemma skipn_length_app (k rest : jsstring) : skipn (length k) (k ++ rest) = rest.
Proof. induction k; simpl; auto. Qed.

Lemma quote_ends_name (q : N) (rest : jsstring) :
  is_quote q = true -> name_ends (q :: rest).
Proof.
  unfold is_quote, name_ends, is_env_unit.
  rewrite orb_true_iff, !N.eqb_eq. intros [-> | ->]; reflexivity.
Qed.

(** Pattern A at the head of a text. *)
Lemma reDot_text (s k : jsstring) (len : nat) :
  reDot s = Some (k, len) <->
  exists rest, s = lit "process.env." ++ k ++ rest /\
               env_name k /\ name_ends rest /\ len = 12 + length k.
Proof.
  unfold reDot. split.
  - destruct (strip_prefix _ s) as [r|] eqn:Es; [|discriminate].
    apply strip_prefix_app in Es.
    destruct (take_env_split r) as (rest & Er & Hrest).
    destruct (take_env r) as [|c t] eqn:Et; [discriminate|].
    intros H; inversion H; subst k len. exists rest.
    split; [now rewrite Es, Er at 1|].
    split; [rewrite <- Et; apply take_env_name; now rewrite Et|].
    split; [exact Hrest | reflexivity].
  - intros (rest & -> & [Hne Hu] & Hrest & ->).
    rewrite (proj2 (strip_prefix_app _ _ (k ++ rest)) eq_refl).
    rewrite (take_env_app _ _ Hu Hrest).
    destruct k; [congruence | reflexivity].
Qed.

(** Pattern B at the head of a text. *)
Lemma reBracket_text (s k : jsstring) (len : nat) :
  reBracket s = Some (k, len) <->
  exists q1 q2 rest,
    s = lit "process.env[" ++ q1 :: k ++ q2 :: 93%N :: rest /\
    is_quote q1 = true /\ is_quote q2 = true /\ env_name k /\
    len = 12 + 1 + length k + 2.
Proof.
  unfold reBracket. split.
  - destruct (strip_prefix _ s) as [[|q1 r]|] eqn:Es; try discriminate.
    apply strip_prefix_app in Es.
    destruct (is_quote q1) eqn:Eq1; [|discriminate].
    destruct (take_env_split r) as (rest & Er & Hrest).
    destruct (take_env r) as [|c t] eqn:Et; [discriminate|].
    rewrite Er at 1. rewrite skipn_length_app.
    destruct rest as [|q2 [|b rest']]; try discriminate.
    destruct (is_quote q2) eqn:Eq2; [|discriminate].
    destruct (N.eqb_spec b 93) as [->|]; [|discriminate].
    cbn [andb]. intros H; inversion H; subst k len.
    exists q1, q2, rest'. split; [now rewrite Es, Er at 1|].
    repeat split; try assumption; try discriminate.
    rewrite <- Et. apply take_env_units.
  - intros (q1 & q2 & rest & -> & Hq1 & Hq2 & [Hne Hu] & ->).
    rewrite (proj2 (strip_prefix_app _ _ (q1 :: k ++ q2 :: 93%N :: rest))
               eq_refl).
    rewrite Hq1.
    rewrite (take_env_app _ _ Hu (quote_ends_name q2 _ Hq2)).
    destruct k as [|c k']; [congruence|].
    rewrite skipn_length_app, Hq2. reflexivity.
Qed.

Lemma skipn_inside (body rest : jsstring) (d : nat) :
  ~ In 112%N body -> d < length body ->
  exists c t, skipn d (body ++ rest) = c :: t /\ c <> 112%N.
Proof.
  revert d; induction body as [|x body IH]; intros d Hb Hd; simpl in Hd.
  - lia.
  - destruct d as [|d].
    + exists x, (body ++ rest). split; [reflexivity|].
      intros ->. apply Hb. now left.
    + simpl. apply IH; [|lia]. intros H; apply Hb; now right.
Qed.

Lemma name_has_no_p (k : jsstring) :
  forallb is_env_unit k = true -> ~ In 112%N k.
Proof.
  rewrite forallb_forall. intros H Hin. apply H in Hin. discriminate.
Qed.

Lemma reDot_head (c : N) (t : jsstring) :
  c <> 112%N -> reDot (c :: t) = None.
Proof.
  intros Hc. unfold reDot.
  change (lit "process.env.") with (112%N :: lit "rocess.env.").
  cbn [strip_prefix].
  destruct (N.eqb_spec 112 c) as [E|]; [congruence | reflexivity].
Qed.

Lemma reBracket_head (c : N) (t : jsstring) :
  c <> 112%N -> reBracket (c :: t) = None.
Proof.
  intros Hc. unfold reBracket.
  change (lit "process.env[") with (112%N :: lit "rocess.env[").
  cbn [strip_prefix].
  destruct (N.eqb_spec 112 c) as [E|]; [congruence | reflexivity].
Qed.

Lemma reDot_apart (s k : jsstring) (len d : nat) :
  reDot s = Some (k, len) -> 0 < d < len -> reDot (skipn d s) = None.
Proof.
  intros H Hd. apply reDot_text in H.
  destruct H as (rest & -> & [_ Hu] & _ & ->).
  destruct d as [|d]; [lia|].
  change (lit "process.env." ++ k ++ rest)
    with (112%N :: lit "rocess.env." ++ k ++ rest).
  cbn [skipn]. rewrite app_assoc.
  destruct (skipn_inside (lit "rocess.env." ++ k) rest d) as (c & t & -> & Hc).
  - intros Hin. apply in_app_or in Hin. destruct Hin as [Hin | Hin].
    + vm_compute in Hin. intuition discriminate.
    + exact (name_has_no_p k Hu Hin).
  - rewrite length_app. change (length (lit "rocess.env.")) with 11. lia.
  - apply reDot_head, Hc.
Qed.

Lemma reBracket_apart (s k : jsstring) (len d : nat) :
  reBracket s = Some (k, len) -> 0 < d < len -> reBracket (skipn d s) = None.
Proof.
  intros H Hd. apply reBracket_text in H.
  destruct H as (q1 & q2 & rest & -> & Hq1 & Hq2 & [_ Hu] & ->).
  destruct d as [|d]; [lia|].
  change (lit "process.env[" ++ q1 :: k ++ q2 :: 93%N :: rest)
    with (112%N :: (lit "rocess.env[" ++ [q1]) ++ k ++ [q2; 93%N] ++ rest).
  cbn [skipn]. rewrite !app_assoc.
  destruct (skipn_inside (((lit "rocess.env[" ++ [q1]) ++ k) ++ [q2; 93%N])
              rest d) as (c & t & -> & Hc).
  - intros Hin. apply in_app_or in Hin. destruct Hin as [Hin | Hin].
    + apply in_app_or in Hin. destruct Hin as [Hin | Hin];
        [|exact (name_has_no_p k Hu Hin)].
      apply in_app_or in Hin. destruct Hin as [Hin | [E | []]].
      * vm_compute in Hin. intuition discriminate.
      * subst q1. discriminate.
    + destruct Hin as [E | [E | []]]; [subst q2|]; discriminate.
  - rewrite !length_app. change (length (lit "rocess.env[")) with 11.
    simpl. lia.
  - apply reBracket_head, Hc.
Qed.

Lemma at_index (text pre tail : jsstring) (i : nat) :
  text = pre ++ tail -> length pre = i -> skipn i text = tail.
Proof. intros -> <-. apply skipn_length_app. Qed.

End PatternTexts.

(** X1.  Pattern A records exactly the places of the text where
    [process.env.] is followed by a non-empty run of [A-Z0-9_] taken
    to its end: every such place is found, with the whole run as the
    name, and nothing else is. *)
Theorem dot_references_found :
  forall (text k : jsstring) (i : nat),
    In (k, i) (matchAll reDot text) <->
    exists pre rest,
      text = pre ++ lit "process.env." ++ k ++ rest /\
      length pre = i /\ env_name k /\ name_ends rest.
Proof.
  intros text k i. rewrite (matchAll_exact reDot reDot_apart). split.
  - intros (Hi & len & H). apply reDot_text in H.
    destruct H as (rest & E & Hk & Hr & _).
    exists (firstn i text), rest. rewrite <- E, firstn_skipn.
    split; [reflexivity|]. split; [apply firstn_length_le; lia|].
    split; assumption.
  - intros (pre & rest & E & Hi & Hk & Hr). split.
    + rewrite E, length_app, Hi. simpl. lia.
    + exists (12 + length k).
      rewrite (at_index text pre _ i E Hi). apply reDot_text.
      exists rest. auto.
Qed.

(** X2.  Pattern B records exactly the places of the text where
    [process.env[] is followed by a quote, a non-empty run of
    [A-Z0-9_], a quote (either kind, not necessarily the same) and
    []]. *)
Theorem bracket_references_found :
  forall (text k : jsstring) (i : nat),
    In (k, i) (matchAll reBracket text) <->
    exists pre q1 q2 rest,
      text = pre ++ lit "process.env[" ++ q1 :: k ++ q2 :: 93%N :: rest /\
      length pre = i /\ is_quote q1 = true /\ is_quote q2 = true /\
      env_name k.
Proof.
  intros text k i. rewrite (matchAll_exact reBracket reBracket_apart). split.
  - intros (Hi & len & H). apply reBracket_text in H.
    destruct H as (q1 & q2 & rest & E & Hq1 & Hq2 & Hk & _).
    exists (firstn i text), q1, q2, rest. rewrite <- E, firstn_skipn.
    split; [reflexivity|]. split; [apply firstn_length_le; lia|].
    repeat (split; [assumption|]). assumption.
  - intros (pre & q1 & q2 & rest & E & Hi & Hq1 & Hq2 & Hk). split.
    + rewrite E, length_app, Hi. simpl. lia.
    + exists (12 + 1 + length k + 2).
      rewrite (at_index text pre _ i E Hi). apply reBracket_text.
      exists q1, q2, rest. auto.
Qed.

(** ** The usage index of a whole listing *)

Section WholeIndex.

Lemma scan_file_locations (k : jsstring) (used : UsageIndex) (f : SourceFile) :
  locations k (scan_file used f) = locations k used ++ file_occurrences k f.
Proof.
  destruct f as [relFile [text|]]; simpl.
  - rewrite !record_matches_locations. now rewrite <- app_assoc.
  - now rewrite app_nil_r.
Qed.

Lemma fold_scan_locations (k : jsstring) (files : list SourceFile) :
  forall used,
    locations k (fold_left scan_file files used) =
    locations k used ++ flat_map (file_occurrences k) files.
Proof.
  induction files as [|f files IH]; intros used; simpl.
  - now rewrite app_nil_r.
  - rewrite IH, scan_file_locations. now rewrite <- app_assoc.
Qed.

Lemma occurrences_of_In (k relFile text : jsstring) (re : matcher)
  (o : Occurrence) :
  In o (occurrences_of k relFile text re) <->
  exists idx, In (k, idx) (matchAll re text) /\
              o = mkOcc relFile (getLineNumber text idx)
                        (isClientText text) (isServerPath relFile).
Proof.
  unfold occurrences_of. rewrite in_map_iff. split.
  - intros ([k0 idx] & <- & Hin). apply filter_In in Hin.
    destruct Hin as [Hin E]. apply str_eqb_eq in E. simpl in E. subst k0.
    exists idx. auto.
  - intros (idx & Hin & ->). exists (k, idx). split; [reflexivity|].
    apply filter_In. split; [exact Hin | apply str_eqb_refl].
Qed.

Lemma locations_extract_In (files : list SourceFile) (k : jsstring)
  (o : Occurrence) :
  In o (locations k (extract files)) <->
  exists relFile text idx,
    In (relFile, Some text) files /\
    (In (k, idx) (matchAll reDot text) \/
     In (k, idx) (matchAll reBracket text)) /\
    o = mkOcc relFile (getLineNumber text idx)
              (isClientText text) (isServerPath relFile).
Proof.
  unfold extract. rewrite fold_scan_locations. simpl.
  rewrite in_flat_map. split.
  - intros ([relFile [text|]] & Hf & Ho); simpl in Ho; [|contradiction].
    apply in_app_or in Ho.
    destruct Ho as [Ho | Ho]; apply occurrences_of_In in Ho;
      destruct Ho as (idx & Hm & ->); exists relFile, text, idx; auto.
  - intros (relFile & text & idx & Hf & Hm & ->).
    exists (relFile, Some text). split; [exact Hf|]. simpl.
    apply in_or_app.
    destruct Hm as [Hm | Hm]; [left | right]; apply occurrences_of_In;
      exists idx; auto.
Qed.

Lemma map_get_key (used : UsageIndex) (k : jsstring) (l : list Occurrence) :
  map_get k used = Some l -> In k (map_keys used).
Proof.
  induction used as [|[k0 l0] r IH]; simpl; [discriminate|].
  destruct (str_eqb k0 k) eqn:E.
  - apply str_eqb_eq in E. auto.
  - intros H. right. apply IH, H.
Qed.

Lemma key_iff_located (files : list SourceFile) (k : jsstring) :
  In k (map_keys (extract files)) <-> locations k (extract files) <> [].
Proof.
  split.
  - intros Hk. apply lookup_In in Hk.
    destruct (extract_well_formed files) as [_ Hall].
    rewrite Forall_forall in Hall. apply (Hall _ Hk).
  - unfold locations.
    destruct (map_get k (extract files)) as [l|] eqn:E; [|congruence].
    intros _. eapply map_get_key, E.
Qed.

Lemma getLineNumber_upper (text : jsstring) (i : nat) :
  getLineNumber text i <= length (split_nl text).
Proof.
  unfold getLineNumber, slice0. rewrite !split_nl_length. apply le_n_S.
  rewrite <- (firstn_skipn i text) at 2. rewrite filter_app, length_app. lia.
Qed.

End WholeIndex.

(** X3.  The occurrences recorded for a name over a whole listing are
    those of the listed files, file after file in listing order, each
    file giving its dot-access matches then its bracket-access
    matches; a file that cannot be read gives none. *)
Theorem index_in_listing_order :
  forall (files : list SourceFile) (k : jsstring),
    locations k (extract files) = flat_map (file_occurrences k) files.
Proof.
  intros files k. unfold extract. now rewrite fold_scan_locations.
Qed.

(** X4.  A name is a key of the usage index exactly when some listed
    file that can be read holds a match of one of the two patterns
    with that name. *)
Theorem key_iff_referenced :
  forall (files : list SourceFile) (k : jsstring),
    In k (map_keys (extract files)) <->
    exists relFile text idx,
      In (relFile, Some text) files /\
      (In (k, idx) (matchAll reDot text) \/
       In (k, idx) (matchAll reBracket text)).
Proof.
  intros files k. rewrite key_iff_located. split.
  - intros H. destruct (locations k (extract files)) as [|o l] eqn:E;
      [congruence|].
    assert (Ho : In o (locations k (extract files))) by (rewrite E; now left).
    apply locations_extract_In in Ho.
    destruct Ho as (relFile & text & idx & Hf & Hm & _).
    exists relFile, text, idx. auto.
  - intros (relFile & text & idx & Hf & Hm) E.
    assert (Ho : In (mkOcc relFile (getLineNumber text idx)
                           (isClientText text) (isServerPath relFile))
                    (locations k (extract files))).
    { apply locations_extract_In. exists relFile, text, idx. auto. }
    rewrite E in Ho. destruct Ho.
Qed.

(** X5.  Every occurrence of the usage index comes from a match in a
    listed file that was read: it names that file, carries the two
    flags computed for that file, and its line lies between 1 and the
    number of lines of the file's text. *)
Theorem occurrence_provenance :
  forall (files : list SourceFile) (k : jsstring) (l : list Occurrence)
         (o : Occurrence),
    In (k, l) (extract files) -> In o l ->
    exists text,
      In (file o, Some text) files /\
      isClient o = isClientText text /\
      isServerFile o = isServerPath (file o) /\
      1 <= line o <= length (split_nl text).
Proof.
  intros files k l o Hentry Ho.
  rewrite <- (well_formed_lookup (extract files) k l
                (proj1 (extract_well_formed files)) Hentry) in Ho.
  apply locations_extract_In in Ho.
  destruct Ho as (relFile & text & idx & Hf & _ & ->). simpl.
  exists text. repeat split; try assumption.
  - apply getLineNumber_pos.
  - apply getLineNumber_upper.
Qed.

(** X6.  The usage index built from any listing has distinct keys,
    each a non-empty run of [A-Z0-9_], and every key has at least one
    occurrence, which is what a lookup of the key returns. *)
Theorem usage_index_invariant :
  forall (files : list SourceFile),
    NoDup (map_keys (extract files)) /\
    (forall k l, In (k, l) (extract files) ->
                 env_name k /\ l <> [] /\
                 map_get k (extract files) = Some l).
Proof.
  intros files. destruct (extract_well_formed files) as [Hnd Hall].
  split; [exact Hnd|]. intros k l Hin.
  rewrite Forall_forall in Hall. destruct (Hall _ Hin) as [Hk Hl].
  split; [exact Hk|]. split; [exact Hl|].
  pose proof (well_formed_lookup _ _ _ Hnd Hin) as E.
  unfold locations in E. simpl in Hl.
  destruct (map_get k (extract files)); [congruence|].
  subst l. congruence.
Qed.

(** X7.  Line numbers are 1-based and follow the text: index 0 is on
    line 1, a later index is never on an earlier line, passing one
    unit moves to the next line exactly when that unit is a newline,
    and no index is beyond the last line, which every index at or
    past the end of the text is on. *)
Theorem line_numbers_follow_text :
  forall (text : jsstring) (i : nat),
    getLineNumber text 0 = 1 /\
    (forall j, i <= j -> getLineNumber text i <= getLineNumber text j) /\
    getLineNumber text (S i) =
      match nth_error text i with
      | Some 10%N => S (getLineNumber text i)
      | _ => getLineNumber text i
      end /\
    getLineNumber text i <= length (split_nl text) /\
    (length text <= i -> getLineNumber text i = length (split_nl text)).
Proof.
  intros text i. split; [reflexivity|].
  split; [intros j; apply getLineNumber_mono|].
  split; [|split].
  - unfold getLineNumber, slice0. rewrite !split_nl_length. f_equal.
    revert i; induction text as [|c r IH]; intros i.
    + destruct i; reflexivity.
    + destruct i as [|i].
      * cbn [firstn nth_error filter].
        destruct (N.eqb_spec c 10) as [->|Hn]; [reflexivity|].
        destruct c as [|p]; [reflexivity|].
        repeat (destruct p as [p|p|]; try reflexivity); congruence.
      * change (firstn (S (S i)) (c :: r)) with (c :: firstn (S i) r).
        change (firstn (S i) (c :: r)) with (c :: firstn i r).
        cbn [nth_error filter]. specialize (IH i).
        destruct (N.eqb c 10); cbn [length]; rewrite IH;
          destruct (nth_error r i) as [[|p]|]; try reflexivity;
          repeat (destruct p as [p|p|]; try reflexivity).
  - apply getLineNumber_upper.
  - intros Hlen. unfold getLineNumber, slice0.
    now rewrite firstn_all2.
Qed.

(** ** The four rules, one by one *)

Section RuleByRule.

Variable ms : list jsstring.
Variable k : jsstring.
Variable locs : list Occurrence.

Lemma existsb_find {A} (p : A -> bool) (l : list A) :
  existsb p l = true -> exists x, find p l = Some x.
Proof.
  induction l as [|a l IH]; simpl; [discriminate|].
  destruct (p a); [intros _; now exists a | exact IH].
Qed.

Lemma first_location_In (l : list Occurrence) (ex : Occurrence) :
  first_location l = Some ex -> In ex l.
Proof. destruct l; simpl; [discriminate | intros H; inversion H; now left]. Qed.

Lemma rule_exposed_spec (part : list RiskFinding) (f : RiskFinding) :
  rule_exposed ms k locs = Some part ->
  (In f part <->
   negb (set_has k ms) && looksSensitiveName k = true /\
   exists ex, find (fun x => isLikelyClientExposedPath (file x)) locs = Some ex
              /\ f = cite type_exposed k ex why_exposed).
Proof.
  unfold rule_exposed.
  destruct (negb (set_has k ms) && looksSensitiveName k).
  - destruct (find _ locs) as [ex|]; intros E; inversion E; subst; simpl.
    + split.
      * intros [<- | []]. split; [reflexivity|]. now exists ex.
      * intros [_ (ex' & Hex & ->)]. inversion Hex. now left.
    + split; [tauto | intros [_ (ex' & Hex & _)]; discriminate].
  - intros E; inversion E; subst; simpl.
    split; [tauto | intros [H _]; discriminate].
Qed.

Lemma rule_public_sensitive_spec (part : list RiskFinding) (f : RiskFinding) :
  rule_public_sensitive ms k locs = Some part ->
  (In f part <->
   negb (set_has k ms) && isPublicName k && looksSensitiveName k = true /\
   exists ex, first_location locs = Some ex
              /\ f = cite type_public_sensitive k ex why_public_sensitive).
Proof.
  unfold rule_public_sensitive.
  destruct (negb (set_has k ms) && isPublicName k && looksSensitiveName k).
  - destruct (first_location locs) as [ex|]; [|discriminate].
    intros E; inversion E; subst; simpl. split.
    + intros [<- | []]. split; [reflexivity|]. now exists ex.
    + intros [_ (ex' & Hex & ->)]. inversion Hex. now left.
  - intros E; inversion E; subst; simpl.
    split; [tauto | intros [H _]; discriminate].
Qed.

Lemma rule_client_spec (part : list RiskFinding) (f : RiskFinding) :
  rule_client ms k locs = Some part ->
  (In f part <->
   negb (set_has k ms) && existsb isClient locs && negb (isPublicName k)
     = true /\
   exists ex, find isClient locs = Some ex
              /\ f = cite type_client k ex why_client).
Proof.
  unfold rule_client.
  destruct (negb (set_has k ms) && existsb isClient locs
            && negb (isPublicName k)) eqn:Ec.
  - apply andb_true_iff in Ec. destruct Ec as [Ec _].
    apply andb_true_iff in Ec. destruct Ec as [_ Ec].
    destruct (existsb_find _ _ Ec) as [ex Hex]. rewrite Hex.
    intros E; inversion E; subst; simpl. split.
    + intros [<- | []]. split; [reflexivity|]. now exists ex.
    + intros [_ (ex' & Hex' & ->)]. inversion Hex'. now left.
  - intros E; inversion E; subst; simpl.
    split; [tauto | intros [H _]; discriminate].
Qed.

Lemma rule_server_only_spec (part : list RiskFinding) (f : RiskFinding) :
  rule_server_only ms k locs = Some part ->
  (In f part <->
   negb (set_has k ms) && isPublicName k && forallb isServerFile locs = true /\
   exists ex, first_location locs = Some ex
              /\ f = cite type_server_only k ex why_server_only).
Proof.
  unfold rule_server_only.
  destruct (negb (set_has k ms) && isPublicName k && forallb isServerFile locs).
  - destruct (first_location locs) as [ex|]; [|discriminate].
    intros E; inversion E; subst; simpl. split.
    + intros [<- | []]. split; [reflexivity|]. now exists ex.
    + intros [_ (ex' & Hex & ->)]. inversion Hex. now left.
  - intros E; inversion E; subst; simpl.
    split; [tauto | intros [H _]; discriminate].
Qed.

Lemma risk_rules_split (here : list RiskFinding) :
  risk_rules ms k locs = Some here ->
  exists e p c s,
    rule_exposed ms k locs = Some e /\
    rule_public_sensitive ms k locs = Some p /\
    rule_client ms k locs = Some c /\
    rule_server_only ms k locs = Some s /\
    here = e ++ p ++ c ++ s.
Proof.
  unfold risk_rules, bind.
  destruct (rule_exposed ms k locs) as [e|]; [|discriminate].
  destruct (rule_public_sensitive ms k locs) as [p|]; [|discriminate].
  destruct (rule_client ms k locs) as [c|]; [|discriminate].
  destruct (rule_server_only ms k locs) as [s|]; [|discriminate].
  intros E; inversion E. exists e, p, c, s. auto.
Qed.

(** The findings of one kind among those of a pass of the loop body
    are those of the rule of that kind. *)
Lemma risk_rules_by_type (here : list RiskFinding) (f : RiskFinding) :
  risk_rules ms k locs = Some here ->
  exists e p c s,
    rule_exposed ms k locs = Some e /\
    rule_public_sensitive ms k locs = Some p /\
    rule_client ms k locs = Some c /\
    rule_server_only ms k locs = Some s /\
    (In f here <-> In f e \/ In f p \/ In f c \/ In f s) /\
    (In f e -> type f = type_exposed) /\
    (In f p -> type f = type_public_sensitive) /\
    (In f c -> type f = type_client) /\
    (In f s -> type f = type_server_only).
Proof.
  intros H. destruct (risk_rules_split _ H) as (e & p & c & s & He & Hp & Hc & Hs & ->).
  exists e, p, c, s. repeat (split; [assumption|]).
  split; [rewrite !in_app_iff; tauto|].
  split; [|split; [|split]]; intros Hin.
  - apply (rule_exposed_spec _ _ He) in Hin.
    destruct Hin as [_ (ex & _ & ->)]. reflexivity.
  - apply (rule_public_sensitive_spec _ _ Hp) in Hin.
    destruct Hin as [_ (ex & _ & ->)]. reflexivity.
  - apply (rule_client_spec _ _ Hc) in Hin.
    destruct Hin as [_ (ex & _ & ->)]. reflexivity.
  - apply (rule_server_only_spec _ _ Hs) in Hin.
    destruct Hin as [_ (ex & _ & ->)]. reflexivity.
Qed.

End RuleByRule.

Section RulesInARun.

Variables (displayTarget : jsstring) (files : list SourceFile) (env : EnvArg).
Variable run : Run.
Hypothesis Hrun : main displayTarget files env = Some run.

Lemma run_index : locationsByEnvVar (report run) = extract files.
Proof.
  destruct (main_inv _ _ _ _ Hrun) as (D & fs & _ & _ & Hrep & _).
  now rewrite Hrep.
Qed.

Lemma findings_of_key (K : jsstring) :
  In K (map_keys (extract files)) ->
  exists ms here,
    (forall x, In x ms <-> In x (missing (report run))) /\
    risk_rules ms K (locations K (extract files)) = Some here /\
    (forall f, In f (risky (report run)) /\ key f = K <-> In f here).
Proof.
  intros HK.
  destruct (main_inv _ _ _ _ Hrun) as (D & fs & _ & Hloop & Hrep & _).
  rewrite Hrep; cbn [risky missing].
  set (used := extract files) in *. set (ms := set_of_list _) in *.
  assert (Hwf : well_formed used) by apply extract_well_formed.
  assert (Hent : In (K, locations K used) used) by apply lookup_In, HK.
  assert (Hne : locations K used <> []).
  { destruct Hwf as [_ Hall]. rewrite Forall_forall in Hall.
    apply (Hall _ Hent). }
  destruct (risk_rules_total ms K _ Hne) as [here Hhere].
  exists ms, here. split; [|split; [exact Hhere|]].
  - intros x. subst ms. now rewrite set_of_list_In, sort_In.
  - intros f. split.
    + intros [Hf Hkey].
      destruct (risk_loop_In _ _ _ _ Hloop Hf) as (l & h & Hin & Hr & Hfh).
      rewrite Hkey in Hin, Hr.
      rewrite <- (well_formed_lookup used K l (proj1 Hwf) Hin) in Hr.
      congruence.
    + intros Hf. split.
      * eapply risk_loop_In_rev; eauto.
      * apply (risk_rules_key _ _ _ _ _ Hhere Hf).
Qed.

Lemma run_rule_parts (K : jsstring) :
  In K (map_keys (extract files)) ->
  exists ms e p c s,
    (forall x, In x ms <-> In x (missing (report run))) /\
    rule_exposed ms K (locations K (extract files)) = Some e /\
    rule_public_sensitive ms K (locations K (extract files)) = Some p /\
    rule_client ms K (locations K (extract files)) = Some c /\
    rule_server_only ms K (locations K (extract files)) = Some s /\
    forall f,
      (In f (risky (report run)) /\ key f = K /\ type f = type_exposed
       <-> In f e) /\
      (In f (risky (report run)) /\ key f = K /\ type f = type_public_sensitive
       <-> In f p) /\
      (In f (risky (report run)) /\ key f = K /\ type f = type_client
       <-> In f c) /\
      (In f (risky (report run)) /\ key f = K /\ type f = type_server_only
       <-> In f s).
Proof.
  intros HK. destruct (findings_of_key K HK) as (ms & here & Hms & Hhere & Hf).
  destruct (risk_rules_split _ _ _ _ Hhere)
    as (e & p & c & s & He & Hp & Hc & Hs & _).
  exists ms, e, p, c, s. repeat (split; [assumption|]).
  intros f.
  destruct (risk_rules_by_type _ _ _ _ f Hhere)
    as (e' & p' & c' & s' & He' & Hp' & Hc' & Hs' & Hin & Te & Tp & Tc & Ts).
  assert (e' = e) by congruence. assert (p' = p) by congruence.
  assert (c' = c) by congruence. assert (s' = s) by congruence.
  subst e' p' c' s'. clear He' Hp' Hc' Hs'.
  destruct types_distinct as (D1 & D2 & D3 & D4 & D5 & D6).
  specialize (Hf f).
  split; [|split; [|split]].
  all: split;
    [ intros (Hr & Hk & Ht);
      destruct (proj1 Hin (proj1 Hf (conj Hr Hk)))
        as [Hx | [Hx | [Hx | Hx]]]; try exact Hx;
      first [apply Te in Hx | apply Tp in Hx | apply Tc in Hx
            | apply Ts in Hx];
      exfalso; congruence
    | intros Hx;
      first [pose proof (Te Hx) as Ht | pose proof (Tp Hx) as Ht
            | pose proof (Tc Hx) as Ht | pose proof (Ts Hx) as Ht];
      (assert (Hh : In f here) by (apply Hin; tauto));
      destruct (proj2 Hf Hh) as [Hr Hk]; auto ].
Qed.

Lemma not_missing_flag (K : jsstring) (ms : list jsstring) :
  (forall x, In x ms <-> In x (missing (report run))) ->
  ~ In K (missing (report run)) -> negb (set_has K ms) = true.
Proof.
  intros Hms Hk. apply negb_true_iff, set_has_not_In.
  intros H. apply Hk, Hms, H.
Qed.

End RulesInARun.

Lemma find_iff_exists {A} (p : A -> bool) (l : list A) :
  (exists ex, find p l = Some ex) <-> (exists o, In o l /\ p o = true).
Proof.
  split.
  - intros [ex H]. exists ex. apply (find_some _ _ H).
  - intros (o & Ho & Hp). apply existsb_find, existsb_exists. now exists o.
Qed.

(** X8.  For a name [K] of the usage index that is not missing, the
    finding "Secret-like env used in potentially client-exposed code"
    is among the risk findings exactly when [K] looks sensitive and
    some occurrence of [K] is in a file under a client-exposed path;
    it then cites the first such occurrence. *)
Theorem secret_name_in_exposed_path :
  forall (displayTarget : jsstring) (files : list SourceFile) (env : EnvArg)
         (run : Run) (K : jsstring),
    main displayTarget files env = Some run ->
    In K (map_keys (locationsByEnvVar (report run))) ->
    ~ In K (missing (report run)) ->
    let locs := locations K (locationsByEnvVar (report run)) in
    ((exists f, In f (risky (report run)) /\
                type f = type_exposed /\ key f = K) <->
     (looksSensitiveName K = true /\
      exists o, In o locs /\ isLikelyClientExposedPath (file o) = true)) /\
    (forall f, In f (risky (report run)) ->
               type f = type_exposed -> key f = K ->
               exists ex,
                 find (fun x => isLikelyClientExposedPath (file x)) locs
                   = Some ex /\
                 rfile f = file ex /\ rline f = line ex).
Proof.
  intros displayTarget files env run K Hrun HK Hmiss locs. subst locs.
  rewrite (run_index _ _ _ _ Hrun) in *.
  destruct (run_rule_parts _ _ _ _ Hrun K HK)
    as (ms & e & p & c & s & Hms & He & _ & _ & _ & Hf).
  pose proof (not_missing_flag run K ms Hms Hmiss) as Hflag.
  split; [split|].
  - intros (f & Hr & Ht & Hk).
    assert (Hin : In f e) by (apply (proj1 (Hf f)); auto).
    clear Hr; rename Hin into Hr.
    apply (rule_exposed_spec _ _ _ _ _ He) in Hr.
    destruct Hr as [Hc Hex]. rewrite Hflag in Hc. cbn [andb] in Hc.
    split; [exact Hc|].
    apply (proj1 (find_iff_exists _ _)).
    destruct Hex as (ex & Hex & _). now exists ex.
  - intros [Hs Ho].
    apply (proj2 (find_iff_exists
                    (fun x => isLikelyClientExposedPath (file x)) _)) in Ho.
    destruct Ho as [ex Hex].
    assert (Hin : In (cite type_exposed K ex why_exposed) e).
    { apply (rule_exposed_spec _ _ _ _ _ He). rewrite Hflag, Hs.
      split; [reflexivity|]. now exists ex. }
    apply (proj1 (Hf _)) in Hin. eexists; split; [apply Hin|].
    split; [apply Hin | reflexivity].
  - intros f Hr Ht Hk.
    assert (Hin : In f e) by (apply (proj1 (Hf f)); auto).
    apply (rule_exposed_spec _ _ _ _ _ He) in Hin.
    destruct Hin as [_ (ex & Hex & ->)]. exists ex. auto.
Qed.

(** X9.  For a name [K] of the usage index that is not missing, the
    finding "Public env name looks sensitive" is among the risk
    findings exactly when [K] starts with [NEXT_PUBLIC_] and looks
    sensitive, wherever it is used; it cites the first occurrence. *)
Theorem public_name_looks_sensitive :
  forall (displayTarget : jsstring) (files : list SourceFile) (env : EnvArg)
         (run : Run) (K : jsstring),
    main displayTarget files env = Some run ->
    In K (map_keys (locationsByEnvVar (report run))) ->
    ~ In K (missing (report run)) ->
    let locs := locations K (locationsByEnvVar (report run)) in
    ((exists f, In f (risky (report run)) /\
                type f = type_public_sensitive /\ key f = K) <->
     (isPublicName K = true /\ looksSensitiveName K = true)) /\
    (forall f, In f (risky (report run)) ->
               type f = type_public_sensitive -> key f = K ->
               exists ex, first_location locs = Some ex /\
                          rfile f = file ex /\ rline f = line ex).
Proof.
  intros displayTarget files env run K Hrun HK Hmiss locs. subst locs.
  rewrite (run_index _ _ _ _ Hrun) in *.
  destruct (run_rule_parts _ _ _ _ Hrun K HK)
    as (ms & e & p & c & s & Hms & _ & Hp & _ & _ & Hf).
  pose proof (not_missing_flag run K ms Hms Hmiss) as Hflag.
  split; [split|].
  - intros (f & Hr & Ht & Hk).
    assert (Hin : In f p) by (apply (proj1 (proj2 (Hf f))); auto).
    clear Hr; rename Hin into Hr.
    apply (rule_public_sensitive_spec _ _ _ _ _ Hp) in Hr.
    destruct Hr as [Hc _]. rewrite Hflag in Hc. cbn [andb] in Hc.
    now apply andb_true_iff in Hc.
  - intros [Hpub Hs].
    assert (Hne : locations K (extract files) <> [])
      by now apply key_iff_located.
    destruct (first_location_some _ Hne) as [ex Hex].
    assert (Hin : In (cite type_public_sensitive K ex why_public_sensitive) p).
    { apply (rule_public_sensitive_spec _ _ _ _ _ Hp).
      rewrite Hflag, Hpub, Hs. split; [reflexivity|]. now exists ex. }
    apply (proj1 (proj2 (Hf _))) in Hin. eexists; split; [apply Hin|].
    split; [apply Hin | reflexivity].
  - intros f Hr Ht Hk.
    assert (Hin : In f p) by (apply (proj1 (proj2 (Hf f))); auto).
    apply (rule_public_sensitive_spec _ _ _ _ _ Hp) in Hin.
    destruct Hin as [_ (ex & Hex & ->)]. exists ex. auto.
Qed.

(** X10.  For a name [K] of the usage index that is not missing, the
    finding "Possible secret used in client component" is among the
    risk findings exactly when some occurrence of [K] is in a file
    marked as a client file and [K] does not start with
    [NEXT_PUBLIC_]; it always cites the first occurrence in a client
    file, never another one. *)
Theorem secret_in_client_component :
  forall (displayTarget : jsstring) (files : list SourceFile) (env : EnvArg)
         (run : Run) (K : jsstring),
    main displayTarget files env = Some run ->
    In K (map_keys (locationsByEnvVar (report run))) ->
    ~ In K (missing (report run)) ->
    let locs := locations K (locationsByEnvVar (report run)) in
    ((exists f, In f (risky (report run)) /\
                type f = type_client /\ key f = K) <->
     ((exists o, In o locs /\ isClient o = true) /\
      isPublicName K = false)) /\
    (forall f, In f (risky (report run)) ->
               type f = type_client -> key f = K ->
               exists ex, find isClient locs = Some ex /\
                          isClient ex = true /\
                          rfile f = file ex /\ rline f = line ex).
Proof.
  intros displayTarget files env run K Hrun HK Hmiss locs. subst locs.
  rewrite (run_index _ _ _ _ Hrun) in *.
  destruct (run_rule_parts _ _ _ _ Hrun K HK)
    as (ms & e & p & c & s & Hms & _ & _ & Hc & _ & Hf).
  pose proof (not_missing_flag run K ms Hms Hmiss) as Hflag.
  split; [split|].
  - intros (f & Hr & Ht & Hk).
    assert (Hin : In f c) by (apply (proj1 (proj2 (proj2 (Hf f)))); auto).
    clear Hr; rename Hin into Hr.
    apply (rule_client_spec _ _ _ _ _ Hc) in Hr.
    destruct Hr as [Hcond _]. rewrite Hflag in Hcond. cbn [andb] in Hcond.
    apply andb_true_iff in Hcond. destruct Hcond as [Hex Hpub].
    split; [|now apply negb_true_iff].
    apply existsb_exists in Hex. exact Hex.
  - intros [Hex Hpub].
    apply (proj2 (find_iff_exists isClient _)) in Hex as Hfind.
    destruct Hfind as [ex Hfind].
    assert (Hin : In (cite type_client K ex why_client) c).
    { apply (rule_client_spec _ _ _ _ _ Hc).
      rewrite Hflag, Hpub, (proj2 (existsb_exists _ _) Hex).
      split; [reflexivity|]. now exists ex. }
    apply (proj1 (proj2 (proj2 (Hf _)))) in Hin.
    eexists; split; [apply Hin|]. split; [apply Hin | reflexivity].
  - intros f Hr Ht Hk.
    assert (Hin : In f c) by (apply (proj1 (proj2 (proj2 (Hf f)))); auto).
    apply (rule_client_spec _ _ _ _ _ Hc) in Hin.
    destruct Hin as [_ (ex & Hex & ->)]. exists ex.
    split; [exact Hex|]. split; [apply (find_some _ _ Hex) | auto].
Qed.

(** ** Server routes, exposed paths and the number of findings *)

Section PathsAndCounts.

Lemma replaceAll_unit_map (c d : N) (s : jsstring) :
  replaceAll c [d] s = map (fun x => if N.eqb x c then d else x) s.
Proof.
  induction s as [|x s IH]; simpl; [reflexivity|].
  rewrite IH. now destruct (N.eqb x c).
Qed.

Lemma startsWith_map (g : N -> N) (p s : jsstring) :
  (forall c, In c p -> g c = c) ->
  startsWith p s = true -> startsWith p (map g s) = true.
Proof.
  revert s; induction p as [|x p IH]; intros s Hg; [reflexivity|].
  destruct s as [|y s]; [discriminate|]. simpl.
  rewrite !andb_true_iff, !N.eqb_eq. intros [-> H]. split.
  - symmetry. apply Hg. now left.
  - apply IH; [|exact H]. intros c Hc. apply Hg. now right.
Qed.

Lemma includes_map (g : N -> N) (p s : jsstring) :
  (forall c, In c p -> g c = c) ->
  includes p s = true -> includes p (map g s) = true.
Proof.
  intros Hg. induction s as [|y s IH].
  - simpl. rewrite !orb_false_r. apply (startsWith_map g p [] Hg).
  - cbn [includes map]. rewrite !orb_true_iff. intros [H | H].
    + left. apply (startsWith_map g p (y :: s) Hg H).
    + right. apply IH, H.
Qed.

Lemma slash_fixes (p : jsstring) :
  forallb (fun c => negb (N.eqb c 92)) p = true ->
  forall c, In c p -> (if N.eqb c 92 then 47%N else c) = c.
Proof.
  rewrite forallb_forall. intros H c Hc. apply H in Hc.
  now destruct (N.eqb c 92).
Qed.

Lemma slashes_once (s : jsstring) :
  replaceAll 92 (lit "/") (replaceAll 92 (lit "/") s) =
  replaceAll 92 (lit "/") s.
Proof.
  change (lit "/") with [47%N]. rewrite !replaceAll_unit_map, map_map.
  apply map_ext. intros c.
  cbv beta. destruct (N.eqb c 92) eqn:E; [reflexivity | now rewrite E].
Qed.

Lemma slashes_after_backslashes (s : jsstring) :
  replaceAll 92 (lit "/") (replaceAll 47 (lit "\") s) =
  replaceAll 92 (lit "/") s.
Proof.
  change (lit "/") with [47%N]. change (lit "\") with [92%N].
  rewrite !replaceAll_unit_map, map_map.
  apply map_ext. intros c.
  cbv beta. destruct (N.eqb_spec c 47) as [->|H47]; reflexivity.
Qed.

Lemma server_path_not_exposed (relFile : jsstring) :
  isServerPath relFile = true -> isLikelyClientExposedPath relFile = false.
Proof.
  unfold isServerPath, isLikelyClientExposedPath.
  change (lit "/") with [47%N]. rewrite replaceAll_unit_map.
  set (g := fun x => if N.eqb x 92 then 47%N else x).
  intros H. apply andb_false_iff. right. apply negb_false_iff.
  rewrite !orb_true_iff in *.
  destruct H as [[[H | H] | H] | H].
  - left; left; left. apply (startsWith_map g); [|exact H].
    apply slash_fixes. reflexivity.
  - left; left; right. apply (startsWith_map g); [|exact H].
    apply slash_fixes. reflexivity.
  - left; right. apply (includes_map g); [|exact H].
    apply slash_fixes. reflexivity.
  - right. apply (includes_map g); [|exact H].
    apply slash_fixes. reflexivity.
Qed.

Lemma extract_server_flags (files : list SourceFile) (k : jsstring)
  (l : list Occurrence) (o : Occurrence) :
  In (k, l) (extract files) -> In o l ->
  isServerFile o = isServerPath (file o).
Proof.
  intros Hentry Ho.
  rewrite <- (well_formed_lookup (extract files) k l
                (proj1 (extract_well_formed files)) Hentry) in Ho.
  apply locations_extract_In in Ho.
  destruct Ho as (relFile & text & idx & _ & _ & ->). reflexivity.
Qed.

(** One pass of the loop body pushes at most two findings when the
    server flag of every occurrence is the one of its path. *)
Lemma risk_rules_at_most_two (ms : list jsstring) (k : jsstring)
  (locs : list Occurrence) (here : list RiskFinding) :
  (forall o, In o locs -> isServerFile o = isServerPath (file o)) ->
  risk_rules ms k locs = Some here -> length here <= 2.
Proof.
  intros Hflags H.
  destruct (risk_rules_split _ _ _ _ H)
    as (e & p & c & s & He & Hp & Hc & Hs & ->).
  assert (Le : length e <= 1 /\
               (e <> [] -> exists ex, In ex locs /\
                  isLikelyClientExposedPath (file ex) = true)).
  { unfold rule_exposed in He.
    destruct (negb (set_has k ms) && looksSensitiveName k);
      [destruct (find _ locs) as [ex|] eqn:Ef|];
      inversion He; subst; simpl; (split; [lia|]); intros Hn;
      try congruence.
    exists ex. apply (find_some _ _ Ef). }
  assert (Lp : length p <= 1 /\ (p <> [] -> isPublicName k = true)).
  { unfold rule_public_sensitive in Hp.
    destruct (negb (set_has k ms)); cbn [andb] in Hp;
      [destruct (isPublicName k); cbn [andb] in Hp;
       [destruct (looksSensitiveName k);
        [destruct (first_location locs)|]|]|];
      inversion Hp; subst; simpl; (split; [lia|]); intros Hn;
      congruence. }
  assert (Lc : length c <= 1 /\ (c <> [] -> isPublicName k = false)).
  { unfold rule_client in Hc.
    destruct (negb (set_has k ms)); cbn [andb] in Hc;
      [destruct (existsb isClient locs); cbn [andb] in Hc;
       [destruct (isPublicName k); cbn [negb] in Hc;
        [|destruct (find isClient locs);
          [|destruct (first_location locs)]]|]|];
      inversion Hc; subst; simpl; (split; [lia|]); intros Hn;
      congruence. }
  assert (Ls : length s <= 1 /\
               (s <> [] -> isPublicName k = true /\
                           forallb isServerFile locs = true)).
  { unfold rule_server_only in Hs.
    destruct (negb (set_has k ms)); cbn [andb] in Hs;
      [destruct (isPublicName k); cbn [andb] in Hs;
       [destruct (forallb isServerFile locs);
        [destruct (first_location locs)|]|]|];
      inversion Hs; subst; simpl; (split; [lia|]); intros Hn;
      try congruence; auto. }
  destruct Le as [Le1 Le2], Lp as [Lp1 Lp2], Lc as [Lc1 Lc2],
    Ls as [Ls1 Ls2].
  rewrite !length_app.
  destruct (isPublicName k) eqn:Epub.
  - assert (c = []) by (destruct c; [reflexivity|];
                        assert (true = false) by (apply Lc2; discriminate);
                        discriminate).
    subst c. simpl.
    destruct e as [|fe e']; [simpl; lia|].
    destruct s as [|fs s']; [simpl in *; lia|].
    exfalso.
    destruct Le2 as (ex & Hex & Hexp); [discriminate|].
    destruct Ls2 as [_ Hall]; [discriminate|].
    rewrite forallb_forall in Hall.
    pose proof (Hall ex Hex) as Hsrv. rewrite (Hflags ex Hex) in Hsrv.
    apply server_path_not_exposed in Hsrv. congruence.
  - assert (p = []) by (destruct p; [reflexivity|];
                        assert (false = true) by (apply Lp2; discriminate);
                        discriminate).
    assert (s = []).
    { destruct s; [reflexivity|].
      assert (false = true) by (apply Ls2; discriminate). discriminate. }
    subst p s. simpl. lia.
Qed.

Lemma risk_loop_at_most_two (ms : list jsstring) (used : UsageIndex) :
  (forall k l o, In (k, l) used -> In o l ->
                 isServerFile o = isServerPath (file o)) ->
  forall fs, risk_loop ms used = Some fs -> length fs <= 2 * length used.
Proof.
  induction used as [|[k l] r IH]; intros Hflags fs; simpl.
  - intros E; inversion E. simpl. lia.
  - destruct (risk_rules ms k l) as [here|] eqn:Eh; [|discriminate].
    destruct (risk_loop ms r) as [later|]; [|discriminate].
    simpl. intros E; inversion E; subst. rewrite length_app.
    assert (length here <= 2).
    { apply (risk_rules_at_most_two ms k l); [|exact Eh].
      intros o Ho. apply (Hflags k l o); [now left | exact Ho]. }
    assert (length later <= 2 * length r).
    { apply IH; [|reflexivity]. intros k' l' o Hin Ho.
      apply (Hflags k' l' o); [now right | exact Ho]. }
    lia.
Qed.

End PathsAndCounts.

(** X11.  A path counted as a server route file is never counted as
    client-exposed, also when it is written with backslashes; and
    writing a path with backslashes or with slashes gives the same
    answer to the client-exposed test. *)
Theorem server_route_is_not_exposed :
  forall (relFile : jsstring),
    (isServerPath relFile = true ->
     isLikelyClientExposedPath relFile = false) /\
    isLikelyClientExposedPath (replaceAll 92 (lit "/") relFile) =
      isLikelyClientExposedPath relFile /\
    isLikelyClientExposedPath (replaceAll 47 (lit "\") relFile) =
      isLikelyClientExposedPath relFile.
Proof.
  intros relFile. split; [apply server_path_not_exposed|].
  unfold isLikelyClientExposedPath.
  now rewrite slashes_once, slashes_after_backslashes.
Qed.

(** X12.  A run reports at most two risk findings per used name:
    [riskyCount] never exceeds twice [envVarsFound]. *)
Theorem at_most_two_findings_per_name :
  forall (displayTarget : jsstring) (files : list SourceFile) (env : EnvArg)
         (run : Run),
    main displayTarget files env = Some run ->
    riskyCount (totals (report run))
      <= 2 * envVarsFound (totals (report run)).
Proof.
  intros displayTarget files env run Hrun.
  destruct (main_inv _ _ _ _ Hrun) as (D & fs & _ & Hloop & Hrep & _).
  rewrite Hrep. cbn [totals riskyCount envVarsFound].
  unfold map_keys. rewrite length_map.
  eapply risk_loop_at_most_two; [|exact Hloop].
  intros k l o. apply extract_server_flags.
Qed.

(** X13.  Findings that never go together in a run: for one name, the
    client-component finding excludes both findings about public
    names, and the exposed-path finding excludes the
    only-in-server-code finding. *)
Theorem exclusive_findings :
  forall (displayTarget : jsstring) (files : list SourceFile) (env : EnvArg)
         (run : Run) (f1 f2 : RiskFinding),
    main displayTarget files env = Some run ->
    In f1 (risky (report run)) -> In f2 (risky (report run)) ->
    key f1 = key f2 ->
    (type f1 = type_client ->
     type f2 <> type_public_sensitive /\ type f2 <> type_server_only) /\
    (type f1 = type_exposed -> type f2 <> type_server_only).
Proof.
  intros displayTarget files env run f1 f2 Hrun H1 H2 Hkey.
  assert (HK : In (key f1) (map_keys (extract files))).
  { destruct (main_inv _ _ _ _ Hrun) as (D & fs & _ & Hloop & Hrep & _).
    rewrite Hrep in H1. cbn [risky] in H1.
    destruct (risk_loop_In _ _ _ _ Hloop H1) as (l & h & Hin & _).
    apply (in_map fst) in Hin. exact Hin. }
  destruct (run_rule_parts _ _ _ _ Hrun _ HK)
    as (ms & e & p & c & s & Hms & He & Hp & Hc & Hs & Hf).
  set (K := key f1) in *. set (locs := locations K (extract files)) in *.
  split.
  - intros T1.
    assert (I1 : In f1 c) by (apply (proj1 (proj2 (proj2 (Hf f1)))); auto).
    apply (rule_client_spec _ _ _ _ _ Hc) in I1. destruct I1 as [C1 _].
    apply andb_true_iff in C1. destruct C1 as [_ C1].
    apply negb_true_iff in C1.
    split; intros T2.
    + assert (I2 : In f2 p) by (apply (proj1 (proj2 (Hf f2))); auto).
      apply (rule_public_sensitive_spec _ _ _ _ _ Hp) in I2.
      destruct I2 as [C2 _].
      apply andb_true_iff in C2. destruct C2 as [C2 _].
      apply andb_true_iff in C2. destruct C2 as [_ C2]. congruence.
    + assert (I2 : In f2 s)
        by (apply (proj2 (proj2 (proj2 (Hf f2)))); auto).
      apply (rule_server_only_spec _ _ _ _ _ Hs) in I2.
      destruct I2 as [C2 _].
      apply andb_true_iff in C2. destruct C2 as [C2 _].
      apply andb_true_iff in C2. destruct C2 as [_ C2]. congruence.
  - intros T1 T2.
    assert (I1 : In f1 e) by (apply (proj1 (Hf f1)); auto).
    assert (I2 : In f2 s) by (apply (proj2 (proj2 (proj2 (Hf f2)))); auto).
    apply (rule_exposed_spec _ _ _ _ _ He) in I1.
    destruct I1 as [_ (ex & Hex & _)]. apply find_some in Hex.
    destruct Hex as [Hin Hexp].
    apply (rule_server_only_spec _ _ _ _ _ Hs) in I2.
    destruct I2 as [C2 _]. apply andb_true_iff in C2.
    destruct C2 as [_ Hall]. rewrite forallb_forall in Hall.
    pose proof (Hall ex Hin) as Hsrv.
    rewrite (extract_server_flags files K locs ex) in Hsrv;
      [|apply lookup_In, HK | exact Hin].
    apply server_path_not_exposed in Hsrv. congruence.
Qed.

(** X14.  Every risk finding of a run is about a used name and cites
    the file and line of one recorded occurrence of that name; its
    kind and rationale are one of the four fixed pairs. *)
Theorem findings_cite_recorded_occurrences :
  forall (displayTarget : jsstring) (files : list SourceFile) (env : EnvArg)
         (run : Run) (f : RiskFinding),
    main displayTarget files env = Some run ->
    In f (risky (report run)) ->
    In (key f) (envVarsUsed (report run)) /\
    (exists o, In o (locations (key f) (locationsByEnvVar (report run))) /\
               rfile f = file o /\ rline f = line o) /\
    In (type f, why f)
       [(type_exposed, why_exposed);
        (type_public_sensitive, why_public_sensitive);
        (type_client, why_client);
        (type_server_only, why_server_only)].
Proof.
  intros displayTarget files env run f Hrun Hf.
  assert (HK : In (key f) (map_keys (extract files))).
  { destruct (main_inv _ _ _ _ Hrun) as (D & fs & _ & Hloop & Hrep & _).
    rewrite Hrep in Hf. cbn [risky] in Hf.
    destruct (risk_loop_In _ _ _ _ Hloop Hf) as (l & h & Hin & _).
    apply (in_map fst) in Hin. exact Hin. }
  split.
  { destruct (main_inv _ _ _ _ Hrun) as (D & fs & _ & _ & Hrep & _).
    rewrite Hrep. cbn [envVarsUsed]. apply sort_In, HK. }
  rewrite (run_index _ _ _ _ Hrun).
  destruct (findings_of_key _ _ _ _ Hrun _ HK) as (ms & here & _ & Hhere & Hin).
  assert (Hh : In f here) by (apply Hin; auto).
  destruct (risk_rules_by_type _ _ _ _ f Hhere)
    as (e & p & c & s & He & Hp & Hc & Hs & Hsplit & _).
  apply Hsplit in Hh. destruct Hh as [H | [H | [H | H]]].
  - apply (rule_exposed_spec _ _ _ _ _ He) in H.
    destruct H as [_ (ex & Hex & ->)]. apply find_some in Hex. split.
    + exists ex. simpl. tauto.
    + simpl. auto.
  - apply (rule_public_sensitive_spec _ _ _ _ _ Hp) in H.
    destruct H as [_ (ex & Hex & ->)]. apply first_location_In in Hex. split.
    + exists ex. simpl. auto.
    + simpl. auto.
  - apply (rule_client_spec _ _ _ _ _ Hc) in H.
    destruct H as [_ (ex & Hex & ->)]. apply find_some in Hex. split.
    + exists ex. simpl. tauto.
    + simpl. auto.
  - apply (rule_server_only_spec _ _ _ _ _ Hs) in H.
    destruct H as [_ (ex & Hex & ->)]. apply first_location_In in Hex. split.
    + exists ex. simpl. auto.
    + simpl. auto 6.
Qed.

(** ** The lists and totals of the report *)

Section CodeUnitOrder.

Lemma str_leb_refl (a : jsstring) : str_leb a a = true.
Proof.
  induction a as [|x a IH]; simpl; [reflexivity|].
  now rewrite N.ltb_irrefl.
Qed.

Lemma str_leb_total (a b : jsstring) :
  str_leb a b = false -> str_leb b a = true.
Proof.
  revert b; induction a as [|x a IH]; intros [|y b]; simpl;
    try discriminate; try reflexivity.
  destruct (N.ltb_spec x y); [discriminate|].
  destruct (N.ltb_spec y x); [reflexivity|]. apply IH.
Qed.

Lemma str_leb_antisym (a b : jsstring) :
  str_leb a b = true -> str_leb b a = true -> a = b.
Proof.
  revert b; induction a as [|x a IH]; intros [|y b]; simpl;
    try discriminate; try reflexivity.
  destruct (N.ltb_spec x y); destruct (N.ltb_spec y x);
    try discriminate; try lia.
  intros H1 H2. assert (x = y) by lia. subst. f_equal. now apply IH.
Qed.

Lemma str_leb_trans (a b c : jsstring) :
  str_leb a b = true -> str_leb b c = true -> str_leb a c = true.
Proof.
  revert b c; induction a as [|x a IH]; intros [|y b] [|z c]; simpl;
    try discriminate; try reflexivity.
  destruct (N.ltb_spec x y); destruct (N.ltb_spec y x);
    destruct (N.ltb_spec y z); destruct (N.ltb_spec z y);
    destruct (N.ltb_spec x z); destruct (N.ltb_spec z x);
    try discriminate; try reflexivity; try lia.
  apply IH.
Qed.

Lemma insert_sorted_ascending (x : jsstring) (l : list jsstring) :
  ascending l -> ascending (insert_sorted x l).
Proof.
  unfold ascending. induction 1 as [|y l Hs IH Hy]; simpl.
  - repeat constructor.
  - destruct (str_leb x y) eqn:E.
    + constructor; [now constructor|].
      constructor; [exact E|].
      eapply Forall_impl; [|exact Hy]. simpl; intros z Hz.
      eapply str_leb_trans; eauto.
    + constructor; [exact IH|].
      rewrite Forall_forall in *. intros z Hz.
      apply insert_sorted_In in Hz. destruct Hz as [-> | Hz].
      * now apply str_leb_total.
      * now apply Hy.
Qed.

Lemma sort_ascending (l : list jsstring) : ascending (sort l).
Proof.
  induction l as [|x l IH]; simpl; [constructor|].
  apply insert_sorted_ascending, IH.
Qed.

(** Two ascending lists without repetition that hold the same strings
    are the same list. *)
Lemma ascending_unique (l1 l2 : list jsstring) :
  ascending l1 -> ascending l2 -> NoDup l1 -> NoDup l2 ->
  (forall x, In x l1 <-> In x l2) -> l1 = l2.
Proof.
  unfold ascending. intros S1; revert l2.
  induction S1 as [|a l1 S1 IH Ha]; intros l2 S2 N1 N2 Hsame.
  - destruct l2 as [|b l2]; [reflexivity|].
    exfalso. apply (proj2 (Hsame b)). now left.
  - destruct S2 as [|b l2 S2 Hb].
    + exfalso. apply (proj1 (Hsame a)). now left.
    + rewrite Forall_forall in Ha, Hb.
      inversion N1 as [|? ? Na N1']; inversion N2 as [|? ? Nb N2']; subst.
      assert (Hab : a = b).
      { assert (In a (b :: l2)) as [-> | Hin] by (apply Hsame; now left);
          [reflexivity|].
        assert (In b (a :: l1)) as [-> | Hin'] by (apply Hsame; now left);
          [reflexivity|].
        apply str_leb_antisym; [apply Ha, Hin' | apply Hb, Hin]. }
      subst b. f_equal. apply IH; try assumption.
      intros x. split; intros Hx.
      * assert (In x (a :: l2)) as [<- | H] by (apply Hsame; now right);
          [contradiction | exact H].
      * assert (In x (a :: l1)) as [<- | H] by (apply Hsame; now right);
          [contradiction | exact H].
Qed.

Lemma sort_same_members (l1 l2 : list jsstring) :
  NoDup l1 -> NoDup l2 -> (forall x, In x l1 <-> In x l2) ->
  sort l1 = sort l2.
Proof.
  intros N1 N2 H. apply ascending_unique.
  - apply sort_ascending.
  - apply sort_ascending.
  - now apply sort_NoDup.
  - now apply sort_NoDup.
  - intros x. now rewrite !sort_In.
Qed.

End CodeUnitOrder.

(** X15.  The totals of a report count its own lists: [envVarsFound],
    [missingCount], [unusedCount] and [riskyCount] are the lengths of
    [envVarsUsed], [missing], [unused] and [risky], and [envVarsFound]
    is also the number of entries of the occurrence index. *)
Theorem totals_count_the_lists :
  forall (displayTarget : jsstring) (files : list SourceFile) (env : EnvArg)
         (run : Run),
    main displayTarget files env = Some run ->
    let r := report run in
    envVarsFound (totals r) = length (envVarsUsed r) /\
    envVarsFound (totals r) = length (locationsByEnvVar r) /\
    missingCount (totals r) = length (missing r) /\
    unusedCount (totals r) = length (unused r) /\
    riskyCount (totals r) = length (risky r).
Proof.
  intros displayTarget files env run Hrun r. subst r.
  destruct (main_inv _ _ _ _ Hrun) as (D & fs & _ & _ & Hrep & _).
  rewrite Hrep. simpl. rewrite !sort_length.
  unfold map_keys. rewrite length_map. auto.
Qed.

(** X16.  The three name lists of a report, [envVarsUsed], [missing]
    and [unused], are in ascending order of code units and hold no
    name twice. *)
Theorem report_lists_sorted :
  forall (displayTarget : jsstring) (files : list SourceFile) (env : EnvArg)
         (run : Run),
    main displayTarget files env = Some run ->
    let r := report run in
    (ascending (envVarsUsed r) /\ NoDup (envVarsUsed r)) /\
    (ascending (missing r) /\ NoDup (missing r)) /\
    (ascending (unused r) /\ NoDup (unused r)).
Proof.
  intros displayTarget files env run Hrun r. subst r.
  destruct (main_inv _ _ _ _ Hrun) as (D & fs & Hp & _ & Hrep & _).
  rewrite Hrep. simpl.
  destruct (reconcile_NoDup (map_keys (extract files)) D) as [N1 N2].
  { apply extract_well_formed. }
  { eapply provided_NoDup, Hp. }
  repeat split; try apply sort_ascending; apply sort_NoDup;
    try assumption. apply extract_well_formed.
Qed.

(** X17.  In every run, each missing name is a used name and has a
    first recorded occurrence to show with it; no unused name is a
    used name; and no name is both missing and unused. *)
Theorem missing_and_unused_apart :
  forall (displayTarget : jsstring) (files : list SourceFile) (env : EnvArg)
         (run : Run) (k : jsstring),
    main displayTarget files env = Some run ->
    let r := report run in
    (In k (missing r) ->
     In k (envVarsUsed r) /\
     exists ex, first_location (locations k (locationsByEnvVar r)) = Some ex) /\
    (In k (unused r) -> ~ In k (envVarsUsed r)) /\
    ~ (In k (missing r) /\ In k (unused r)).
Proof.
  intros displayTarget files env run k Hrun r. subst r.
  destruct (main_inv _ _ _ _ Hrun) as (D & fs & _ & _ & Hrep & _).
  rewrite Hrep. simpl. rewrite !sort_In.
  destruct D as [|d D]; [simpl; tauto|].
  rewrite reconcile_missing, reconcile_unused by discriminate.
  split; [|tauto].
  intros [HU _]. split; [exact HU|].
  apply first_location_some. now apply key_iff_located.
Qed.

Section ListingOrder.

Variables (files files' : list SourceFile).
Hypothesis Hperm : Permutation files files'.

Lemma located_perm (k : jsstring) (o : Occurrence) :
  In o (locations k (extract files)) -> In o (locations k (extract files')).
Proof.
  rewrite !locations_extract_In.
  intros (relFile & text & idx & Hf & H). exists relFile, text, idx.
  split; [|exact H]. eapply Permutation_in; eauto.
Qed.

Lemma keys_perm_incl (k : jsstring) :
  In k (map_keys (extract files)) -> In k (map_keys (extract files')).
Proof.
  rewrite !key_iff_located. intros H.
  destruct (locations k (extract files)) as [|o l] eqn:E; [congruence|].
  assert (Ho : In o (locations k (extract files'))).
  { apply located_perm. rewrite E. now left. }
  intros E'. rewrite E' in Ho. destruct Ho.
Qed.

End ListingOrder.

Lemma keys_perm (files files' : list SourceFile) (k : jsstring) :
  Permutation files files' ->
  (In k (map_keys (extract files)) <-> In k (map_keys (extract files'))).
Proof.
  intros H. split; apply keys_perm_incl; [exact H | now apply Permutation_sym].
Qed.

(** X18.  The order in which the files are listed does not show in the
    name lists: two runs over the same files in different orders
    report the same [envVarsUsed], [missing] and [unused], the same
    counts for them and for the files, and write the same
    declarations template. *)
Theorem listing_order_irrelevant :
  forall (displayTarget : jsstring) (files files' : list SourceFile)
         (env : EnvArg) (run : Run),
    Permutation files files' ->
    main displayTarget files env = Some run ->
    exists run',
      main displayTarget files' env = Some run' /\
      envVarsUsed (report run') = envVarsUsed (report run) /\
      missing (report run') = missing (report run) /\
      unused (report run') = unused (report run) /\
      example_generated run' = example_generated run /\
      filesScanned (totals (report run')) = filesScanned (totals (report run)) /\
      envVarsFound (totals (report run')) = envVarsFound (totals (report run)) /\
      missingCount (totals (report run')) = missingCount (totals (report run)) /\
      unusedCount (totals (report run')) = unusedCount (totals (report run)).
Proof.
  intros displayTarget files files' env run Hperm Hrun.
  destruct (main_inv _ _ _ _ Hrun) as (D & fs & Hp & _ & Hrep & Hex & _).
  destruct (main_total displayTarget files' env) as [run' Hrun'].
  { intros ->. discriminate. }
  exists run'. split; [exact Hrun'|].
  destruct (main_inv _ _ _ _ Hrun') as (D' & fs' & Hp' & _ & Hrep' & Hex' & _).
  assert (D' = D) by congruence. subst D'.
  set (U := map_keys (extract files)) in *.
  set (U' := map_keys (extract files')) in *.
  assert (NU : NoDup U) by apply extract_well_formed.
  assert (NU' : NoDup U') by apply extract_well_formed.
  assert (ND : NoDup D) by (eapply provided_NoDup, Hp).
  assert (HU : forall k, In k U' <-> In k U).
  { intros k. symmetry. now apply keys_perm. }
  assert (EU : sort U' = sort U) by now apply sort_same_members.
  assert (EM : sort (fst (reconcile U' D)) = sort (fst (reconcile U D))).
  { apply sort_same_members; try apply reconcile_NoDup; try assumption.
    intros k. destruct D as [|d D]; [reflexivity|].
    rewrite !reconcile_missing by discriminate. now rewrite HU. }
  assert (EN : sort (snd (reconcile U' D)) = sort (snd (reconcile U D))).
  { apply sort_same_members; try apply reconcile_NoDup; try assumption.
    intros k. destruct D as [|d D]; [reflexivity|].
    rewrite !reconcile_unused by discriminate. now rewrite HU. }
  rewrite Hrep, Hrep', Hex, Hex'. simpl.
  repeat split; try assumption.
  - unfold exampleText. now rewrite EU.
  - symmetry. now apply Permutation_length.
  - now rewrite <- (sort_length U'), EU, sort_length.
  - now rewrite <- (sort_length (fst _)), EM, sort_length.
  - now rewrite <- (sort_length (snd _)), EN, sort_length.
Qed.

(** ** Items of the markup report *)

Section ReportItems.

Lemma counted_positive_nonempty (p x : jsstring) (n : nat) :
  counted p x (S n) -> x <> [].
Proof.
  intros H E. subst x. specialize (H []). simpl in H. lia.
Qed.

Lemma counted_items {A} (p : jsstring) (f : A -> jsstring) (l : list A) :
  (forall a, counted p (f a) 1) ->
  counted p (join_empty (map f l)) (length l).
Proof.
  intros H. unfold join_empty.
  induction l as [|a l IH]; simpl; [apply counted_nil|].
  eapply counted_app; [apply H | exact IH | reflexivity].
Qed.

Lemma counted_items_or_none {A} (p : jsstring) (f : A -> jsstring)
  (l : list A) (none : jsstring) :
  (forall a, counted p (f a) 1) -> counted p none 1 ->
  counted p (or_else (join_empty (map f l)) none) (Nat.max 1 (length l)).
Proof.
  intros Hf Hn. destruct l as [|a l]; [exact Hn|].
  pose proof (counted_items p f (a :: l) Hf) as H.
  replace (Nat.max 1 (length (a :: l))) with (length (a :: l))
    by (simpl; lia).
  destruct (join_empty (map f (a :: l))) eqn:E; [|exact H].
  exfalso. apply (counted_positive_nonempty _ _ _ H). reflexivity.
Qed.

End ReportItems.

Ltac count_items :=
  lazymatch goal with
  | |- counted _ (_ ++ _) _ =>
      eapply counted_app; [count_items | count_items | reflexivity]
  | |- counted _ (escapeHtml _) _ => apply counted_escapeHtml
  | |- counted _ (String_of_nat _) _ => apply counted_String_of_nat
  | |- counted _ (or_else (join_empty (map _ _)) _) _ =>
      apply counted_items_or_none;
      [ intros ?; unfold missingItem, riskyItem, unusedItem; count_items
      | count_literal ]
  | |- _ => count_literal
  end.

(** X19.  Each of the three lists of the markup report shows one item
    per entry of its own report list, or the single "None" item when
    that list is empty: the list under "Critical: Missing env vars"
    counts the missing names, the list under "Warnings: Risky usage"
    the risk findings, the list under "Info: Unused env vars" the
    unused names; and the report holds no other item. *)
Theorem report_items_counted :
  forall (used : UsageIndex) (r : Report),
    let page := html used r in
    let missingList :=
      or_else (join_empty (map (missingItem used) (missing r))) none_item in
    let riskyList :=
      or_else (join_empty (map riskyItem (risky r))) none_item in
    let unusedList :=
      or_else (join_empty (map unusedItem (unused r))) none_item in
    (shows_section page (lit "Critical: Missing env vars") missingList /\
     count_sub (lit "<li>") missingList = Nat.max 1 (length (missing r))) /\
    (shows_section page (lit "Warnings: Risky usage") riskyList /\
     count_sub (lit "<li>") riskyList = Nat.max 1 (length (risky r))) /\
    (shows_section page (lit "Info: Unused env vars") unusedList /\
     count_sub (lit "<li>") unusedList = Nat.max 1 (length (unused r))) /\
    count_sub (lit "<li>") page =
      Nat.max 1 (length (missing r)) + Nat.max 1 (length (risky r))
      + Nat.max 1 (length (unused r)).
Proof.
  intros used r page missingList riskyList unusedList.
  subst page missingList riskyList unusedList.
  destruct (html_tiles_and_sections used r)
    as (_ & _ & _ & _ & _ & _ & _ & _ & Sm & Sr & Su).
  split; [|split; [|split]].
  - split; [exact Sm|].
    apply (counted_total 60 (lit "li>")). count_items.
  - split; [exact Sr|].
    apply (counted_total 60 (lit "li>")). count_items.
  - split; [exact Su|].
    apply (counted_total 60 (lit "li>")). count_items.
  - assert (H : exists n,
               counted (60%N :: lit "li>") (html used r) n /\
               n = Nat.max 1 (length (missing r))
                   + Nat.max 1 (length (risky r))
                   + Nat.max 1 (length (unused r))).
    { eexists. split.
      - unfold html, html_tiles, tile, html_section. count_items.
      - lia. }
    destruct H as (n & Hn & ->).
    apply (counted_total 60 (lit "li>")), Hn.
Qed.

(** ** More on escaping *)

Section EscapingMore.

Lemma escape_unit_cancel (c1 c2 : N) (r1 r2 : jsstring) :
  escape_unit c1 ++ r1 = escape_unit c2 ++ r2 -> c1 = c2 /\ r1 = r2.
Proof.
  unfold escape_unit.
  repeat match goal with
         | |- context [N.eqb ?c ?n] => destruct (N.eqb_spec c n); [subst|]
         end;
    cbn; intros H; inversion H; subst; try (split; reflexivity);
    congruence.
Qed.

Lemma escape_unit_length (c : N) :
  1 <= length (escape_unit c) /\
  (length (escape_unit c) = 1 <-> ~ In c [38; 60; 62; 34; 39]%N) /\
  (~ In c [38; 60; 62; 34; 39]%N -> escape_unit c = [c]).
Proof.
  unfold escape_unit.
  repeat match goal with
         | |- context [N.eqb ?c ?n] => destruct (N.eqb_spec c n); [subst|]
         end;
    cbn; (split; [lia|]); (split; [split|]);
    try lia; try tauto; try reflexivity; intuition congruence.
Qed.

End EscapingMore.

(** X20.  Escaping loses nothing: two different texts never have the
    same escaped form. *)
Theorem escapeHtml_injective :
  forall (a b : jsstring), escapeHtml a = escapeHtml b -> a = b.
Proof.
  intros a b. rewrite !escapeHtml_flat_map. revert b.
  induction a as [|x a IH]; intros [|y b]; simpl; intros H.
  - reflexivity.
  - exfalso. destruct (escape_unit_length y) as [Hl _].
    destruct (escape_unit y); [simpl in Hl; lia | discriminate].
  - exfalso. destruct (escape_unit_length x) as [Hl _].
    destruct (escape_unit x); [simpl in Hl; lia | discriminate].
  - apply escape_unit_cancel in H. destruct H as [-> H].
    f_equal. apply IH, H.
Qed.

(** X21.  Escaping never shortens a text, and it leaves a text
    unchanged exactly when the text holds none of the five units
    [&], [<], [>], double quote and single quote. *)
Theorem escapeHtml_identity :
  forall (s : jsstring),
    length s <= length (escapeHtml s) /\
    (escapeHtml s = s <->
     forall c, In c s -> ~ In c [38; 60; 62; 34; 39]%N).
Proof.
  intros s. rewrite escapeHtml_flat_map.
  assert (G : length s <= length (flat_map escape_unit s) /\
              (length (flat_map escape_unit s) = length s ->
               forall c, In c s -> ~ In c [38; 60; 62; 34; 39]%N) /\
              ((forall c, In c s -> ~ In c [38; 60; 62; 34; 39]%N) ->
               flat_map escape_unit s = s)).
  { induction s as [|x s (IH1 & IH2 & IH3)]; simpl.
    - split; [lia|]. split; [intros _ c []| reflexivity].
    - destruct (escape_unit_length x) as (L1 & L2 & L3).
      rewrite length_app. split; [lia|]. split.
      + intros E c [<- | Hc].
        * apply L2. lia.
        * apply IH2; [lia | exact Hc].
      + intros H. rewrite L3 by (apply H; now left).
        simpl. f_equal. apply IH3. intros c Hc. apply H. now right. }
  destruct G as (G1 & G2 & G3). split; [exact G1|]. split; [|exact G3].
  intros E. apply G2. now rewrite E.
Qed.

(** ** More on the env-list parser *)

Section Trimming.

Lemma trimStart_spec (s : jsstring) :
  exists pre, s = pre ++ trimStart s /\ forallb is_space pre = true /\
              match trimStart s with
              | c :: _ => is_space c = false
              | [] => True
              end.
Proof.
  induction s as [|c s (pre & E & Hp & Hh)]; simpl.
  - exists []. auto.
  - destruct (is_space c) eqn:Ec.
    + exists (c :: pre). simpl. rewrite Ec, Hp. split; [now f_equal|auto].
    + exists []. simpl. auto.
Qed.

Lemma trimEnd_spec (s : jsstring) :
  exists post, s = trimEnd s ++ post /\ forallb is_space post = true /\
               match rev (trimEnd s) with
               | c :: _ => is_space c = false
               | [] => True
               end.
Proof.
  unfold trimEnd. destruct (trimStart_spec (rev s)) as (pre & E & Hp & Hh).
  exists (rev pre). rewrite rev_involutive. repeat split.
  - rewrite <- rev_app_distr, <- E. now rewrite rev_involutive.
  - rewrite forallb_forall in *. intros c Hc. apply Hp, in_rev, Hc.
  - exact Hh.
Qed.

Lemma trim_In (s : jsstring) (c : N) : In c (trim s) -> In c s.
Proof.
  unfold trim. intros H.
  destruct (trimEnd_spec (trimStart s)) as (post & E & _).
  destruct (trimStart_spec s) as (pre & E' & _).
  rewrite E', E. apply in_or_app. right. apply in_or_app. now left.
Qed.

(** A trimmed text neither starts nor ends with white space. *)
Lemma trim_ends (s : jsstring) :
  match trim s with c :: _ => is_space c = false | [] => True end /\
  match rev (trim s) with c :: _ => is_space c = false | [] => True end.
Proof.
  unfold trim.
  destruct (trimEnd_spec (trimStart s)) as (post & E & _ & Hlast).
  destruct (trimStart_spec s) as (pre & _ & _ & Hhead).
  split; [|exact Hlast].
  destruct (trimEnd (trimStart s)) as [|c t]; [exact I|].
  rewrite E in Hhead. exact Hhead.
Qed.

Lemma trim_idempotent (s : jsstring) : trim (trim s) = trim s.
Proof. apply trim_id; apply trim_ends. Qed.

(** The head of a text that does not start with white space survives
    trimming. *)
Lemma trim_keeps_head (c : N) (s : jsstring) :
  is_space c = false -> exists t, trim (c :: s) = c :: t.
Proof.
  intros Hc. unfold trim. cbn [trimStart]. rewrite Hc.
  destruct (trimEnd_spec (c :: s)) as (post & E & Hp & _).
  destruct (trimEnd (c :: s)) as [|d t].
  - simpl in E. subst post. simpl in Hp. rewrite Hc in Hp. discriminate.
  - inversion E. now exists t.
Qed.

Lemma trim_final_space (s : jsstring) (c : N) :
  is_space c = true -> trim (s ++ [c]) = trim s.
Proof.
  intros Hc. unfold trim.
  assert (E : trimStart (s ++ [c]) =
              match trimStart s with
              | [] => []
              | _ :: _ => trimStart s ++ [c]
              end).
  { induction s as [|x s IH]; simpl.
    - now rewrite Hc.
    - destruct (is_space x); [exact IH | reflexivity]. }
  rewrite E. destruct (trimStart s) as [|x t]; [reflexivity|].
  unfold trimEnd. rewrite rev_app_distr. simpl rev at 1.
  cbn [app trimStart]. now rewrite Hc.
Qed.

End Trimming.

Section EnvListMore.

Lemma split_nl_app (a b : jsstring) :
  split_nl (a ++ 10%N :: b) = split_nl a ++ split_nl b.
Proof.
  induction a as [|c a IH]; [reflexivity|].
  cbn [app split_nl]. rewrite IH.
  destruct (N.eqb c 10); [reflexivity|].
  destruct (split_nl a) as [|h t] eqn:E; [|reflexivity].
  exfalso. apply (f_equal (@length _)) in E.
  rewrite split_nl_length in E. discriminate.
Qed.

Lemma split_nl_no_newline (s l : jsstring) :
  In l (split_nl s) -> ~ In 10%N l.
Proof.
  revert l; induction s as [|c s IH]; intros l; cbn [split_nl].
  - intros [<- | []]. tauto.
  - destruct (N.eqb_spec c 10) as [->|Hc].
    + intros [<- | H]; [tauto | now apply IH].
    + destruct (split_nl s) as [|h t] eqn:E.
      * intros [<- | []]. intros [E1 | []]. congruence.
      * intros [<- | H].
        -- intros [E1 | H1]; [congruence|]. apply (IH h); [now left | exact H1].
        -- apply IH. now right.
Qed.

Lemma join_split_nl (s : jsstring) : join_nl (split_nl s) = s.
Proof.
  induction s as [|c s IH]; [reflexivity|]. cbn [split_nl].
  destruct (N.eqb_spec c 10) as [->|Hc].
  - destruct (split_nl s) as [|h t] eqn:E.
    + apply (f_equal (@length _)) in E. rewrite split_nl_length in E.
      discriminate.
    + change (join_nl ([] :: h :: t)) with (10%N :: join_nl (h :: t)).
      now rewrite IH.
  - destruct (split_nl s) as [|h [|h' t]] eqn:E.
    + apply (f_equal (@length _)) in E. rewrite split_nl_length in E.
      discriminate.
    + simpl in *. now rewrite IH.
    + change (join_nl ((c :: h) :: h' :: t))
        with (c :: (h ++ 10%N :: join_nl (h' :: t))).
      change (join_nl (h :: h' :: t))
        with (h ++ 10%N :: join_nl (h' :: t)) in IH.
      now rewrite IH.
Qed.

Lemma indexOf_firstn (c : N) (s : jsstring) (n : nat) :
  indexOf c s = Some n -> ~ In c (firstn n s).
Proof.
  revert n; induction s as [|x s IH]; intros n; simpl; [discriminate|].
  destruct (N.eqb_spec x c) as [->|Hx].
  - intros H; inversion H. simpl. tauto.
  - destruct (indexOf c s) as [i|]; [|discriminate].
    intros H; inversion H; subst. simpl. intros [E | Hin]; [congruence|].
    now apply (IH i).
Qed.

Lemma spec_line_key_In (ls : list jsstring) (k : jsstring) :
  In k (flat_map (fun raw => match spec_line_key raw with
                             | Some k => [k]
                             | None => []
                             end) ls) <->
  exists raw, In raw ls /\ spec_line_key raw = Some k.
Proof.
  rewrite in_flat_map. split; intros (raw & Hin & H); exists raw;
    (split; [exact Hin|]).
  - destruct (spec_line_key raw); [|destruct H].
    destruct H as [<- | []]. reflexivity.
  - rewrite H. now left.
Qed.

Lemma parseEnvKeys_In_line (envText k : jsstring) :
  In k (parseEnvKeys envText) <->
  k <> [] /\ exists raw, In raw (split_nl envText) /\
                         spec_line_key raw = Some k.
Proof.
  unfold parseEnvKeys. rewrite fold_parseEnvKeys_In, spec_line_key_In.
  simpl. tauto.
Qed.

End EnvListMore.

(** X22.  Parsing two env texts put one after the other, a newline in
    between, declares exactly the keys of the first and the keys of
    the second. *)
Theorem parseEnvKeys_concatenation :
  forall (a b k : jsstring),
    In k (parseEnvKeys (a ++ 10%N :: b)) <->
    In k (parseEnvKeys a) \/ In k (parseEnvKeys b).
Proof.
  intros a b k. rewrite !parseEnvKeys_In_line, split_nl_app.
  split.
  - intros (Hk & raw & Hin & H). apply in_app_or in Hin.
    destruct Hin as [Hin | Hin]; [left | right];
      (split; [exact Hk | now exists raw]).
  - intros [(Hk & raw & Hin & H) | (Hk & raw & Hin & H)];
      (split; [exact Hk|]); exists raw;
      (split; [apply in_or_app; auto | exact H]).
Qed.

(** X23.  Every declared key is clean: it is not empty, holds no [=]
    and no newline, neither starts nor ends with white space, and does
    not start with [#]. *)
Theorem declared_keys_clean :
  forall (envText k : jsstring),
    In k (parseEnvKeys envText) ->
    k <> [] /\ ~ In 61%N k /\ ~ In 10%N k /\ trim k = k /\
    startsWith (lit "#") k = false.
Proof.
  intros envText k Hk. apply parseEnvKeys_In_line in Hk.
  destruct Hk as (Hne & raw & Hraw & Hkey).
  unfold spec_line_key in Hkey.
  destruct (trim raw) as [|c line] eqn:El; [discriminate|].
  destruct (startsWith (lit "#") (c :: line)) eqn:Eh; [discriminate|].
  destruct (indexOf 61 (c :: line)) as [eq|] eqn:Ei; [|discriminate].
  injection Hkey as Ek. subst k.
  split; [exact Hne|]. split; [|split; [|split]].
  - intros Hin. apply trim_In in Hin.
    exact (indexOf_firstn _ _ _ Ei Hin).
  - intros Hin. apply trim_In in Hin.
    unfold slice0 in Hin.
    assert (Hline : In 10%N (c :: line)).
    { rewrite <- (firstn_skipn eq (c :: line)). apply in_or_app. now left. }
    rewrite <- El in Hline. apply trim_In in Hline.
    exact (split_nl_no_newline _ _ Hraw Hline).
  - apply trim_idempotent.
  - destruct eq as [|eq]; [now destruct Hne|].
    assert (Hc : is_space c = false).
    { pose proof (trim_ends raw) as [Hh _]. now rewrite El in Hh. }
    unfold slice0. cbn [firstn].
    destruct (trim_keeps_head c (firstn eq line) Hc) as [t ->].
    change (lit "#") with [35%N] in *. cbn [startsWith] in *.
    destruct (N.eqb 35 c); [discriminate Eh | reflexivity].
Qed.

Section WindowsLineEnds.

Lemma crlf_line (x : jsstring) : ~ In 10%N x -> crlf x = x.
Proof.
  unfold crlf. induction x as [|c x IH]; intros H; simpl; [reflexivity|].
  destruct (N.eqb_spec c 10) as [->|Hc]; [exfalso; apply H; now left|].
  simpl. f_equal. apply IH. intros Hin. apply H. now right.
Qed.

Lemma split_nl_single (x : jsstring) : ~ In 10%N x -> split_nl x = [x].
Proof.
  induction x as [|c x IH]; intros H; [reflexivity|]. cbn [split_nl].
  destruct (N.eqb_spec c 10) as [->|Hc]; [exfalso; apply H; now left|].
  rewrite IH; [reflexivity|]. intros Hin. apply H. now right.
Qed.

Lemma parseEnvKeys_step_cr (keys : list jsstring) (x : jsstring) :
  parseEnvKeys_step keys (x ++ [13%N]) = parseEnvKeys_step keys x.
Proof.
  unfold parseEnvKeys_step. now rewrite trim_final_space.
Qed.

Lemma fold_crlf (ls : list jsstring) :
  ls <> [] -> Forall (fun l => ~ In 10%N l) ls ->
  forall keys,
    fold_left parseEnvKeys_step (split_nl (crlf (join_nl ls))) keys =
    fold_left parseEnvKeys_step ls keys.
Proof.
  intros Hne Hall. revert Hne.
  induction Hall as [|x r Hx Hr IH]; intros Hne keys; [now destruct Hne|].
  destruct r as [|y r'].
  - cbn [join_nl]. now rewrite (crlf_line x Hx), (split_nl_single x Hx).
  - change (join_nl (x :: y :: r')) with (x ++ 10%N :: join_nl (y :: r')).
    unfold crlf. rewrite replaceAll_app. fold (crlf x).
    cbn [replaceAll N.eqb Pos.eqb]. fold (crlf (join_nl (y :: r'))).
    rewrite (crlf_line x Hx).
    change (x ++ [13%N; 10%N] ++ crlf (join_nl (y :: r')))
      with (x ++ [13%N] ++ 10%N :: crlf (join_nl (y :: r'))).
    rewrite app_assoc, split_nl_app, fold_left_app.
    rewrite (split_nl_single (x ++ [13%N])).
    + cbn [fold_left]. rewrite parseEnvKeys_step_cr.
      apply IH. discriminate.
    + intros Hin. apply in_app_or in Hin.
      destruct Hin as [Hin | [E | []]]; [now apply Hx | discriminate].
Qed.

End WindowsLineEnds.

(** X24.  An env list saved with Windows line ends declares the same
    keys, in the same order, as the same list with plain newlines. *)
Theorem parseEnvKeys_crlf :
  forall (envText : jsstring),
    parseEnvKeys (crlf envText) = parseEnvKeys envText.
Proof.
  intros envText. unfold parseEnvKeys.
  rewrite <- (join_split_nl envText) at 1.
  apply fold_crlf.
  - intros E. apply (f_equal (@length _)) in E.
    rewrite split_nl_length in E. discriminate.
  - apply Forall_forall. intros l Hl. exact (split_nl_no_newline _ _ Hl).
Qed.

(** ** Sensitive names *)

Section SensitiveNames.

Lemma startsWith_prefix (p q s : jsstring) :
  startsWith (p ++ q) s = true -> startsWith p s = true.
Proof.
  revert s; induction p as [|x p IH]; intros s; [reflexivity|].
  destruct s as [|y s]; simpl; [discriminate|].
  rewrite !andb_true_iff. intros [E H]. split; [exact E | now apply IH].
Qed.

Lemma includes_prefix (p q s : jsstring) :
  includes (p ++ q) s = true -> includes p s = true.
Proof.
  induction s as [|y s IH]; cbn [includes]; rewrite !orb_true_iff.
  - intros [H | H]; [left; eapply startsWith_prefix, H | discriminate].
  - intros [H | H]; [left; eapply startsWith_prefix, H | right; auto].
Qed.

Lemma startsWith_app (p s b : jsstring) :
  startsWith p s = true -> startsWith p (s ++ b) = true.
Proof.
  revert s; induction p as [|x p IH]; intros s; [reflexivity|].
  destruct s as [|y s]; simpl; [discriminate|].
  rewrite !andb_true_iff. intros [E H]. split; [exact E | now apply IH].
Qed.

Lemma includes_app_r (p s b : jsstring) :
  includes p s = true -> includes p (s ++ b) = true.
Proof.
  induction s as [|y s IH]; cbn [includes app].
  - rewrite orb_false_r. intros H. destruct p; [|discriminate].
    destruct b; reflexivity.
  - rewrite !orb_true_iff. intros [H | H].
    + left. apply (startsWith_app p (y :: s) b H).
    + right. apply IH, H.
Qed.

Lemma includes_app_l (p a s : jsstring) :
  includes p s = true -> includes p (a ++ s) = true.
Proof.
  intros H. induction a as [|x a IH]; [exact H|].
  cbn [app includes]. rewrite IH. apply orb_true_r.
Qed.

End SensitiveNames.

(** X25.  The sensitive-name test is a substring test that ignores
    the case of ASCII letters: the keyword PASSWORD adds nothing to
    PASS; a name that holds a sensitive name is sensitive; and two
    names that differ only in letter case get the same answer. *)
Theorem sensitive_name_facts :
  forall (k : jsstring),
    looksSensitiveName k =
      existsb (fun w => includes_i w k)
        [lit "KEY"; lit "TOKEN"; lit "SECRET"; lit "PRIVATE"; lit "PASS";
         lit "AUTH"] /\
    (forall pre post,
        looksSensitiveName k = true ->
        looksSensitiveName (pre ++ k ++ post) = true) /\
    (forall k', map fold_case k' = map fold_case k ->
                looksSensitiveName k' = looksSensitiveName k).
Proof.
  intros k. split; [|split].
  - unfold looksSensitiveName, sensitive_words. cbn [existsb].
    assert (H : includes_i (lit "PASSWORD") k = true ->
                includes_i (lit "PASS") k = true).
    { unfold includes_i.
      change (lit "PASSWORD") with (lit "PASS" ++ lit "WORD").
      apply includes_prefix. }
    destruct (includes_i (lit "PASSWORD") k);
      [rewrite (H eq_refl)|]; cbn [orb]; rewrite ?orb_true_r; reflexivity.
  - intros pre post. unfold looksSensitiveName.
    rewrite !existsb_exists. intros (w & Hw & Hin). exists w.
    split; [exact Hw|]. unfold includes_i in *. rewrite !map_app.
    apply includes_app_l, includes_app_r, Hin.
  - intros k' E. unfold looksSensitiveName, includes_i. now rewrite E.
Qed.

(** ** The root of an extracted archive *)

Section ProjectRoot.

Variable path_join : jsstring -> jsstring -> jsstring.
Variable extractDir : jsstring.

Lemma filter_Permutation {A} (f : A -> bool) (l l' : list A) :
  Permutation l l' -> Permutation (filter f l) (filter f l').
Proof.
  induction 1 as [|x l l' _ IH|x y l|l l' l'' _ IH1 _ IH2]; simpl.
  - constructor.
  - destruct (f x); [now constructor | exact IH].
  - destruct (f x), (f y); try apply Permutation_refl. apply perm_swap.
  - eapply Permutation_trans; eauto.
Qed.

Lemma pickProjectRoot_perm (l l' : list Dirent) :
  Permutation l l' ->
  pickProjectRoot path_join extractDir l =
  pickProjectRoot path_join extractDir l'.
Proof.
  intros H. unfold pickProjectRoot.
  set (kept := fun e => negb (str_eqb (name e) (lit "__MACOSX"))).
  apply (filter_Permutation kept) in H.
  destruct (filter kept l) as [|e [|e2 r]].
  - apply Permutation_nil in H. now rewrite H.
  - apply Permutation_length_1_inv in H. now rewrite H.
  - pose proof (Permutation_length H) as Hl.
    destruct (filter kept l') as [|e' [|e2' r']]; try discriminate.
    reflexivity.
Qed.

End ProjectRoot.

(** X26.  The project root picked in an extracted archive: entries
    named [__MACOSX] never count, wherever they are in the listing;
    the order of the listing does not matter; the root moves into an
    entry only when that entry is a directory and is the only other
    entry; with none or with two or more other entries it is the
    extraction directory itself. *)
Theorem project_root_choice :
  forall (path_join : jsstring -> jsstring -> jsstring)
         (extractDir : jsstring) (before after : list Dirent) (m : Dirent),
    let pick := pickProjectRoot path_join extractDir in
    (name m = lit "__MACOSX" ->
     pick (before ++ m :: after) = pick (before ++ after)) /\
    (forall l l', Permutation l l' -> pick l = pick l') /\
    (pick (before ++ after) <> extractDir ->
     exists e, In e (before ++ after) /\ isDirectory e = true /\
               name e <> lit "__MACOSX" /\
               pick (before ++ after) = path_join extractDir (name e) /\
               forall e', In e' (before ++ after) ->
                          name e' <> lit "__MACOSX" -> e' = e) /\
    (forall e1 e2 l,
        name e1 <> lit "__MACOSX" -> name e2 <> lit "__MACOSX" ->
        pick (e1 :: e2 :: l) = extractDir).
Proof.
  intros path_join extractDir before after m pick. subst pick.
  split; [|split; [|split]].
  - intros Hm. unfold pickProjectRoot. rewrite !filter_app. cbn [filter].
    rewrite Hm, str_eqb_refl. reflexivity.
  - intros l l'. apply pickProjectRoot_perm.
  - unfold pickProjectRoot.
    set (kept := fun e => negb (str_eqb (name e) (lit "__MACOSX"))).
    destruct (filter kept (before ++ after)) as [|e [|e2 r]] eqn:E;
      try congruence.
    destruct (isDirectory e) eqn:Ed; [|congruence].
    intros _. exists e.
    assert (He : In e (filter kept (before ++ after)))
      by (rewrite E; now left).
    apply filter_In in He. destruct He as [Hin Hk].
    split; [exact Hin|]. split; [exact Ed|].
    split; [now apply str_eqb_neq, negb_true_iff|].
    split; [reflexivity|].
    intros e' Hin' Hn'.
    assert (He' : In e' (filter kept (before ++ after))).
    { apply filter_In. split; [exact Hin'|].
      now apply negb_true_iff, str_eqb_neq. }
    rewrite E in He'. destruct He' as [<- | []]. reflexivity.
  - intros e1 e2 l H1 H2. unfold pickProjectRoot. cbn [filter].
    apply str_eqb_neq in H1, H2. rewrite H1, H2. reflexivity.
Qed.

(** ** The recorded line holds the reference *)

Section LineOfMatch.

Lemma split_nl_nonempty (s : jsstring) : split_nl s <> [].
Proof.
  intros E. apply (f_equal (@length _)) in E.
  rewrite split_nl_length in E. discriminate.
Qed.

Lemma last_cons_nonempty {A} (x : A) (l : list A) (d : A) :
  l <> [] -> last (x :: l) d = last l d.
Proof. destruct l; [congruence | reflexivity]. Qed.

(** The line on which a text is cut in two is the last line of the
    first part followed by the first line of the second part. *)
Lemma line_at_cut (pre tail : jsstring) :
  nth_error (split_nl (pre ++ tail))
            (length (filter (fun c => N.eqb c 10) pre)) =
  Some (last (split_nl pre) [] ++ hd [] (split_nl tail)).
Proof.
  induction pre as [|c p IH].
  - simpl. destruct (split_nl tail) eqn:E; [|reflexivity].
    now destruct (split_nl_nonempty tail).
  - cbn [app split_nl filter].
    destruct (N.eqb c 10) eqn:Ec.
    + cbn [length nth_error]. rewrite IH. do 2 f_equal.
      symmetry. apply last_cons_nonempty, split_nl_nonempty.
    + pose proof (split_nl_length p) as Lp.
      destruct (split_nl (p ++ tail)) as [|h t] eqn:E;
        [now destruct (split_nl_nonempty (p ++ tail))|].
      destruct (split_nl p) as [|h' t'] eqn:E';
        [now destruct (split_nl_nonempty p)|].
      destruct (length (filter (fun c => N.eqb c 10) p)) as [|n] eqn:En.
      * simpl in Lp. destruct t'; [|discriminate].
        simpl in IH |- *. inversion IH. reflexivity.
      * simpl in Lp. destruct t' as [|h'' t'']; [discriminate|].
        simpl in IH |- *. exact IH.
Qed.

Lemma first_line_app (m rest : jsstring) :
  ~ In 10%N m ->
  hd [] (split_nl (m ++ rest)) = m ++ hd [] (split_nl rest).
Proof.
  induction m as [|c m IH]; intros H; [reflexivity|].
  cbn [app split_nl].
  destruct (N.eqb_spec c 10) as [->|Hc]; [exfalso; apply H; now left|].
  destruct (split_nl (m ++ rest)) as [|h t] eqn:E;
    [now destruct (split_nl_nonempty (m ++ rest))|].
  simpl in *. f_equal. apply IH. intros Hin. apply H. now right.
Qed.

Lemma line_holds (text pre m rest : jsstring) :
  text = pre ++ m ++ rest -> ~ In 10%N m ->
  exists l,
    nth_error (split_nl text) (getLineNumber text (length pre) - 1) = Some l /\
    includes m l = true.
Proof.
  intros -> Hm.
  exists (last (split_nl pre) [] ++ m ++ hd [] (split_nl rest)). split.
  - unfold getLineNumber, slice0.
    rewrite firstn_app, firstn_all, Nat.sub_diag, firstn_O, app_nil_r.
    rewrite split_nl_length. cbn [Nat.sub]. rewrite Nat.sub_0_r.
    rewrite line_at_cut, first_line_app by exact Hm. reflexivity.
  - apply includes_app_l, includes_app_r.
    destruct m as [|c m]; [reflexivity|].
    cbn [includes]. apply orb_true_iff. left.
    clear Hm. revert c. induction m as [|d m IH]; intros c; simpl;
      rewrite N.eqb_refl; [reflexivity | apply IH].
Qed.

Lemma name_no_newline (k : jsstring) :
  forallb is_env_unit k = true -> ~ In 10%N k.
Proof.
  rewrite forallb_forall. intros H Hin. apply H in Hin. discriminate.
Qed.

End LineOfMatch.

(** X27.  The line recorded for a match is the line of the text that
    holds it: for a dot-access match of a name the line of that
    number contains [process.env.] followed by the name, and for a
    bracket-access match it contains [process.env[], a quote and the
    name. *)
Theorem recorded_line_holds_reference :
  forall (text k : jsstring) (i : nat),
    (In (k, i) (matchAll reDot text) ->
     exists l,
       nth_error (split_nl text) (getLineNumber text i - 1) = Some l /\
       includes (lit "process.env." ++ k) l = true) /\
    (In (k, i) (matchAll reBracket text) ->
     exists l q,
       nth_error (split_nl text) (getLineNumber text i - 1) = Some l /\
       is_quote q = true /\
       includes (lit "process.env[" ++ q :: k) l = true).
Proof.
  intros text k i. split.
  - intros H. apply (matchAll_exact reDot reDot_apart) in H.
    destruct H as (Hi & len & H). apply reDot_text in H.
    destruct H as (rest & E & [_ Hu] & _ & _).
    assert (Et : text = firstn i text ++ (lit "process.env." ++ k) ++ rest).
    { rewrite <- app_assoc, <- E. symmetry. apply firstn_skipn. }
    assert (Hl : length (firstn i text) = i)
      by (apply firstn_length_le; lia).
    destruct (line_holds _ _ _ _ Et) as (l & H1 & H2).
    + intros Hin. apply in_app_or in Hin. destruct Hin as [Hin | Hin].
      * vm_compute in Hin. intuition discriminate.
      * exact (name_no_newline k Hu Hin).
    + exists l. rewrite Hl in H1. auto.
  - intros H. apply (matchAll_exact reBracket reBracket_apart) in H.
    destruct H as (Hi & len & H). apply reBracket_text in H.
    destruct H as (q1 & q2 & rest & E & Hq1 & _ & [_ Hu] & _).
    assert (Et : text = firstn i text ++ (lit "process.env[" ++ q1 :: k)
                          ++ q2 :: 93%N :: rest).
    { rewrite <- app_assoc. cbn [app] in E |- *.
      rewrite <- E. symmetry. apply firstn_skipn. }
    assert (Hl : length (firstn i text) = i)
      by (apply firstn_length_le; lia).
    destruct (line_holds _ _ _ _ Et) as (l & H1 & H2).
    + intros Hin. apply in_app_or in Hin. destruct Hin as [Hin | [E1 | Hin]].
      * vm_compute in Hin. intuition discriminate.
      * subst q1. discriminate.
      * exact (name_no_newline k Hu Hin).
    + exists l, q1. rewrite Hl in H1. auto.
Qed.

(** ** The further properties on the sample project *)

Lemma occurrence_provenance_witness :
  In (lit "STRIPE_SECRET_KEY",
      [mkOcc (lit "app/dashboard/page.tsx") 3 true false])
     (extract Sample.files) /\
  exists text,
    In (lit "app/dashboard/page.tsx", Some text) Sample.files /\
    true = isClientText text /\
    false = isServerPath (lit "app/dashboard/page.tsx") /\
    1 <= 3 <= length (split_nl text).
Proof.
  assert (H : In (lit "STRIPE_SECRET_KEY",
                  [mkOcc (lit "app/dashboard/page.tsx") 3 true false])
                 (extract Sample.files)) by (vm_compute; auto).
  split; [exact H|].
  apply (occurrence_provenance Sample.files (lit "STRIPE_SECRET_KEY")
           [mkOcc (lit "app/dashboard/page.tsx") 3 true false]
           (mkOcc (lit "app/dashboard/page.tsx") 3 true false) H).
  now left.
Defined.

Lemma usage_index_invariant_witness :
  In (lit "STRIPE_SECRET_KEY",
      [mkOcc (lit "app/dashboard/page.tsx") 3 true false])
     (extract Sample.files) /\
  env_name (lit "STRIPE_SECRET_KEY") /\
  [mkOcc (lit "app/dashboard/page.tsx") 3 true false] <> [] /\
  map_get (lit "STRIPE_SECRET_KEY") (extract Sample.files) =
    Some [mkOcc (lit "app/dashboard/page.tsx") 3 true false].
Proof.
  assert (H : In (lit "STRIPE_SECRET_KEY",
                  [mkOcc (lit "app/dashboard/page.tsx") 3 true false])
                 (extract Sample.files)) by (vm_compute; auto).
  split; [exact H|].
  exact (proj2 (usage_index_invariant Sample.files) _ _ H).
Defined.

Lemma line_numbers_follow_text_witness :
  (20 <= 60 /\
   getLineNumber Sample.page_text 20 <= getLineNumber Sample.page_text 60) /\
  (length Sample.page_text <= 500 /\
   getLineNumber Sample.page_text 500 = length (split_nl Sample.page_text)).
Proof.
  split.
  - assert (H : 20 <= 60) by lia. split; [exact H|].
    exact (proj1 (proj2 (line_numbers_follow_text Sample.page_text 20)) 60 H).
  - assert (H : length Sample.page_text <= 500) by (vm_compute; lia).
    split; [exact H|].
    exact (proj2 (proj2 (proj2 (proj2
             (line_numbers_follow_text Sample.page_text 500)))) H).
Defined.

Lemma secret_name_in_exposed_path_witness :
  exists run,
    main (lit "proj") Sample.files EnvAbsent = Some run /\
    In (lit "STRIPE_SECRET_KEY") (map_keys (locationsByEnvVar (report run))) /\
    ~ In (lit "STRIPE_SECRET_KEY") (missing (report run)) /\
    ((exists f, In f (risky (report run)) /\
                type f = type_exposed /\ key f = lit "STRIPE_SECRET_KEY") <->
     (looksSensitiveName (lit "STRIPE_SECRET_KEY") = true /\
      exists o,
        In o (locations (lit "STRIPE_SECRET_KEY")
                        (locationsByEnvVar (report run))) /\
        isLikelyClientExposedPath (file o) = true)).
Proof.
  eexists. split; [vm_compute; reflexivity|].
  assert (Hk : In (lit "STRIPE_SECRET_KEY") (map_keys (extract Sample.files)))
    by (vm_compute; auto).
  assert (Hm : ~ In (lit "STRIPE_SECRET_KEY") []) by (intros []).
  split; [exact Hk|]. split; [exact Hm|].
  exact (proj1 (secret_name_in_exposed_path (lit "proj") Sample.files
                  EnvAbsent _ (lit "STRIPE_SECRET_KEY")
                  ltac:(vm_compute; reflexivity) Hk Hm)).
Defined.

Lemma public_name_looks_sensitive_witness :
  exists run,
    main (lit "proj") Sample.files EnvAbsent = Some run /\
    In (lit "NEXT_PUBLIC_API_BASE")
       (map_keys (locationsByEnvVar (report run))) /\
    ~ In (lit "NEXT_PUBLIC_API_BASE") (missing (report run)) /\
    ((exists f, In f (risky (report run)) /\
                type f = type_public_sensitive /\
                key f = lit "NEXT_PUBLIC_API_BASE") <->
     (isPublicName (lit "NEXT_PUBLIC_API_BASE") = true /\
      looksSensitiveName (lit "NEXT_PUBLIC_API_BASE") = true)).
Proof.
  eexists. split; [vm_compute; reflexivity|].
  assert (Hk : In (lit "NEXT_PUBLIC_API_BASE")
                  (map_keys (extract Sample.files)))
    by (vm_compute; auto).
  assert (Hm : ~ In (lit "NEXT_PUBLIC_API_BASE") []) by (intros []).
  split; [exact Hk|]. split; [exact Hm|].
  exact (proj1 (public_name_looks_sensitive (lit "proj") Sample.files
                  EnvAbsent _ (lit "NEXT_PUBLIC_API_BASE")
                  ltac:(vm_compute; reflexivity) Hk Hm)).
Defined.

Lemma secret_in_client_component_witness :
  exists run,
    main (lit "proj") Sample.files EnvAbsent = Some run /\
    In (lit "STRIPE_SECRET_KEY") (map_keys (locationsByEnvVar (report run))) /\
    ~ In (lit "STRIPE_SECRET_KEY") (missing (report run)) /\
    ((exists f, In f (risky (report run)) /\
                type f = type_client /\ key f = lit "STRIPE_SECRET_KEY") <->
     ((exists o,
         In o (locations (lit "STRIPE_SECRET_KEY")
                         (locationsByEnvVar (report run))) /\
         isClient o = true) /\
      isPublicName (lit "STRIPE_SECRET_KEY") = false)).
Proof.
  eexists. split; [vm_compute; reflexivity|].
  assert (Hk : In (lit "STRIPE_SECRET_KEY") (map_keys (extract Sample.files)))
    by (vm_compute; auto).
  assert (Hm : ~ In (lit "STRIPE_SECRET_KEY") []) by (intros []).
  split; [exact Hk|]. split; [exact Hm|].
  exact (proj1 (secret_in_client_component (lit "proj") Sample.files
                  EnvAbsent _ (lit "STRIPE_SECRET_KEY")
                  ltac:(vm_compute; reflexivity) Hk Hm)).
Defined.

Lemma server_route_is_not_exposed_witness :
  isServerPath (lit "src/app/api/users/route.ts") = true /\
  isLikelyClientExposedPath (lit "src/app/api/users/route.ts") = false.
Proof.
  assert (H : isServerPath (lit "src/app/api/users/route.ts") = true)
    by (vm_compute; reflexivity).
  split; [exact H|].
  exact (proj1 (server_route_is_not_exposed
                  (lit "src/app/api/users/route.ts")) H).
Defined.

Lemma at_most_two_findings_per_name_witness :
  exists run,
    main (lit "proj") Sample.files EnvAbsent = Some run /\
    riskyCount (totals (report run))
      <= 2 * envVarsFound (totals (report run)).
Proof.
  eexists. split; [vm_compute; reflexivity|].
  apply (at_most_two_findings_per_name (lit "proj") Sample.files EnvAbsent).
  vm_compute; reflexivity.
Defined.

Lemma exclusive_findings_witness :
  exists run,
    main (lit "proj") Sample.files EnvAbsent = Some run /\
    In (mkRisk type_exposed (lit "STRIPE_SECRET_KEY")
               (lit "app/dashboard/page.tsx") 3 why_exposed)
       (risky (report run)) /\
    In (mkRisk type_client (lit "STRIPE_SECRET_KEY")
               (lit "app/dashboard/page.tsx") 3 why_client)
       (risky (report run)) /\
    (type_exposed = type_exposed -> type_client <> type_server_only).
Proof.
  eexists. split; [vm_compute; reflexivity|].
  match goal with
  | |- In ?f1 ?l /\ In ?f2 _ /\ _ =>
      assert (H1 : In f1 l) by (vm_compute; auto);
      assert (H2 : In f2 l) by (vm_compute; auto);
      split; [exact H1|]; split; [exact H2|];
      exact (proj2 (exclusive_findings (lit "proj") Sample.files EnvAbsent
                      _ f1 f2 ltac:(vm_compute; reflexivity) H1 H2 eq_refl))
  end.
Defined.

Lemma findings_cite_recorded_occurrences_witness :
  exists run,
    main (lit "proj") Sample.files EnvAbsent = Some run /\
    In (mkRisk type_client (lit "STRIPE_SECRET_KEY")
               (lit "app/dashboard/page.tsx") 3 why_client)
       (risky (report run)) /\
    In (lit "STRIPE_SECRET_KEY") (envVarsUsed (report run)) /\
    exists o,
      In o (locations (lit "STRIPE_SECRET_KEY")
                      (locationsByEnvVar (report run))) /\
      lit "app/dashboard/page.tsx" = file o /\ 3 = line o.
Proof.
  eexists. split; [vm_compute; reflexivity|].
  match goal with
  | |- In ?f ?l /\ _ =>
      assert (H : In f l) by (vm_compute; auto);
      split; [exact H|];
      destruct (findings_cite_recorded_occurrences (lit "proj") Sample.files
                  EnvAbsent _ f ltac:(vm_compute; reflexivity) H)
        as (A & B & _)
  end.
  split; [exact A | exact B].
Defined.

Lemma totals_count_the_lists_witness :
  exists run,
    main (lit "proj") Sample.files Sample.env = Some run /\
    envVarsFound (totals (report run)) = length (envVarsUsed (report run)) /\
    envVarsFound (totals (report run))
      = length (locationsByEnvVar (report run)) /\
    missingCount (totals (report run)) = length (missing (report run)) /\
    unusedCount (totals (report run)) = length (unused (report run)) /\
    riskyCount (totals (report run)) = length (risky (report run)).
Proof.
  eexists. split; [vm_compute; reflexivity|].
  apply (totals_count_the_lists (lit "proj") Sample.files Sample.env).
  vm_compute; reflexivity.
Defined.

Lemma report_lists_sorted_witness :
  exists run,
    main (lit "proj") Sample.files Sample.env = Some run /\
    (ascending (envVarsUsed (report run)) /\ NoDup (envVarsUsed (report run)))
    /\ (ascending (missing (report run)) /\ NoDup (missing (report run)))
    /\ (ascending (unused (report run)) /\ NoDup (unused (report run))).
Proof.
  eexists. split; [vm_compute; reflexivity|].
  apply (report_lists_sorted (lit "proj") Sample.files Sample.env).
  vm_compute; reflexivity.
Defined.

Lemma missing_and_unused_apart_witness :
  exists run,
    main (lit "proj") Sample.files Sample.env = Some run /\
    In (lit "STRIPE_SECRET_KEY") (missing (report run)) /\
    In (lit "STRIPE_SECRET_KEY") (envVarsUsed (report run)) /\
    ~ In (lit "STRIPE_SECRET_KEY") (unused (report run)).
Proof.
  eexists. split; [vm_compute; reflexivity|].
  match goal with
  | |- In ?k ?l /\ _ =>
      assert (H : In k l) by (vm_compute; auto);
      split; [exact H|];
      destruct (missing_and_unused_apart (lit "proj") Sample.files Sample.env
                  _ k ltac:(vm_compute; reflexivity)) as (A & _ & C)
  end.
  split; [exact (proj1 (A H))|].
  intros Hu. apply C. split; [exact H | exact Hu].
Defined.

Lemma listing_order_irrelevant_witness :
  exists run,
    Permutation Sample.files (rev Sample.files) /\
    main (lit "proj") Sample.files Sample.env = Some run /\
    exists run',
      main (lit "proj") (rev Sample.files) Sample.env = Some run' /\
      envVarsUsed (report run') = envVarsUsed (report run) /\
      missing (report run') = missing (report run) /\
      unused (report run') = unused (report run) /\
      example_generated run' = example_generated run.
Proof.
  eexists.
  assert (P : Permutation Sample.files (rev Sample.files))
    by apply Permutation_rev.
  split; [exact P|]. split; [vm_compute; reflexivity|].
  destruct (listing_order_irrelevant (lit "proj") Sample.files
              (rev Sample.files) Sample.env _ P
              ltac:(vm_compute; reflexivity))
    as (run' & H0 & H1 & H2 & H3 & H4 & _).
  exists run'. auto.
Defined.

Lemma escapeHtml_injective_witness :
  escapeHtml (lit "a<b") = escapeHtml (lit "a" ++ lit "<b") /\
  lit "a<b" = lit "a" ++ lit "<b".
Proof.
  assert (H : escapeHtml (lit "a<b") = escapeHtml (lit "a" ++ lit "<b"))
    by (vm_compute; reflexivity).
  split; [exact H | exact (escapeHtml_injective _ _ H)].
Defined.

Lemma declared_keys_clean_witness :
  In (lit "DB_URL") (parseEnvKeys (lit "# db
  DB_URL = postgres://db")) /\
  lit "DB_URL" <> [] /\ ~ In 61%N (lit "DB_URL") /\ ~ In 10%N (lit "DB_URL") /\
  trim (lit "DB_URL") = lit "DB_URL" /\
  startsWith (lit "#") (lit "DB_URL") = false.
Proof.
  assert (H : In (lit "DB_URL") (parseEnvKeys (lit "# db
  DB_URL = postgres://db"))) by (vm_compute; auto).
  split; [exact H | exact (declared_keys_clean _ _ H)].
Defined.

Lemma project_root_choice_witness :
  let join := fun a b : jsstring => a ++ lit "/" ++ b in
  let mac := mkDirent (lit "__MACOSX") true in
  let proj := mkDirent (lit "my-app") true in
  (name mac = lit "__MACOSX" /\
   pickProjectRoot join (lit "/tmp/x") ([] ++ mac :: [proj]) =
   pickProjectRoot join (lit "/tmp/x") ([] ++ [proj])) /\
  (Permutation [mac; proj] [proj; mac] /\
   pickProjectRoot join (lit "/tmp/x") [mac; proj] =
   pickProjectRoot join (lit "/tmp/x") [proj; mac]) /\
  (pickProjectRoot join (lit "/tmp/x") ([] ++ [proj]) <> lit "/tmp/x" /\
   pickProjectRoot join (lit "/tmp/x") ([] ++ [proj]) = lit "/tmp/x/my-app") /\
  (name proj <> lit "__MACOSX" /\
   pickProjectRoot join (lit "/tmp/x") [proj; proj] = lit "/tmp/x").
Proof.
  intros join mac proj.
  pose proof (project_root_choice join (lit "/tmp/x") [] [proj] mac)
    as (A & B & C & D).
  split; [|split; [|split]].
  - split; [reflexivity | exact (A eq_refl)].
  - assert (P : Permutation [mac; proj] [proj; mac]) by apply perm_swap.
    split; [exact P | exact (B _ _ P)].
  - assert (N : pickProjectRoot join (lit "/tmp/x") ([] ++ [proj])
                <> lit "/tmp/x") by (vm_compute; discriminate).
    split; [exact N|].
    destruct (C N) as (e & _ & _ & _ & E & _). vm_compute. reflexivity.
  - assert (N : name proj <> lit "__MACOSX") by (vm_compute; discriminate).
    split; [exact N | exact (D proj proj [] N N)].
Defined.

Lemma recorded_line_holds_reference_witness :
  In (lit "STRIPE_SECRET_KEY", 56) (matchAll reDot Sample.page_text) /\
  exists l,
    nth_error (split_nl Sample.page_text)
              (getLineNumber Sample.page_text 56 - 1) = Some l /\
    includes (lit "process.env." ++ lit "STRIPE_SECRET_KEY") l = true.
Proof.
  assert (H : In (lit "STRIPE_SECRET_KEY", 56)
                 (matchAll reDot Sample.page_text)) by (vm_compute; auto).
  split; [exact H|].
  exact (proj1 (recorded_line_holds_reference Sample.page_text
                  (lit "STRIPE_SECRET_KEY") 56) H).
Defined.
